(** * Testimonials carousel (src/js/performance.js, module [testimonialCarousel])

    A shallow embedding of the carousel widget: the module-level [state]
    and [elements] objects, the part of the document the widget reads and
    writes, and the browser's timer table.  Every JavaScript function of
    the module becomes a computation in a small state-and-exception monad
    [JS]; the browser's event loop becomes a [step] function on worlds. *)

From stdpp Require Import base tactics option list numbers strings pretty.

Local Open Scope Z_scope.

(** ** Configuration constants *)

Module CONFIG.
Definition AUTO_PLAY_INTERVAL : Z := 5000.
Definition TRANSITION_DURATION : Z := 300.
Definition SWIPE_THRESHOLD : Z := 50.
Definition TOUCH_ANGLE_THRESHOLD : Z := 30.
Definition KEYBOARD_REPEAT_DELAY : Z := 300.
End CONFIG.

(** ** Data model *)

(** Handles returned by [setInterval] and [setTimeout]: integers greater
    than zero, hence always truthy. *)
Definition TimerId := positive.

(** The module-level [state] object.  JavaScript numbers that hold
    indices, pixel coordinates and millisecond time stamps are integers. *)
Record State := mkState {
  currentIndex : Z;
  totalCards : Z;
  isAutoPlaying : bool;
  autoPlayTimer : option TimerId;
  lastKeyPressTime : Z;
  touchStartX : Z;
  touchStartY : Z;
  touchStartTime : Z;
  isTransitioning : bool;
}.

(** A [.testimonial-card] node: the three attributes the carousel writes
    and the text of its [.testimonial-card__name] child, if any. *)
Record Card := mkCard {
  activeClass : bool;
  ariaHidden : option string;
  tabindex : option string;
  customerName : option string;
}.

(** A [.testimonials__indicator] button. *)
Record Indicator := mkIndicator {
  indicatorActive : bool;
  ariaSelected : string;
  dataIndex : Z;
}.

(** The module-level [elements] object.  [container] and [grid] are
    references into the static page (non-null or null); [cards] holds
    references to the card nodes of the document, by position; the
    created nodes are owned by the reference that holds them. *)
Record Elements := mkElements {
  container : bool;
  grid : bool;
  cards : list nat;
  prevButton : option bool;
  nextButton : option bool;
  indicators : option (list Indicator);
  liveRegion : option string;
}.

Inductive Listener :=
| OnPrevClick | OnNextClick | OnIndicatorClick | OnKeyDown
| OnTouchStart | OnTouchMove | OnTouchEnd
| OnMouseEnter | OnMouseLeave | OnFocusIn | OnFocusOut
| OnVisibilityChange | OnResize.

Global Instance Listener_eq_dec : EqDecision Listener.
Proof. solve_decision. Defined.

(** The part of the document the widget depends on.  [hasTestimonials],
    [hasGrid] and [hasInner] say whether [.testimonials],
    [.testimonials__grid] and [.testimonials__container] exist;
    [docCards] are the [.testimonial-card] nodes under the grid in document
    order. *)
Record Document := mkDocument {
  hasTestimonials : bool;
  hasGrid : bool;
  hasInner : bool;
  docCards : list Card;
  controlsAttached : bool;
  indicatorsAttached : bool;
  liveRegionAttached : bool;
  stylesInjected : bool;
  hidden : bool;
  listeners : list Listener;
}.

(** The callbacks the module hands to [setInterval] and [setTimeout]. *)
Inductive Callback :=
| AutoAdvance      (* () => navigateTo(state.currentIndex + 1) *)
| EndTransition    (* () => { state.isTransitioning = false } *)
| ResizeSync.      (* () => updateCarousel(state.currentIndex, false) *)

Global Instance Callback_eq_dec : EqDecision Callback.
Proof. solve_decision. Defined.

(** An entry of the browser's list of active timers.  Timeouts and
    intervals share one table and one supply of handles. *)
Record Timer := mkTimer {
  timerId : TimerId;
  due : Z;
  period : Z;
  repeating : bool;
  callback : Callback;
}.

Record Timers := mkTimers {
  now : Z;
  nextTimerId : TimerId;
  active : list Timer;
}.

Inductive Exn := TypeError (what : string).

Inductive LogEntry :=
| LogInfo (n : Z)
| LogError (e : Exn)
| Uncaught (e : Exn).

Record World := mkWorld {
  state : State;
  elements : Elements;
  document : Document;
  timers : Timers;
  resizeTimer : option TimerId;
  console : list LogEntry;
}.

(** ** Field updates *)

Definition set_currentIndex (v : Z) (s : State) : State :=
  mkState v (totalCards s) (isAutoPlaying s) (autoPlayTimer s) (lastKeyPressTime s)
          (touchStartX s) (touchStartY s) (touchStartTime s) (isTransitioning s).
Definition set_totalCards (v : Z) (s : State) : State :=
  mkState (currentIndex s) v (isAutoPlaying s) (autoPlayTimer s) (lastKeyPressTime s)
          (touchStartX s) (touchStartY s) (touchStartTime s) (isTransitioning s).
Definition set_isAutoPlaying (v : bool) (s : State) : State :=
  mkState (currentIndex s) (totalCards s) v (autoPlayTimer s) (lastKeyPressTime s)
          (touchStartX s) (touchStartY s) (touchStartTime s) (isTransitioning s).
Definition set_autoPlayTimer (v : option TimerId) (s : State) : State :=
  mkState (currentIndex s) (totalCards s) (isAutoPlaying s) v (lastKeyPressTime s)
          (touchStartX s) (touchStartY s) (touchStartTime s) (isTransitioning s).
Definition set_lastKeyPressTime (v : Z) (s : State) : State :=
  mkState (currentIndex s) (totalCards s) (isAutoPlaying s) (autoPlayTimer s) v
          (touchStartX s) (touchStartY s) (touchStartTime s) (isTransitioning s).
Definition set_touchStart (x y t : Z) (s : State) : State :=
  mkState (currentIndex s) (totalCards s) (isAutoPlaying s) (autoPlayTimer s)
          (lastKeyPressTime s) x y t (isTransitioning s).
Definition set_isTransitioning (v : bool) (s : State) : State :=
  mkState (currentIndex s) (totalCards s) (isAutoPlaying s) (autoPlayTimer s)
          (lastKeyPressTime s) (touchStartX s) (touchStartY s) (touchStartTime s) v.

Definition set_container (v : bool) (e : Elements) : Elements :=
  mkElements v (grid e) (cards e) (prevButton e) (nextButton e) (indicators e) (liveRegion e).
Definition set_grid (v : bool) (e : Elements) : Elements :=
  mkElements (container e) v (cards e) (prevButton e) (nextButton e) (indicators e) (liveRegion e).
Definition set_cards (v : list nat) (e : Elements) : Elements :=
  mkElements (container e) (grid e) v (prevButton e) (nextButton e) (indicators e) (liveRegion e).
Definition set_prevButton (v : option bool) (e : Elements) : Elements :=
  mkElements (container e) (grid e) (cards e) v (nextButton e) (indicators e) (liveRegion e).
Definition set_nextButton (v : option bool) (e : Elements) : Elements :=
  mkElements (container e) (grid e) (cards e) (prevButton e) v (indicators e) (liveRegion e).
Definition set_indicators (v : option (list Indicator)) (e : Elements) : Elements :=
  mkElements (container e) (grid e) (cards e) (prevButton e) (nextButton e) v (liveRegion e).
Definition set_liveRegion (v : option string) (e : Elements) : Elements :=
  mkElements (container e) (grid e) (cards e) (prevButton e) (nextButton e) (indicators e) v.

Definition set_docCards (v : list Card) (d : Document) : Document :=
  mkDocument (hasTestimonials d) (hasGrid d) (hasInner d) v (controlsAttached d)
             (indicatorsAttached d) (liveRegionAttached d) (stylesInjected d)
             (hidden d) (listeners d).
Definition set_controlsAttached (v : bool) (d : Document) : Document :=
  mkDocument (hasTestimonials d) (hasGrid d) (hasInner d) (docCards d) v
             (indicatorsAttached d) (liveRegionAttached d) (stylesInjected d)
             (hidden d) (listeners d).
Definition set_indicatorsAttached (v : bool) (d : Document) : Document :=
  mkDocument (hasTestimonials d) (hasGrid d) (hasInner d) (docCards d) (controlsAttached d)
             v (liveRegionAttached d) (stylesInjected d) (hidden d) (listeners d).
Definition set_liveRegionAttached (v : bool) (d : Document) : Document :=
  mkDocument (hasTestimonials d) (hasGrid d) (hasInner d) (docCards d) (controlsAttached d)
             (indicatorsAttached d) v (stylesInjected d) (hidden d) (listeners d).
Definition set_stylesInjected (v : bool) (d : Document) : Document :=
  mkDocument (hasTestimonials d) (hasGrid d) (hasInner d) (docCards d) (controlsAttached d)
             (indicatorsAttached d) (liveRegionAttached d) v (hidden d) (listeners d).
Definition set_hidden (v : bool) (d : Document) : Document :=
  mkDocument (hasTestimonials d) (hasGrid d) (hasInner d) (docCards d) (controlsAttached d)
             (indicatorsAttached d) (liveRegionAttached d) (stylesInjected d) v (listeners d).
Definition set_listeners (v : list Listener) (d : Document) : Document :=
  mkDocument (hasTestimonials d) (hasGrid d) (hasInner d) (docCards d) (controlsAttached d)
             (indicatorsAttached d) (liveRegionAttached d) (stylesInjected d) (hidden d) v.

Definition with_state (f : State → State) (w : World) : World :=
  mkWorld (f (state w)) (elements w) (document w) (timers w) (resizeTimer w) (console w).
Definition with_elements (f : Elements → Elements) (w : World) : World :=
  mkWorld (state w) (f (elements w)) (document w) (timers w) (resizeTimer w) (console w).
Definition with_document (f : Document → Document) (w : World) : World :=
  mkWorld (state w) (elements w) (f (document w)) (timers w) (resizeTimer w) (console w).
Definition with_timers (f : Timers → Timers) (w : World) : World :=
  mkWorld (state w) (elements w) (document w) (f (timers w)) (resizeTimer w) (console w).
Definition set_resizeTimer (v : option TimerId) (w : World) : World :=
  mkWorld (state w) (elements w) (document w) (timers w) v (console w).
Definition log (l : LogEntry) (w : World) : World :=
  mkWorld (state w) (elements w) (document w) (timers w) (resizeTimer w) (console w ++ [l]).

(** ** The monad of JavaScript computations

    A computation transforms the world and either completes with a value
    or throws; mutations made before a throw persist. *)

Inductive Outcome (A : Type) :=
| Normal (a : A)
| Thrown (e : Exn).
Arguments Normal {A} a.
Arguments Thrown {A} e.

Definition JS (A : Type) : Type := World → World * Outcome A.

Global Instance JS_ret : MRet JS := λ A a w, (w, Normal a).
Global Instance JS_bind : MBind JS := λ A B k m w,
  match m w with
  | (w1, Normal a) => k a w1
  | (w1, Thrown e) => (w1, Thrown e)
  end.

Definition throw {A} (e : Exn) : JS A := λ w, (w, Thrown e).
Definition get : JS World := λ w, (w, Normal w).
Definition modify (f : World → World) : JS unit := λ w, (f w, Normal tt).
Definition tryCatch (body : JS unit) (handler : Exn → JS unit) : JS unit := λ w,
  match body w with
  | (w1, Normal a) => (w1, Normal a)
  | (w1, Thrown e) => handler e w1
  end.

Definition exec {A} (m : JS A) (w : World) : World := fst (m w).
Definition outcome {A} (m : JS A) (w : World) : Outcome A := snd (m w).

(** Dereferencing a reference that may be [null]. *)
Definition deref {A} (what : string) (r : option A) : JS A :=
  match r with
  | Some a => mret a
  | None => throw (TypeError what)
  end.
Definition nonNull (what : string) (r : bool) : JS unit :=
  if r then mret tt else throw (TypeError what).

(** ** Timers *)

Definition schedule (rep : bool) (cb : Callback) (delay : Z) : JS TimerId := λ w,
  let t := timers w in
  let id := nextTimerId t in
  (with_timers (λ _, mkTimers (now t) (Pos.succ id)
                              (active t ++ [mkTimer id (now t + delay) delay rep cb])) w,
   Normal id).

Definition setInterval : Callback → Z → JS TimerId := schedule true.
Definition setTimeout : Callback → Z → JS TimerId := schedule false.

(** [clearInterval] and [clearTimeout] are one operation on the shared
    table; a [null] or unknown handle is ignored. *)
Definition clearTimer (h : option TimerId) : JS unit :=
  modify (with_timers (λ t,
    mkTimers (now t) (nextTimerId t)
             (filter (λ x, Some (timerId x) ≠ h) (active t)))).

Definition clearInterval := clearTimer.
Definition clearTimeout := clearTimer.

(** ** The carousel *)

Definition initialState : State := mkState 0 0 false None 0 0 0 0 false.
Definition initialElements : Elements := mkElements false false [] None None None None.

(** [array[i]] for a JavaScript number [i]: [undefined] out of range. *)
Definition arrayGet {A} (l : list A) (i : Z) : option A :=
  if bool_decide (0 ≤ i) then l !! Z.to_nat i else None.

(** The two branches of the card loop of [updateCarousel]. *)
Definition markCard (isCurrent : bool) (c : Card) : Card :=
  if isCurrent
  then mkCard true None (Some "0"%string) (customerName c)
  else mkCard false (Some "true"%string) (Some "-1"%string) (customerName c).

(** The two branches of the indicator loop of [updateCarousel]. *)
Definition markIndicator (isCurrent : bool) (d : Indicator) : Indicator :=
  if isCurrent
  then mkIndicator true "true" (dataIndex d)
  else mkIndicator false "false" (dataIndex d).

(** [elements.cards.forEach((card, i) => ...)]: the i-th reference is
    followed into the document and the node it names is rewritten. *)
Definition forEachCard (index : Z) (refs : list nat) (nodes : list Card) : list Card :=
  foldl (λ nodes ih, alter (markCard (bool_decide (Z.of_nat ih.1 = index))) ih.2 nodes)
        nodes (imap pair refs).

Definition announcement (index total : Z) (name : string) : string :=
  String.append "Showing testimonial "
    (String.append (pretty (Z.add index 1))
      (String.append " of " (String.append (pretty total) (String.append " from " name)))).

Definition announceCurrentTestimonial : JS unit :=
  w ← get;
  h ← deref "currentCard" (arrayGet (cards (elements w)) (currentIndex (state w)));
  currentCard ← deref "currentCard" (docCards (document w) !! h);
  let name := match customerName currentCard with
              | Some n => if decide (n = EmptyString) then "Customer"%string else n
              | None => "Customer"%string
              end in
  _ ← deref "elements.liveRegion" (liveRegion (elements w));
  modify (with_elements (set_liveRegion
    (Some (announcement (currentIndex (state w)) (totalCards (state w)) name)))).

Definition updateCarousel (index : Z) (animate : bool) : JS unit :=
  modify (with_state (set_isTransitioning true));;
  modify (with_state (set_currentIndex index));;
  w ← get;
  modify (with_document (set_docCards
    (forEachCard index (cards (elements w)) (docCards (document w)))));;
  dots ← deref "elements.indicators" (indicators (elements w));
  modify (with_elements (set_indicators
    (Some (imap (λ i, markIndicator (bool_decide (Z.of_nat i = index))) dots))));;
  _ ← deref "elements.prevButton" (prevButton (elements w));
  modify (with_elements (set_prevButton (Some false)));;
  _ ← deref "elements.nextButton" (nextButton (elements w));
  modify (with_elements (set_nextButton (Some false)));;
  announceCurrentTestimonial;;
  _ ← setTimeout EndTransition (if animate then CONFIG.TRANSITION_DURATION else 0);
  mret tt.

Definition startAutoPlay : JS unit :=
  w ← get;
  if isAutoPlaying (state w) then mret tt else
  modify (with_state (set_isAutoPlaying true));;
  id ← setInterval AutoAdvance CONFIG.AUTO_PLAY_INTERVAL;
  modify (with_state (set_autoPlayTimer (Some id))).

Definition pauseAutoPlay : JS unit :=
  w ← get;
  if negb (isAutoPlaying (state w)) then mret tt else
  clearInterval (autoPlayTimer (state w));;
  modify (with_state (set_autoPlayTimer None)).

Definition resumeAutoPlay : JS unit :=
  w ← get;
  if bool_decide (is_Some (autoPlayTimer (state w))) then mret tt else
  id ← setInterval AutoAdvance CONFIG.AUTO_PLAY_INTERVAL;
  modify (with_state (set_autoPlayTimer (Some id))).

Definition resetAutoPlay : JS unit :=
  pauseAutoPlay;; resumeAutoPlay.

(** The index [navigateTo] settles on: one wrap at either boundary. *)
Definition wrapIndex (total index : Z) : Z :=
  if bool_decide (index < 0) then total - 1
  else if bool_decide (index >= total) then 0
  else index.

Definition navigateTo (index : Z) : JS unit :=
  w ← get;
  if isTransitioning (state w) then mret tt else
  let newIndex := wrapIndex (totalCards (state w)) index in
  if bool_decide (newIndex = currentIndex (state w)) then mret tt else
  updateCarousel newIndex true;;
  resetAutoPlay.

(** ** Event handlers *)

Definition handlePrevClick : JS unit :=
  w ← get; navigateTo (currentIndex (state w) - 1).

Definition handleNextClick : JS unit :=
  w ← get; navigateTo (currentIndex (state w) + 1).

(** [target]: the position of the indicator button the click landed on,
    or [None] when [closest('.testimonials__indicator')] finds nothing.
    [dataset.index] was written by [createIndicators] as a number, so
    [parseInt] gives it back and the [isNaN] test passes. *)
Definition handleIndicatorClick (target : option nat) : JS unit :=
  w ← get;
  match target ≫= (λ k, default [] (indicators (elements w)) !! k) with
  | None => mret tt
  | Some indicator => navigateTo (dataIndex indicator)
  end.

(** [Date.now()] is the clock of the timer table; [event.preventDefault()]
    acts on the event only and is left out. *)
Definition handleKeyDown (key : string) : JS unit :=
  w ← get;
  let now_ := now (timers w) in
  if bool_decide (now_ - lastKeyPressTime (state w) < CONFIG.KEYBOARD_REPEAT_DELAY)
  then mret tt else
  handled ←
    (if String.eqb key "ArrowLeft" then
       navigateTo (currentIndex (state w) - 1);; mret true
     else if String.eqb key "ArrowRight" then
       navigateTo (currentIndex (state w) + 1);; mret true
     else if String.eqb key "Home" then
       navigateTo 0;; mret true
     else if String.eqb key "End" then
       navigateTo (totalCards (state w) - 1);; mret true
     else mret false);
  if (handled : bool)
  then modify (with_state (set_lastKeyPressTime now_))
  else mret tt.

(** A touch point: [(clientX, clientY)], in whole pixels. *)
Definition Touch : Type := Z * Z.

Definition handleTouchStart (touches : list Touch) : JS unit :=
  match touches with
  | [(x, y)] => w ← get; modify (with_state (set_touchStart x y (now (timers w))))
  | _ => mret tt
  end.

(** Returns whether [event.preventDefault()] is called. *)
Definition handleTouchMove (touches : list Touch) : JS bool :=
  match touches with
  | [(x, y)] =>
      w ← get;
      let deltaX := Z.abs (x - touchStartX (state w)) in
      let deltaY := Z.abs (y - touchStartY (state w)) in
      mret (bool_decide (deltaX > deltaY) && bool_decide (deltaX > 10))
  | _ => mret false
  end.

(** [angle = |atan2(deltaY, deltaX)| * 180 / PI] compared with the angle
    threshold of 30 degrees.  Since [tan 30° = 1/√3], the angle is below
    30° exactly when [deltaX > 0] and [3·deltaY² < deltaX²] (or both
    deltas are 0, where [atan2] gives 0), and above 150° exactly when
    [deltaX < 0] and [3·deltaY² < deltaX²].  On integer pixel deltas
    [3·deltaY² = deltaX²] only at the origin, so no gesture sits on a
    boundary.  The comparison here is exact, on whole-pixel coordinates;
    the source computes the angle in double precision, and its rounding
    can put a gesture on the other side of the threshold only when
    [3·deltaY²] and [deltaX²] agree to some sixteen digits, which takes
    deltas of the order of 10^8 pixels. *)
Definition angleBelowThreshold (deltaX deltaY : Z) : bool :=
  bool_decide (0 < deltaX ∧ 3 * deltaY * deltaY < deltaX * deltaX)
  || bool_decide (deltaX = 0 ∧ deltaY = 0).
Definition angleAboveSupplement (deltaX deltaY : Z) : bool :=
  bool_decide (deltaX < 0 ∧ 3 * deltaY * deltaY < deltaX * deltaX).
Definition isHorizontalSwipe (deltaX deltaY : Z) : bool :=
  angleBelowThreshold deltaX deltaY || angleAboveSupplement deltaX deltaY.

Definition handleTouchEnd (changedTouches : list Touch) : JS unit :=
  w ← get;
  if bool_decide (touchStartX (state w) = 0) then mret tt else
  touchEnd ← deref "event.changedTouches[0]" (head changedTouches);
  let deltaX := touchEnd.1 - touchStartX (state w) in
  let deltaY := touchEnd.2 - touchStartY (state w) in
  let deltaTime := now (timers w) - touchStartTime (state w) in
  (if isHorizontalSwipe deltaX deltaY
      && bool_decide (Z.abs deltaX > CONFIG.SWIPE_THRESHOLD)
      && bool_decide (deltaTime < 500)
   then if bool_decide (deltaX > 0)
        then navigateTo (currentIndex (state w) - 1)
        else navigateTo (currentIndex (state w) + 1)
   else mret tt);;
  modify (with_state (set_touchStart 0 0 0)).

Definition handleVisibilityChange : JS unit :=
  w ← get;
  if hidden (document w) then pauseAutoPlay else resumeAutoPlay.

(** The [resize] listener, a closure over [resizeTimer]. *)
Definition handleResize : JS unit :=
  w ← get;
  clearTimeout (resizeTimer w);;
  id ← setTimeout ResizeSync 150;
  modify (set_resizeTimer (Some id)).

(** ** Initialization *)

Definition injectCarouselStyles : JS unit :=
  w ← get;
  if stylesInjected (document w) then mret tt else
  modify (with_document (set_stylesInjected true)).

(** [elements.container.querySelector('.testimonials__container').appendChild(..)] *)
Definition appendToInner : JS unit :=
  w ← get;
  nonNull "elements.container" (container (elements w));;
  nonNull ".testimonials__container" (hasInner (document w)).

Definition createCarouselControls : JS unit :=
  modify (with_elements (set_prevButton (Some false)));;
  modify (with_elements (set_nextButton (Some false)));;
  appendToInner;;
  modify (with_document (set_controlsAttached true));;
  injectCarouselStyles.

Definition createIndicators : JS unit :=
  w ← get;
  modify (with_elements (set_indicators (Some (
    (λ i, mkIndicator false (if bool_decide (i = 0) then "true" else "false") i)
      <$> seqZ 0 (totalCards (state w))))));;
  appendToInner;;
  modify (with_document (set_indicatorsAttached true)).

Definition createLiveRegion : JS unit :=
  modify (with_elements (set_liveRegion (Some EmptyString)));;
  w ← get;
  nonNull "elements.container" (container (elements w));;
  modify (with_document (set_liveRegionAttached true)).

Definition addEventListener (l : Listener) : JS unit :=
  modify (with_document (λ d, set_listeners (listeners d ++ [l]) d)).

Definition attachEventListeners : JS unit :=
  w ← get;
  _ ← deref "elements.prevButton" (prevButton (elements w));
  addEventListener OnPrevClick;;
  _ ← deref "elements.nextButton" (nextButton (elements w));
  addEventListener OnNextClick;;
  _ ← deref "elements.indicators" (indicators (elements w));
  addEventListener OnIndicatorClick;;
  nonNull "elements.container" (container (elements w));;
  addEventListener OnKeyDown;;
  nonNull "elements.grid" (grid (elements w));;
  addEventListener OnTouchStart;;
  addEventListener OnTouchMove;;
  addEventListener OnTouchEnd;;
  addEventListener OnMouseEnter;;
  addEventListener OnMouseLeave;;
  addEventListener OnFocusIn;;
  addEventListener OnFocusOut;;
  addEventListener OnVisibilityChange;;
  addEventListener OnResize.

Definition initBody : JS unit :=
  w ← get;
  modify (with_elements (set_container (hasTestimonials (document w))));;
  if negb (hasTestimonials (document w)) then mret tt else
  modify (with_elements (set_grid (hasGrid (document w))));;
  if negb (hasGrid (document w)) then mret tt else
  modify (with_elements (set_cards (seq 0 (length (docCards (document w))))));;
  modify (with_state (set_totalCards (Z.of_nat (length (docCards (document w))))));;
  if bool_decide (Z.of_nat (length (docCards (document w))) ≤ 1) then mret tt else
  createCarouselControls;;
  createIndicators;;
  createLiveRegion;;
  attachEventListeners;;
  updateCarousel 0 false;;
  startAutoPlay;;
  modify (log (LogInfo (Z.of_nat (length (docCards (document w)))))).

Definition init : JS unit :=
  tryCatch initBody (λ error, modify (log (LogError error))).

(** ** The page and the event loop *)

(** The static page as served, before any script has run. *)
Record Page := mkPage {
  pageTestimonials : bool;
  pageGrid : bool;
  pageInner : bool;
  pageCards : list Card;
  pageHidden : bool;
}.

(** The world when the module body starts: the literal [state] and
    [elements] objects, the static document, no timers. *)
Definition load (p : Page) (clock : Z) : World :=
  mkWorld initialState initialElements
          (mkDocument (pageTestimonials p) (pageGrid p) (pageInner p) (pageCards p)
                      false false false false (pageHidden p) [])
          (mkTimers clock 1%positive []) None [].

(** The module body ends by running [init] once the DOM is ready. *)
Definition boot (p : Page) (clock : Z) : World := exec init (load p clock).

Inductive Event :=
| PrevClick
| NextClick
| IndicatorClick (target : option nat)
| KeyDown (key : string)
| TouchStart (touches : list Touch)
| TouchMove (touches : list Touch)
| TouchEnd (changedTouches : list Touch)
| MouseEnter
| MouseLeave
| FocusIn
| FocusOut
| VisibilityChange (nowHidden : bool)
| Resize
| TimerFires (id : TimerId)
| TimePasses (dt : N).
Arguments TimerFires id%_positive.
Arguments TimePasses dt%_N.

(** Running a handler to completion; an exception that escapes it is
    reported by the browser and the mutations made so far stay. *)
Definition settle {A} (h : JS A) (w : World) : World :=
  match h w with
  | (w1, Normal _) => w1
  | (w1, Thrown e) => log (Uncaught e) w1
  end.

Definition dispatch {A} (l : Listener) (h : JS A) (w : World) : World :=
  if bool_decide (l ∈ listeners (document w)) then settle h w else w.

Definition runCallback (cb : Callback) : JS unit :=
  match cb with
  | AutoAdvance => w ← get; navigateTo (currentIndex (state w) + 1)
  | EndTransition => modify (with_state (set_isTransitioning false))
  | ResizeSync => w ← get; updateCarousel (currentIndex (state w)) false
  end.

Definition isDue (id : TimerId) (clock : Z) (t : Timer) : bool :=
  bool_decide (timerId t = id) && bool_decide (due t ≤ clock).

(** After a timer ran: a timeout leaves the table, an interval is
    scheduled one period later. *)
Definition afterFiring (id : TimerId) (t : Timers) : Timers :=
  mkTimers (now t) (nextTimerId t)
    (omap (λ x, if bool_decide (timerId x = id)
                then if repeating x
                     then Some (mkTimer id (now t + period x) (period x) true (callback x))
                     else None
                else Some x)
          (active t)).

(** The event loop picks a timer only when it is due. *)
Definition fireTimer (id : TimerId) (w : World) : World :=
  match List.find (isDue id (now (timers w))) (active (timers w)) with
  | None => w
  | Some t => settle (runCallback (callback t)) (with_timers (afterFiring id) w)
  end.

Definition advanceClock (dt : N) (t : Timers) : Timers :=
  mkTimers (now t + Z.of_N dt) (nextTimerId t) (active t).

Definition step (ev : Event) (w : World) : World :=
  match ev with
  | PrevClick => dispatch OnPrevClick handlePrevClick w
  | NextClick => dispatch OnNextClick handleNextClick w
  | IndicatorClick target => dispatch OnIndicatorClick (handleIndicatorClick target) w
  | KeyDown key => dispatch OnKeyDown (handleKeyDown key) w
  | TouchStart touches => dispatch OnTouchStart (handleTouchStart touches) w
  | TouchMove touches => dispatch OnTouchMove (handleTouchMove touches) w
  | TouchEnd changedTouches => dispatch OnTouchEnd (handleTouchEnd changedTouches) w
  | MouseEnter => dispatch OnMouseEnter pauseAutoPlay w
  | MouseLeave => dispatch OnMouseLeave resumeAutoPlay w
  | FocusIn => dispatch OnFocusIn pauseAutoPlay w
  | FocusOut => dispatch OnFocusOut resumeAutoPlay w
  | VisibilityChange nowHidden =>
      dispatch OnVisibilityChange handleVisibilityChange
               (with_document (set_hidden nowHidden) w)
  | Resize => dispatch OnResize handleResize w
  | TimerFires id => fireTimer id w
  | TimePasses dt => with_timers (advanceClock dt) w
  end.

Definition run (evs : list Event) (w : World) : World :=
  foldl (λ w ev, step ev w) w evs.

(** ** Notions used by the properties *)

(** JavaScript's [%] truncates towards zero: [((i % N) + N) % N]. *)
Definition moduloIndex (total index : Z) : Z :=
  Z.rem (Z.rem index total + total) total.

(** The active marker of a card: the active class set, no [aria-hidden]
    attribute, [tabindex] 0. *)
Definition carriesActiveMarker (c : Card) : bool :=
  activeClass c && bool_decide (ariaHidden c = None)
  && bool_decide (tabindex c = Some "0"%string).

Definition activeCards (w : World) : list Card :=
  filter (λ c, carriesActiveMarker c = true) (docCards (document w)).

(** Cards that carry any part of the active marker. *)
Definition partlyActive (c : Card) : bool :=
  activeClass c || bool_decide (ariaHidden c = None)
  || bool_decide (tabindex c = Some "0"%string).

(** The active timers that run the auto-advance callback. *)
Definition autoTimers (w : World) : list Timer :=
  filter (λ t, callback t = AutoAdvance) (active (timers w)).

(** A page on which [init] builds the carousel, and one on which it
    leaves the static layout alone. *)
Definition carouselPage (p : Page) : Prop :=
  pageTestimonials p = true ∧ pageGrid p = true ∧ pageInner p = true
  ∧ (2 ≤ length (pageCards p))%nat.

Definition fallbackPage (p : Page) : Prop :=
  pageTestimonials p = false ∨ pageGrid p = false ∨ (length (pageCards p) < 2)%nat.

(** The nodes and references [init] may create. *)
Definition nothingCreated (w : World) : Prop :=
  prevButton (elements w) = None ∧ nextButton (elements w) = None
  ∧ indicators (elements w) = None ∧ liveRegion (elements w) = None.

(** The carousel as [init] leaves it and every handler keeps it. *)
Record Built (w : World) : Prop := mkBuilt {
  built_total : totalCards (state w) = Z.of_nat (length (docCards (document w)));
  built_many : 2 ≤ totalCards (state w);
  built_refs : cards (elements w) = seq 0 (length (docCards (document w)));
  built_dots : is_Some (indicators (elements w));
  built_prev : is_Some (prevButton (elements w));
  built_next : is_Some (nextButton (elements w));
  built_live : is_Some (liveRegion (elements w));
  built_index : 0 ≤ currentIndex (state w) < totalCards (state w);
  built_playing : isAutoPlaying (state w) = true;
}.

(** Every card is marked according to [currentIndex]. *)
Definition Marked (w : World) : Prop :=
  docCards (document w)
  = imap (λ i, markCard (bool_decide (Z.of_nat i = currentIndex (state w))))
         (docCards (document w)).

(** [state.autoPlayTimer] names the one auto-advance interval, if any;
    handles held by the module are older than the next fresh handle. *)
Record Tracked (w : World) : Prop := mkTracked {
  tracked_ids : timerId <$> autoTimers w = option_list (autoPlayTimer (state w));
  tracked_repeat : Forall (λ t, repeating t = true) (autoTimers w);
  tracked_auto : ∀ a, autoPlayTimer (state w) = Some a → (a < nextTimerId (timers w))%positive;
  tracked_resize : ∀ r, resizeTimer w = Some r → (r < nextTimerId (timers w))%positive;
  tracked_apart : ∀ r, resizeTimer w = Some r → autoPlayTimer (state w) ≠ Some r;
}.

Definition Ready (w : World) : Prop := Built w ∧ Marked w ∧ Tracked w.

(** A property of worlds that a computation keeps, however it ends. *)
Definition preserves {A} (I : World → Prop) (m : JS A) : Prop :=
  ∀ w, I w → I (exec m w).

(** A single-touch gesture: where and when the finger went down, where
    and how much later it was lifted. *)
Record Gesture := mkGesture {
  startX : Z;
  startY : Z;
  endX : Z;
  endY : Z;
  elapsed : N;
}.
Arguments mkGesture (startX startY endX endY)%_Z elapsed%_N.

Definition gestureEvents (g : Gesture) : list Event :=
  [TouchStart [(startX g, startY g)]; TimePasses (elapsed g); TouchEnd [(endX g, endY g)]].

(** The three conditions under which a swipe is accepted. *)
Definition swipeAccepted (g : Gesture) : Prop :=
  isHorizontalSwipe (endX g - startX g) (endY g - startY g) = true
  ∧ Z.abs (endX g - startX g) > CONFIG.SWIPE_THRESHOLD
  ∧ Z.of_N (elapsed g) < 500.

(** The listeners [attachEventListeners] registers, in order. *)
Definition allListeners : list Listener :=
  [OnPrevClick; OnNextClick; OnIndicatorClick; OnKeyDown;
   OnTouchStart; OnTouchMove; OnTouchEnd; OnMouseEnter;
   OnMouseLeave; OnFocusIn; OnFocusOut; OnVisibilityChange; OnResize].

(** [startAutoPlay] has run. *)
Definition Playing (w : World) : Prop := isAutoPlaying (state w) = true.

(** Every listener of the carousel is attached. *)
Definition Listening (w : World) : Prop := listeners (document w) = allListeners.

(** ** A sample page *)

Definition sampleCard (name : string) : Card := mkCard false None None (Some name).

Definition threeCards : Page :=
  mkPage true true true [sampleCard "Ann"; sampleCard "Ben"; sampleCard "Cy"] false.

(** A page with the section, the grid and two cards, but without the
    [.testimonials__container] wrapper the controls are appended to. *)
Definition twoCardsNoWrapper : Page :=
  mkPage true true false [sampleCard "Ann"; sampleCard "Ben"] false.

(** The carousel of [threeCards] once the initial zero-delay timeout
    (handle 1) has cleared [isTransitioning]: card 0 shown. *)
Definition settledAtFirst : World := run [TimerFires 1] (boot threeCards 0).

(** From there, one click on "previous" wraps to card 2; 300 ms later
    the transition timeout (handle 3) fires. *)
Definition settledAtLast : World :=
  run [PrevClick; TimePasses 300; TimerFires 3] settledAtFirst.

(** An 80 px swipe to the right, level, in 200 ms, that starts on the
    leftmost pixel column; the same swipe one pixel further right; a 30 px
    swipe. *)
Definition edgeSwipe : Gesture := mkGesture 0 100 80 100 200.
Definition nearEdgeSwipe : Gesture := mkGesture 1 100 81 100 200.
Definition leftSwipe : Gesture := mkGesture 200 100 120 100 200.
Definition shortSwipe : Gesture := mkGesture 200 100 170 100 200.

(** ** Notions used by the further properties *)

(** The name [announceCurrentTestimonial] reads out for a card:
    [querySelector('.testimonial-card__name')?.textContent || 'Customer']. *)
Definition displayName (c : Card) : string :=
  match customerName c with
  | Some n => if decide (n = EmptyString) then "Customer"%string else n
  | None => "Customer"%string
  end.

(** The k-th indicator button as [updateCarousel] leaves it when card
    [current] is shown. *)
Definition shownDot (current k : Z) : Indicator :=
  mkIndicator (bool_decide (k = current))
              (if bool_decide (k = current) then "true" else "false") k.

(** The created controls agree with [currentIndex]. *)
Record Synced (w : World) : Prop := mkSynced {
  synced_dots :
    indicators (elements w)
    = Some (shownDot (currentIndex (state w)) <$> seqZ 0 (totalCards (state w)));
  synced_live :
    ∃ c, arrayGet (docCards (document w)) (currentIndex (state w)) = Some c
         ∧ liveRegion (elements w)
           = Some (announcement (currentIndex (state w)) (totalCards (state w))
                                (displayName c));
  synced_prev : prevButton (elements w) = Some false;
  synced_next : nextButton (elements w) = Some false;
}.

(** The active timers that end a transition, and those that resync
    after a resize. *)
Definition endTimers (w : World) : list Timer :=
  filter (λ t, callback t = EndTransition) (active (timers w)).
Definition resizeTimers (w : World) : list Timer :=
  filter (λ t, callback t = ResizeSync) (active (timers w)).

(** The timer table as the carousel keeps it: handles are unique and
    older than the next fresh one; the handles the module holds name timers
    of the right kind; a transition in progress has a pending timeout that
    ends it. *)
Record Scheduled (w : World) : Prop := mkScheduled {
  sched_nodup : NoDup (timerId <$> active (timers w));
  sched_fresh : ∀ t, t ∈ active (timers w) → (timerId t < nextTimerId (timers w))%positive;
  sched_auto : ∀ t, t ∈ active (timers w) →
               autoPlayTimer (state w) = Some (timerId t) → callback t = AutoAdvance;
  sched_resize : ∀ t, t ∈ active (timers w) →
                 resizeTimer w = Some (timerId t) → callback t = ResizeSync;
  sched_resize_only : ∀ t, t ∈ active (timers w) →
                      callback t = ResizeSync → resizeTimer w = Some (timerId t);
  sched_oneshot : ∀ t, t ∈ active (timers w) →
                  callback t ≠ AutoAdvance → repeating t = false;
  sched_ending : isTransitioning (state w) = true →
                 ∃ t, t ∈ active (timers w) ∧ callback t = EndTransition
                      ∧ due t ≤ now (timers w) + CONFIG.TRANSITION_DURATION;
}.

Definition Steady (w : World) : Prop := Ready w ∧ Synced w ∧ Scheduled w ∧ Listening w.

(** The keys [handleKeyDown] acts on. *)
Definition navigationKey (key : string) : bool :=
  String.eqb key "ArrowLeft" || String.eqb key "ArrowRight"
  || String.eqb key "Home" || String.eqb key "End".

(** A page with the section, the grid and two cards or more, but
    without the [.testimonials__container] wrapper the controls go into. *)
Definition wrapperlessPage (p : Page) : Prop :=
  pageTestimonials p = true ∧ pageGrid p = true ∧ pageInner p = false
  ∧ (2 ≤ length (pageCards p))%nat.

(** The world [init] leaves on a page with a carousel whose first card
    is [c]. *)
Definition built (p : Page) (clock : Z) (c : Card) : World :=
  mkWorld (mkState 0 (Z.of_nat (length (pageCards p))) true (Some 2%positive)
                   0 0 0 0 true)
          (mkElements true true (seq 0 (length (pageCards p)))
             (Some false) (Some false)
             (Some (shownDot 0 <$> seqZ 0 (Z.of_nat (length (pageCards p)))))
             (Some (announcement 0 (Z.of_nat (length (pageCards p))) (displayName c))))
          (mkDocument true true true
             (imap (λ i, markCard (bool_decide (Z.of_nat i = 0))) (pageCards p))
             true true true true (pageHidden p) allListeners)
          (mkTimers clock 3%positive
             [mkTimer 1%positive (clock + 0) 0 false EndTransition;
              mkTimer 2%positive (clock + CONFIG.AUTO_PLAY_INTERVAL)
                      CONFIG.AUTO_PLAY_INTERVAL true AutoAdvance])
          None
          [LogInfo (Z.of_nat (length (pageCards p)))].


(** The events wired to [pauseAutoPlay] and to [resumeAutoPlay]. *)
Definition pausingEvent (ev : Event) : bool :=
  match ev with
  | MouseEnter | FocusIn | VisibilityChange true => true
  | _ => false
  end.

Definition resumingEvent (ev : Event) : bool :=
  match ev with
  | MouseLeave | FocusOut | VisibilityChange false => true
  | _ => false
  end.

(** What the browser has done to the page when the listener runs. *)
Definition arrive (ev : Event) (w : World) : World :=
  match ev with
  | VisibilityChange nowHidden => with_document (set_hidden nowHidden) w
  | _ => w
  end.

(** A [touchend] event of a browser names the touch that ended. *)
Definition wellFormed (ev : Event) : bool :=
  match ev with
  | TouchEnd [] => false
  | _ => true
  end.

(** The computation completes without throwing. *)
Definition returns {A} (h : JS A) (w : World) : Prop :=
  ∃ a, h w = (exec h w, Normal a).

(** * Verification *)

(** ** Reasoning about computations *)

Ltac js_unfold :=
  unfold exec, outcome, mbind, JS_bind, mret, JS_ret, get, modify, throw,
         deref, nonNull, tryCatch in *.

Section Preservation.
Context (I : World → Prop).

Lemma preserves_ret {A} (a : A) : preserves I (mret a).
Proof. intros w H. exact H. Qed.

Lemma preserves_throw {A} e : preserves I (@throw A e).
Proof. intros w H. exact H. Qed.

Lemma preserves_get : preserves I get.
Proof. intros w H. exact H. Qed.

Lemma preserves_modify f : (∀ w, I w → I (f w)) → preserves I (modify f).
Proof. intros Hf w H. apply Hf, H. Qed.

Lemma preserves_bind {A B} (m : JS A) (k : A → JS B) :
  preserves I m → (∀ a, preserves I (k a)) → preserves I (m ≫= k).
Proof.
  intros Hm Hk w H. specialize (Hm w H). unfold exec in *.
  unfold mbind, JS_bind. destruct (m w) as [w1 [a|e]]; simpl in *.
  - apply (Hk a w1 Hm).
  - exact Hm.
Qed.

Lemma preserves_deref {A} what (r : option A) : preserves I (deref what r).
Proof. destruct r; [apply preserves_ret | apply preserves_throw]. Qed.

Lemma preserves_nonNull what r : preserves I (nonNull what r).
Proof. destruct r; [apply preserves_ret | apply preserves_throw]. Qed.

Lemma preserves_tryCatch body handler :
  preserves I body → (∀ e, preserves I (handler e)) → preserves I (tryCatch body handler).
Proof.
  intros Hb Hh w H. specialize (Hb w H). unfold exec, tryCatch in *.
  destruct (body w) as [w1 [a|e]]; simpl in *.
  - exact Hb.
  - apply (Hh e w1 Hb).
Qed.

(** A property established by the first part of a sequence and kept
    by the rest holds at the end. *)
Lemma exec_bind_keeps {A B} (m : JS A) (k : A → JS B) w :
  I (exec m w) → (∀ a, preserves I (k a)) → I (exec (m ≫= k) w).
Proof.
  intros Hm Hk. unfold exec in *. unfold mbind, JS_bind.
  destruct (m w) as [w1 [a|e]]; simpl in *.
  - apply (Hk a w1 Hm).
  - exact Hm.
Qed.

Lemma preserves_settle {A} (h : JS A) w : preserves I h → (∀ l w, I w → I (log l w)) → I w → I (settle h w).
Proof.
  intros Hh Hl H. specialize (Hh w H). unfold settle, exec in *.
  destruct (h w) as [w1 [a|e]]; simpl in *; auto.
Qed.
End Preservation.

(** Properties of the [state] object alone survive every operation on
    the document, the elements and the timer table. *)
Section StateOnly.
Context (P : State → Prop).
Let I : World → Prop := λ w, P (state w).

Lemma state_only_elements f : preserves I (modify (with_elements f)).
Proof. apply preserves_modify. intros w H. exact H. Qed.

Lemma state_only_document f : preserves I (modify (with_document f)).
Proof. apply preserves_modify. intros w H. exact H. Qed.

Lemma state_only_timers f : preserves I (modify (with_timers f)).
Proof. apply preserves_modify. intros w H. exact H. Qed.

Lemma state_only_log l : preserves I (modify (log l)).
Proof. apply preserves_modify. intros w H. exact H. Qed.

Lemma state_only_resizeTimer v : preserves I (modify (set_resizeTimer v)).
Proof. apply preserves_modify. intros w H. exact H. Qed.

Lemma state_only_schedule rep cb delay : preserves I (schedule rep cb delay).
Proof. intros w H. exact H. Qed.

Lemma state_only_clearTimer h : preserves I (clearTimer h).
Proof. intros w H. exact H. Qed.

Lemma state_only_addEventListener l : preserves I (addEventListener l).
Proof. intros w H. exact H. Qed.
End StateOnly.

Create HintDb keep discriminated.

#[export] Hint Resolve preserves_ret preserves_throw preserves_get
  preserves_deref preserves_nonNull
  state_only_elements state_only_document state_only_timers state_only_log
  state_only_resizeTimer state_only_schedule state_only_clearTimer
  state_only_addEventListener : keep.

(** Decompose a computation along its binds and branches. *)
Ltac keep_step :=
  lazymatch goal with
  | |- preserves _ (mbind _ _) => apply preserves_bind; [|intros ?]
  | |- preserves _ (tryCatch _ _) => apply preserves_tryCatch; [|intros ?]
  | |- preserves _ (if ?c then _ else _) => destruct c
  | |- preserves _ (match ?c with _ => _ end) => destruct c
  | |- preserves _ (modify (with_state _)) =>
      apply preserves_modify; intros ? ?; simpl; try done
  | |- preserves _ (setInterval _ _) => unfold setInterval
  | |- preserves _ (setTimeout _ _) => unfold setTimeout
  | |- preserves _ (clearInterval _) => unfold clearInterval
  | |- preserves _ (clearTimeout _) => unfold clearTimeout
  | |- preserves _ _ => solve [eauto with keep]
  end.
Ltac keep := repeat keep_step.

(** ** [state.currentIndex] *)

Lemma resetAutoPlay_currentIndex idx :
  preserves (λ w, currentIndex (state w) = idx) resetAutoPlay.
Proof. unfold resetAutoPlay, pauseAutoPlay, resumeAutoPlay. keep. Qed.

Lemma announce_currentIndex idx :
  preserves (λ w, currentIndex (state w) = idx) announceCurrentTestimonial.
Proof. unfold announceCurrentTestimonial. keep. Qed.

Lemma exec_modify_bind {B} f (k : unit → JS B) w :
  exec (modify f ≫= k) w = exec (k tt) (f w).
Proof. reflexivity. Qed.

Lemma exec_get_bind {B} (k : World → JS B) w :
  exec (get ≫= k) w = exec (k w) w.
Proof. reflexivity. Qed.

Lemma updateCarousel_currentIndex idx animate w :
  currentIndex (state (exec (updateCarousel idx animate) w)) = idx.
Proof.
  unfold updateCarousel. rewrite exec_modify_bind.
  apply (exec_bind_keeps (λ w, currentIndex (state w) = idx)); [reflexivity|].
  intros _. pose proof (announce_currentIndex idx). keep.
Qed.

Lemma navigateTo_transitioning index w :
  isTransitioning (state w) = true → navigateTo index w = (w, Normal tt).
Proof. intros H. unfold navigateTo. js_unfold. rewrite H. reflexivity. Qed.

Lemma navigateTo_same index w :
  wrapIndex (totalCards (state w)) index = currentIndex (state w) →
  navigateTo index w = (w, Normal tt).
Proof.
  intros H. unfold navigateTo. js_unfold. rewrite H.
  rewrite bool_decide_eq_true_2 by done. by destruct (isTransitioning _).
Qed.

Lemma navigateTo_currentIndex index w :
  isTransitioning (state w) = false →
  currentIndex (state (exec (navigateTo index) w))
  = wrapIndex (totalCards (state w)) index.
Proof.
  intros H. unfold navigateTo. rewrite exec_get_bind, H.
  case_bool_decide as Hsame; [by rewrite Hsame|].
  apply (exec_bind_keeps (λ w', currentIndex (state w') = wrapIndex _ index)).
  - apply updateCarousel_currentIndex.
  - intros _. apply resetAutoPlay_currentIndex.
Qed.

(** ** The card loop *)

Lemma arrayGet_seq n i :
  0 ≤ i < Z.of_nat n → arrayGet (seq 0 n) i = Some (Z.to_nat i).
Proof.
  intros H. unfold arrayGet. rewrite bool_decide_eq_true_2 by lia.
  rewrite lookup_seq_lt by lia. reflexivity.
Qed.

Lemma imap_pair_seq j n :
  imap (λ i h, (j + i, h)%nat) (seq j n) = (λ i, (i, i)) <$> seq j n.
Proof.
  revert j. induction n as [|n IH]; intros j; [reflexivity|].
  simpl. f_equal; [f_equal; lia|].
  rewrite <- IH. apply imap_ext. intros i x _. simpl. f_equal. lia.
Qed.

Lemma foldl_alter_seq (f : nat → Card → Card) (rest : list Card) : ∀ pre,
  foldl (λ nodes ih, alter (f ih.1) ih.2 nodes) (pre ++ rest)
        ((λ i, (i, i)) <$> seq (length pre) (length rest))
  = pre ++ imap (λ i, f (length pre + i)%nat) rest.
Proof.
  induction rest as [|x rest IH]; intros pre; [reflexivity|].
  simpl. rewrite alter_app_r_alt by lia. rewrite Nat.sub_diag. simpl.
  change (pre ++ f (length pre) x :: rest) with (pre ++ [f (length pre) x] ++ rest).
  rewrite app_assoc.
  replace (S (length pre)) with (length (pre ++ [f (length pre) x]))
    by (rewrite length_app; simpl; lia).
  rewrite IH. rewrite <- app_assoc. simpl. f_equal.
  rewrite Nat.add_0_r. f_equal.
  apply imap_ext. intros i y _. simpl. f_equal.
  rewrite length_app. simpl. lia.
Qed.

Lemma forEachCard_seq index nodes :
  forEachCard index (seq 0 (length nodes)) nodes
  = imap (λ i, markCard (bool_decide (Z.of_nat i = index))) nodes.
Proof.
  unfold forEachCard.
  change (imap pair (seq 0 (length nodes)))
    with (imap (λ i h, (0 + i, h)%nat) (seq 0 (length nodes))).
  rewrite imap_pair_seq.
  pose proof (foldl_alter_seq
                (λ i, markCard (bool_decide (Z.of_nat i = index))) nodes []) as H.
  simpl in H. exact H.
Qed.

Lemma markCard_twice b c : markCard b (markCard b c) = markCard b c.
Proof. by destruct b. Qed.

Lemma imap_markCard_twice (f : nat → bool) nodes :
  imap (λ i, markCard (f i)) (imap (λ i, markCard (f i)) nodes)
  = imap (λ i, markCard (f i)) nodes.
Proof.
  apply list_eq. intros i. rewrite !list_lookup_imap.
  destruct (nodes !! i); simpl; [|done]. by rewrite markCard_twice.
Qed.

(** ** Counting marked cards *)

Section Counting.
Context (P : Card → bool).
Hypothesis P_unmarked : ∀ c, P (markCard false c) = false.
Hypothesis P_marked : ∀ c, P (markCard true c) = true.

Lemma count_marked_none nodes : ∀ f : nat → bool,
  (∀ i, f i = false) →
  length (filter (λ c, P c = true) (imap (λ i, markCard (f i)) nodes)) = 0%nat.
Proof using P_unmarked.
  induction nodes as [|c nodes IH]; intros f Hf; [reflexivity|].
  simpl. rewrite filter_cons, Hf, P_unmarked.
  destruct (decide _) as [E|E]; [done|].
  apply (IH (f ∘ S)). intros i. apply Hf.
Qed.

Lemma count_marked_one nodes : ∀ k,
  (k < length nodes)%nat →
  length (filter (λ c, P c = true)
                 (imap (λ i, markCard (bool_decide (i = k))) nodes)) = 1%nat.
Proof using P_unmarked P_marked.
  induction nodes as [|c nodes IH]; intros k Hk; [simpl in Hk; lia|].
  simpl. rewrite filter_cons. destruct k as [|k].
  - rewrite bool_decide_eq_true_2 by done. rewrite P_marked.
    destruct (decide _) as [_|E]; [|done]. simpl. f_equal.
    apply (count_marked_none nodes (λ i, bool_decide (S i = 0%nat))).
    intros i. by rewrite bool_decide_eq_false_2.
  - rewrite bool_decide_eq_false_2 by done. rewrite P_unmarked.
    destruct (decide _) as [E|_]; [done|].
    rewrite <- (IH k) by (simpl in Hk; lia).
    f_equal. f_equal. apply imap_ext. intros i x _. simpl.
    f_equal. apply bool_decide_ext. lia.
Qed.

Lemma Marked_count w :
  Built w → Marked w →
  length (filter (λ c, P c = true) (docCards (document w))) = 1%nat.
Proof using P_unmarked P_marked.
  intros HB HM. rewrite HM.
  destruct HB as [Ht _ _ _ _ _ _ Hi _].
  rewrite <- (count_marked_one (docCards (document w))
               (Z.to_nat (currentIndex (state w)))) by lia.
  f_equal. f_equal. apply imap_ext. intros i x _. simpl.
  f_equal. apply bool_decide_ext. lia.
Qed.
End Counting.

(** ** What the invariants depend on *)

Lemma Built_ext w w' :
  totalCards (state w') = totalCards (state w) →
  currentIndex (state w') = currentIndex (state w) →
  isAutoPlaying (state w') = isAutoPlaying (state w) →
  cards (elements w') = cards (elements w) →
  (is_Some (indicators (elements w)) → is_Some (indicators (elements w'))) →
  (is_Some (prevButton (elements w)) → is_Some (prevButton (elements w'))) →
  (is_Some (nextButton (elements w)) → is_Some (nextButton (elements w'))) →
  (is_Some (liveRegion (elements w)) → is_Some (liveRegion (elements w'))) →
  length (docCards (document w')) = length (docCards (document w)) →
  Built w → Built w'.
Proof.
  intros Et Ec Ep Er Hd Hp Hn Hl El [].
  split; rewrite ?Et, ?Ec, ?Ep, ?Er, ?El; auto.
Qed.

Lemma Marked_ext w w' :
  docCards (document w') = docCards (document w) →
  currentIndex (state w') = currentIndex (state w) →
  Marked w → Marked w'.
Proof. unfold Marked. intros -> ->. done. Qed.

Lemma Tracked_ext w w' :
  active (timers w') = active (timers w) →
  nextTimerId (timers w') = nextTimerId (timers w) →
  autoPlayTimer (state w') = autoPlayTimer (state w) →
  resizeTimer w' = resizeTimer w →
  Tracked w → Tracked w'.
Proof.
  intros Ea En Ep Er []. split; unfold autoTimers in *; rewrite ?Ea, ?En, ?Ep, ?Er; auto.
Qed.

(** A change that touches none of the fields the invariants read. *)
Lemma Ready_ext w w' :
  totalCards (state w') = totalCards (state w) →
  currentIndex (state w') = currentIndex (state w) →
  isAutoPlaying (state w') = isAutoPlaying (state w) →
  autoPlayTimer (state w') = autoPlayTimer (state w) →
  elements w' = elements w →
  docCards (document w') = docCards (document w) →
  active (timers w') = active (timers w) →
  nextTimerId (timers w') = nextTimerId (timers w) →
  resizeTimer w' = resizeTimer w →
  Ready w → Ready w'.
Proof.
  intros Et Ec Ep Ea Ee Ed Eac En Er (HB & HM & HT). split; [|split].
  - apply (Built_ext w); rewrite ?Ee, ?Ed; auto.
  - apply (Marked_ext w); auto.
  - apply (Tracked_ext w); auto.
Qed.

(** ** The timer table *)

Lemma autoTimers_schedule rep cb delay w :
  autoTimers (exec (schedule rep cb delay) w)
  = autoTimers w
    ++ (if decide (cb = AutoAdvance)
        then [mkTimer (nextTimerId (timers w)) (now (timers w) + delay) delay rep cb]
        else []).
Proof.
  unfold autoTimers, exec, schedule. simpl. rewrite filter_app. reflexivity.
Qed.

Lemma filter_swap {A} (P Q : A → Prop) `{∀ x, Decision (P x), ∀ x, Decision (Q x)} (l : list A) :
  filter P (filter Q l) = filter Q (filter P l).
Proof.
  rewrite !list_filter_filter. apply list_filter_iff. intros x. tauto.
Qed.

Lemma autoTimers_clearTimer h w :
  autoTimers (exec (clearTimer h) w)
  = filter (λ x, Some (timerId x) ≠ h) (autoTimers w).
Proof. unfold autoTimers, exec, clearTimer, modify. simpl. apply filter_swap. Qed.

Lemma filter_keeps_others h (l : list Timer) :
  h ∉ Some <$> (timerId <$> l) → filter (λ x, Some (timerId x) ≠ h) l = l.
Proof.
  induction l as [|x l IH]; intros Hn; [reflexivity|].
  rewrite !fmap_cons, not_elem_of_cons in Hn. destruct Hn as [Hx Hl].
  rewrite filter_cons. destruct (decide _) as [_|E]; [by rewrite IH|].
  exfalso. apply E. congruence.
Qed.

Lemma Tracked_schedule_other rep cb delay w :
  cb ≠ AutoAdvance → Tracked w → Tracked (exec (schedule rep cb delay) w).
Proof.
  intros Hcb [Hids Hrep Ha Hr Hap].
  split; rewrite ?autoTimers_schedule; simpl.
  - destruct (decide _); [done|]. by rewrite app_nil_r.
  - destruct (decide _); [done|]. by rewrite app_nil_r.
  - intros a E. specialize (Ha a E). lia.
  - intros r E. specialize (Hr r E). lia.
  - exact Hap.
Qed.

Lemma Tracked_clear_other h w :
  h ≠ autoPlayTimer (state w) ∨ h = None →
  Tracked w → Tracked (exec (clearTimer h) w).
Proof.
  intros Hh [Hids Hrep Ha Hr Hap].
  assert (autoTimers (exec (clearTimer h) w) = autoTimers w) as E.
  { rewrite autoTimers_clearTimer. apply filter_keeps_others.
    rewrite Hids. destruct Hh as [Hh| ->].
    - destruct (autoPlayTimer (state w)); simpl.
      + intros ->%list_elem_of_singleton. done.
      + apply not_elem_of_nil.
    - intros (x & Hx & _)%list_elem_of_fmap. done. }
  split; rewrite ?E; auto.
Qed.

Lemma Tracked_pause w :
  Tracked w →
  Tracked (with_state (set_autoPlayTimer None)
                      (exec (clearTimer (autoPlayTimer (state w))) w))
  ∧ autoTimers (exec (clearTimer (autoPlayTimer (state w))) w) = [].
Proof.
  intros [Hids Hrep Ha Hr Hap].
  assert (autoTimers (exec (clearTimer (autoPlayTimer (state w))) w) = []) as E.
  { rewrite autoTimers_clearTimer.
    destruct (autoPlayTimer (state w)) as [a|], (autoTimers w) as [|t [|]];
      simplify_eq/=; try done.
    rewrite filter_cons, filter_nil. by destruct (decide _). }
  split; [|exact E].
  split; simpl; try done.
  change (autoTimers (with_state _ ?w')) with (autoTimers w'). by rewrite E.
  change (autoTimers (with_state _ ?w')) with (autoTimers w'). by rewrite E.
Qed.

Lemma Tracked_resume w :
  autoPlayTimer (state w) = None →
  Tracked w →
  Tracked (with_state (set_autoPlayTimer (Some (nextTimerId (timers w))))
                      (exec (setInterval AutoAdvance CONFIG.AUTO_PLAY_INTERVAL) w))
  ∧ autoTimers (exec (setInterval AutoAdvance CONFIG.AUTO_PLAY_INTERVAL) w)
    = [mkTimer (nextTimerId (timers w)) (now (timers w) + CONFIG.AUTO_PLAY_INTERVAL)
               CONFIG.AUTO_PLAY_INTERVAL true AutoAdvance].
Proof.
  intros Hnone [Hids Hrep Ha Hr Hap].
  assert (autoTimers w = []) as E0.
  { rewrite Hnone in Hids. by destruct (autoTimers w). }
  assert (autoTimers (exec (setInterval AutoAdvance CONFIG.AUTO_PLAY_INTERVAL) w)
          = [mkTimer (nextTimerId (timers w)) (now (timers w) + CONFIG.AUTO_PLAY_INTERVAL)
                     CONFIG.AUTO_PLAY_INTERVAL true AutoAdvance]) as E.
  { unfold setInterval. rewrite autoTimers_schedule, E0. reflexivity. }
  split; [|exact E].
  split; simpl.
  - change (autoTimers (with_state _ ?w')) with (autoTimers w'). by rewrite E.
  - change (autoTimers (with_state _ ?w')) with (autoTimers w'). rewrite E.
    by repeat constructor.
  - intros a [= <-]. lia.
  - intros r Er. specialize (Hr r Er). lia.
  - intros r Er [= <-]. specialize (Hr _ Er). lia.
Qed.

Lemma autoTimers_afterFiring id w :
  Forall (λ t, repeating t = true) (autoTimers w) →
  Forall (λ t, repeating t = true) (autoTimers (with_timers (afterFiring id) w))
  ∧ timerId <$> autoTimers (with_timers (afterFiring id) w) = timerId <$> autoTimers w.
Proof.
  unfold autoTimers. simpl. generalize (now (timers w)). intros clock.
  induction (active (timers w)) as [|x l IH]; intros H; [by split|].
  rewrite filter_cons in H. simpl.
  destruct (decide (callback x = AutoAdvance)) as [Ex|Ex].
  - apply Forall_cons in H as [Hx Hl]. destruct (IH Hl) as [IH1 IH2].
    rewrite Hx. case_bool_decide as Eid; simpl.
    + rewrite !filter_cons_True by done. simpl. split; [by constructor|].
      f_equal; [done | exact IH2].
    + rewrite !filter_cons_True by done. simpl. split; [by constructor|].
      f_equal. exact IH2.
  - destruct (IH H) as [IH1 IH2].
    rewrite (filter_cons_False _ x l) by done.
    case_bool_decide as Eid; [destruct (repeating x)|]; simpl;
      rewrite ?filter_cons_False by done; by split.
Qed.

Lemma Tracked_afterFiring id w : Tracked w → Tracked (with_timers (afterFiring id) w).
Proof.
  intros [Hids Hrep Ha Hr Hap].
  destruct (autoTimers_afterFiring id w Hrep) as [H1 H2].
  split; auto. by rewrite H2.
Qed.

(** ** Running a computation step by step *)

Lemma bind_modify {B} f (k : unit → JS B) w : (modify f ≫= k) w = k tt (f w).
Proof. reflexivity. Qed.

Lemma bind_get {B} (k : World → JS B) w : (get ≫= k) w = k w w.
Proof. reflexivity. Qed.

Lemma bind_ret {A B} (a : A) (k : A → JS B) w : (mret a ≫= k) w = k a w.
Proof. reflexivity. Qed.

Lemma bind_deref {A B} what (a : A) (k : A → JS B) w :
  (deref what (Some a) ≫= k) w = k a w.
Proof. reflexivity. Qed.

Lemma bind_nonNull {B} what (k : unit → JS B) w :
  (nonNull what true ≫= k) w = k tt w.
Proof. reflexivity. Qed.

Lemma bind_schedule {B} rep cb delay (k : TimerId → JS B) w :
  (schedule rep cb delay ≫= k) w
  = k (nextTimerId (timers w)) (exec (schedule rep cb delay) w).
Proof. reflexivity. Qed.

Lemma bind_normal {A B} (m : JS A) (k : A → JS B) w w1 a :
  m w = (w1, Normal a) → (m ≫= k) w = k a w1.
Proof. intros H. unfold mbind, JS_bind. by rewrite H. Qed.

Lemma exec_normal {A} (m : JS A) w w1 a : m w = (w1, Normal a) → exec m w = w1.
Proof. intros H. unfold exec. by rewrite H. Qed.

Lemma bind_assoc {A B C} (m : JS A) (k1 : A → JS B) (k2 : B → JS C) w :
  ((m ≫= k1) ≫= k2) w = (m ≫= (λ a, k1 a ≫= k2)) w.
Proof. unfold mbind, JS_bind. by destruct (m w) as [w1 [a|e]]. Qed.

Lemma settle_normal {A} (m : JS A) w w1 a : m w = (w1, Normal a) → settle m w = w1.
Proof. intros H. unfold settle. by rewrite H. Qed.

(** Reduce field reads of updated records, and nothing else. *)
Ltac fields :=
  cbn [state elements document timers resizeTimer console
       with_state with_elements with_document with_timers set_resizeTimer log
       currentIndex totalCards isAutoPlaying autoPlayTimer lastKeyPressTime
       touchStartX touchStartY touchStartTime isTransitioning
       set_currentIndex set_totalCards set_isAutoPlaying set_autoPlayTimer
       set_lastKeyPressTime set_touchStart set_isTransitioning
       container grid cards prevButton nextButton indicators liveRegion
       set_container set_grid set_cards set_prevButton set_nextButton
       set_indicators set_liveRegion
       hasTestimonials hasGrid hasInner docCards controlsAttached
       indicatorsAttached liveRegionAttached stylesInjected hidden listeners
       set_docCards set_controlsAttached set_indicatorsAttached
       set_liveRegionAttached set_stylesInjected set_hidden set_listeners
       now nextTimerId active
       pageTestimonials pageGrid pageInner pageCards pageHidden] in *.

(** Normalize a world built from an explicit record. *)
Ltac world_norm :=
  cbv beta iota zeta delta
      [state elements document timers resizeTimer console
       with_state with_elements with_document with_timers set_resizeTimer log
       currentIndex totalCards isAutoPlaying autoPlayTimer lastKeyPressTime
       touchStartX touchStartY touchStartTime isTransitioning
       set_currentIndex set_totalCards set_isAutoPlaying set_autoPlayTimer
       set_lastKeyPressTime set_touchStart set_isTransitioning
       container grid cards prevButton nextButton indicators liveRegion
       set_container set_grid set_cards set_prevButton set_nextButton
       set_indicators set_liveRegion
       hasTestimonials hasGrid hasInner docCards controlsAttached
       indicatorsAttached liveRegionAttached stylesInjected hidden listeners
       set_docCards set_controlsAttached set_indicatorsAttached
       set_liveRegionAttached set_stylesInjected set_hidden set_listeners
       now nextTimerId active].

(** ** [updateCarousel] on a built carousel *)

Lemma announce_ok w :
  cards (elements w) = seq 0 (length (docCards (document w))) →
  0 ≤ currentIndex (state w) < Z.of_nat (length (docCards (document w))) →
  is_Some (liveRegion (elements w)) →
  ∃ msg, announceCurrentTestimonial w
         = (with_elements (set_liveRegion (Some msg)) w, Normal tt).
Proof.
  intros Hrefs Hi [lr Hl]. unfold announceCurrentTestimonial.
  unfold mbind, JS_bind, get, deref, modify.
  rewrite Hrefs, arrayGet_seq by lia.
  destruct (lookup_lt_is_Some_2 (docCards (document w))
              (Z.to_nat (currentIndex (state w)))) as [c Hc]; [lia|].
  simpl. rewrite Hc. simpl. rewrite Hl. simpl. eexists. reflexivity.
Qed.

Lemma updateCarousel_ok idx animate w :
  cards (elements w) = seq 0 (length (docCards (document w))) →
  is_Some (indicators (elements w)) →
  is_Some (prevButton (elements w)) →
  is_Some (nextButton (elements w)) →
  is_Some (liveRegion (elements w)) →
  0 ≤ idx < Z.of_nat (length (docCards (document w))) →
  ∃ dots msg,
    updateCarousel idx animate w
    = (mkWorld (set_currentIndex idx (set_isTransitioning true (state w)))
               (set_liveRegion (Some msg)
                 (set_nextButton (Some false)
                   (set_prevButton (Some false)
                     (set_indicators (Some dots) (elements w)))))
               (set_docCards
                  (imap (λ i, markCard (bool_decide (Z.of_nat i = idx)))
                        (docCards (document w)))
                  (document w))
               (timers (exec (setTimeout EndTransition
                                (if animate then CONFIG.TRANSITION_DURATION else 0)) w))
               (resizeTimer w) (console w),
       Normal tt).
Proof.
  intros Hrefs [dots Hd] [pb Hp] [nb Hn] Hl Hidx.
  unfold updateCarousel. rewrite !bind_modify, bind_get, bind_modify. fields.
  rewrite Hd, bind_deref, bind_modify, Hp, bind_deref, bind_modify.
  rewrite Hn, bind_deref, bind_modify.
  rewrite Hrefs, forEachCard_seq.
  match goal with |- context [(announceCurrentTestimonial ≫= _) ?W] =>
    destruct (announce_ok W) as [msg Hmsg] end.
  - fields. rewrite length_imap. exact Hrefs.
  - fields. rewrite length_imap. lia.
  - exact Hl.
  - rewrite (bind_normal _ _ _ _ _ Hmsg).
    exists (imap (λ i, markIndicator (bool_decide (Z.of_nat i = idx))) dots), msg.
    reflexivity.
Qed.

Lemma wrapIndex_range total index :
  1 ≤ total → 0 ≤ wrapIndex total index < total.
Proof. intros H. unfold wrapIndex. repeat case_bool_decide; lia. Qed.

Lemma Ready_updateCarousel idx animate w :
  Ready w → 0 ≤ idx < totalCards (state w) →
  Ready (exec (updateCarousel idx animate) w).
Proof.
  intros (HB & HM & HT) Hidx.
  destruct HB as [Ht Hm Hrefs Hd Hp Hn Hl Hi Hpl].
  destruct (updateCarousel_ok idx animate w) as (dots & msg & E); auto; [lia|].
  rewrite (exec_normal _ _ _ _ E). clear E.
  split; [|split].
  - split; fields; rewrite ?length_imap; auto; by eexists.
  - unfold Marked. fields. by rewrite imap_markCard_twice.
  - apply (Tracked_ext (exec (setTimeout EndTransition
                                (if animate then CONFIG.TRANSITION_DURATION else 0)) w));
      try reflexivity.
    by apply Tracked_schedule_other.
Qed.

(** ** Auto-play on a tracked timer table *)

Lemma pauseAutoPlay_eq w :
  pauseAutoPlay w
  = (if isAutoPlaying (state w)
     then with_state (set_autoPlayTimer None)
                     (exec (clearTimer (autoPlayTimer (state w))) w)
     else w, Normal tt).
Proof. unfold pauseAutoPlay. rewrite bind_get. by destruct (isAutoPlaying _). Qed.

Lemma resumeAutoPlay_eq w :
  resumeAutoPlay w
  = (match autoPlayTimer (state w) with
     | Some _ => w
     | None => with_state (set_autoPlayTimer (Some (nextTimerId (timers w))))
                          (exec (setInterval AutoAdvance CONFIG.AUTO_PLAY_INTERVAL) w)
     end, Normal tt).
Proof. unfold resumeAutoPlay. rewrite bind_get. by destruct (autoPlayTimer _). Qed.

Lemma startAutoPlay_eq w :
  startAutoPlay w
  = (if isAutoPlaying (state w) then w
     else with_state (set_autoPlayTimer (Some (nextTimerId (timers w))))
            (exec (setInterval AutoAdvance CONFIG.AUTO_PLAY_INTERVAL)
                  (with_state (set_isAutoPlaying true) w)),
     Normal tt).
Proof. unfold startAutoPlay. rewrite bind_get. by destruct (isAutoPlaying _). Qed.

Lemma Ready_pauseAutoPlay : preserves Ready pauseAutoPlay.
Proof.
  intros w (HB & HM & HT). unfold exec. rewrite pauseAutoPlay_eq. simpl.
  rewrite (built_playing _ HB).
  split; [|split].
  - by apply (Built_ext w).
  - by apply (Marked_ext w).
  - by apply Tracked_pause.
Qed.

Lemma Ready_resumeAutoPlay : preserves Ready resumeAutoPlay.
Proof.
  intros w (HB & HM & HT). unfold exec. rewrite resumeAutoPlay_eq. simpl.
  destruct (autoPlayTimer (state w)) eqn:E; [done|].
  split; [|split].
  - by apply (Built_ext w).
  - by apply (Marked_ext w).
  - by apply Tracked_resume.
Qed.

Lemma Ready_resetAutoPlay : preserves Ready resetAutoPlay.
Proof.
  unfold resetAutoPlay. apply preserves_bind; [|intros _].
  - apply Ready_pauseAutoPlay.
  - apply Ready_resumeAutoPlay.
Qed.

Lemma preserves_get_bind {B} (I : World → Prop) (k : World → JS B) :
  (∀ w, I w → I (exec (k w) w)) → preserves I (get ≫= k).
Proof. intros H w Hw. apply H, Hw. Qed.

Lemma Ready_navigateTo index : preserves Ready (navigateTo index).
Proof.
  unfold navigateTo. apply preserves_get_bind. intros w HR.
  destruct (isTransitioning (state w)); [exact HR|].
  case_bool_decide; [exact HR|].
  apply exec_bind_keeps.
  - apply Ready_updateCarousel; [exact HR|].
    apply wrapIndex_range. destruct HR as [[] _]. lia.
  - intros _. apply Ready_resetAutoPlay.
Qed.

(** ** Every handler keeps the carousel ready *)

Lemma Ready_state_other f w :
  (∀ s, totalCards (f s) = totalCards s) →
  (∀ s, currentIndex (f s) = currentIndex s) →
  (∀ s, isAutoPlaying (f s) = isAutoPlaying s) →
  (∀ s, autoPlayTimer (f s) = autoPlayTimer s) →
  Ready w → Ready (with_state f w).
Proof. intros Ht Hc Hp Ha HR. apply (Ready_ext w); simpl; auto. Qed.

Lemma Ready_log l w : Ready w → Ready (log l w).
Proof. by apply (Ready_ext w). Qed.

#[export] Hint Resolve Ready_navigateTo Ready_pauseAutoPlay Ready_resumeAutoPlay : keep.

Lemma Ready_handlePrevClick : preserves Ready handlePrevClick.
Proof. unfold handlePrevClick. keep. Qed.

Lemma Ready_handleNextClick : preserves Ready handleNextClick.
Proof. unfold handleNextClick. keep. Qed.

Lemma Ready_handleIndicatorClick target : preserves Ready (handleIndicatorClick target).
Proof. unfold handleIndicatorClick. keep. Qed.

Lemma Ready_handleKeyDown key : preserves Ready (handleKeyDown key).
Proof. unfold handleKeyDown. keep; by apply Ready_state_other. Qed.

Lemma Ready_handleTouchStart touches : preserves Ready (handleTouchStart touches).
Proof. unfold handleTouchStart. keep; by apply Ready_state_other. Qed.

Lemma Ready_handleTouchMove touches : preserves Ready (handleTouchMove touches).
Proof. unfold handleTouchMove. keep. Qed.

Lemma Ready_handleTouchEnd changedTouches : preserves Ready (handleTouchEnd changedTouches).
Proof. unfold handleTouchEnd. keep; by apply Ready_state_other. Qed.

Lemma Ready_handleVisibilityChange : preserves Ready handleVisibilityChange.
Proof. unfold handleVisibilityChange. keep. Qed.

Lemma Ready_handleResize : preserves Ready handleResize.
Proof.
  intros w (HB & HM & HT). unfold exec, handleResize.
  rewrite bind_get. unfold clearTimeout.
  change ((clearTimer (resizeTimer w) ≫= _) w) with
    ((setTimeout ResizeSync 150 ≫= λ id, modify (set_resizeTimer (Some id)))
       (exec (clearTimer (resizeTimer w)) w)).
  unfold setTimeout. rewrite bind_schedule. simpl fst.
  set (w1 := exec (clearTimer (resizeTimer w)) w).
  assert (Tracked w1) as HT1.
  { apply Tracked_clear_other; [|exact HT].
    destruct (resizeTimer w) as [r|] eqn:Er; [left|by right].
    intros E. by apply (tracked_apart _ HT r Er). }
  pose proof (Tracked_schedule_other false ResizeSync 150 w1 ltac:(done) HT1) as HT2.
  split; [|split].
  - by apply (Built_ext w).
  - by apply (Marked_ext w).
  - destruct HT2 as [Hids Hrep Ha Hr Hap]. split; auto.
    + intros r [= <-]. simpl. lia.
    + intros r [= <-] E. specialize (tracked_auto _ HT1 _ E). simpl. lia.
Qed.

Lemma Ready_runCallback cb : preserves Ready (runCallback cb).
Proof.
  destruct cb; simpl.
  - keep.
  - keep. by apply Ready_state_other.
  - apply preserves_get_bind. intros w HR.
    apply Ready_updateCarousel; [exact HR|]. destruct HR as [[] _]. lia.
Qed.

Lemma Ready_settle {A} (h : JS A) w : preserves Ready h → Ready w → Ready (settle h w).
Proof. intros Hh. apply preserves_settle; [exact Hh|]. intros l w'. apply Ready_log. Qed.

Lemma Ready_dispatch {A} l (h : JS A) w :
  preserves Ready h → Ready w → Ready (dispatch l h w).
Proof. intros Hh HR. unfold dispatch. case_bool_decide; [by apply Ready_settle|done]. Qed.

Lemma Ready_fireTimer id w : Ready w → Ready (fireTimer id w).
Proof.
  intros HR. unfold fireTimer. destruct (List.find _ _) as [t|]; [|exact HR].
  apply Ready_settle; [apply Ready_runCallback|].
  destruct HR as (HB & HM & HT). split; [|split].
  - by apply (Built_ext w).
  - by apply (Marked_ext w).
  - by apply Tracked_afterFiring.
Qed.

Lemma Ready_step ev w : Ready w → Ready (step ev w).
Proof.
  intros HR. destruct ev; simpl;
    try (apply Ready_dispatch; [|exact HR]);
    auto using Ready_handlePrevClick, Ready_handleNextClick, Ready_handleIndicatorClick,
      Ready_handleKeyDown, Ready_handleTouchStart, Ready_handleTouchMove,
      Ready_handleTouchEnd, Ready_pauseAutoPlay, Ready_resumeAutoPlay,
      Ready_handleResize, Ready_fireTimer.
  - apply Ready_dispatch; [apply Ready_handleVisibilityChange|]. by apply (Ready_ext w).
  - by apply (Ready_ext w).
Qed.

Lemma Ready_run evs : ∀ w, Ready w → Ready (run evs w).
Proof.
  induction evs as [|ev evs IH]; intros w HR; [exact HR|].
  simpl. apply IH, Ready_step, HR.
Qed.

(** ** Initialization *)

Lemma appendToInner_ok w :
  container (elements w) = true → hasInner (document w) = true →
  appendToInner w = (w, Normal tt).
Proof.
  intros Hc Hi. unfold appendToInner.
  rewrite bind_get, Hc, bind_nonNull, Hi. reflexivity.
Qed.

Lemma createCarouselControls_ok w :
  container (elements w) = true → hasInner (document w) = true →
  stylesInjected (document w) = false →
  createCarouselControls w
  = (with_document (set_stylesInjected true)
      (with_document (set_controlsAttached true)
        (with_elements (set_nextButton (Some false))
          (with_elements (set_prevButton (Some false)) w))),
     Normal tt).
Proof.
  intros Hc Hi Hs. unfold createCarouselControls.
  rewrite !bind_modify.
  erewrite bind_normal by (by apply appendToInner_ok).
  rewrite bind_modify. unfold injectCarouselStyles. rewrite bind_get. fields.
  rewrite Hs. reflexivity.
Qed.

Lemma createIndicators_ok w :
  container (elements w) = true → hasInner (document w) = true →
  ∃ dots,
    createIndicators w
    = (with_document (set_indicatorsAttached true)
        (with_elements (set_indicators (Some dots)) w),
       Normal tt).
Proof.
  intros Hc Hi. unfold createIndicators. rewrite bind_get, bind_modify.
  erewrite bind_normal by (by apply appendToInner_ok).
  eexists. reflexivity.
Qed.

Lemma createLiveRegion_ok w :
  container (elements w) = true →
  createLiveRegion w
  = (with_document (set_liveRegionAttached true)
      (with_elements (set_liveRegion (Some EmptyString)) w),
     Normal tt).
Proof.
  intros Hc. unfold createLiveRegion. rewrite bind_modify, bind_get. fields.
  rewrite Hc, bind_nonNull. reflexivity.
Qed.

Lemma attachEventListeners_ok w :
  is_Some (prevButton (elements w)) → is_Some (nextButton (elements w)) →
  is_Some (indicators (elements w)) →
  container (elements w) = true → grid (elements w) = true →
  attachEventListeners w
  = (foldl (λ w l, exec (addEventListener l) w) w allListeners, Normal tt).
Proof.
  intros [pb Hp] [nb Hn] [dots Hd] Hc Hg.
  destruct w as [s e d t r c], e as [ec eg ecs ep en ei el]. simpl in *. subst.
  vm_compute. reflexivity.
Qed.

Lemma initBody_carousel p clock :
  carouselPage p →
  ∃ dots msg,
    initBody (load p clock)
    = (mkWorld (mkState 0 (Z.of_nat (length (pageCards p))) true (Some 2%positive)
                        0 0 0 0 true)
               (mkElements true true (seq 0 (length (pageCards p)))
                           (Some false) (Some false) (Some dots) (Some msg))
               (mkDocument true true true
                  (imap (λ i, markCard (bool_decide (Z.of_nat i = 0))) (pageCards p))
                  true true true true (pageHidden p) allListeners)
               (mkTimers clock 3%positive
                  [mkTimer 1%positive (clock + 0) 0 false EndTransition;
                   mkTimer 2%positive (clock + CONFIG.AUTO_PLAY_INTERVAL)
                           CONFIG.AUTO_PLAY_INTERVAL true AutoAdvance])
               None
               [LogInfo (Z.of_nat (length (pageCards p)))],
       Normal tt).
Proof.
  destruct p as [pt pg pi pc ph]. intros (Ht & Hg & Hi & Hc). simpl in *. subst.
  unfold initBody. rewrite bind_get, bind_modify.
  change (hasTestimonials (document (load _ clock))) with true.
  change (hasGrid (document (load _ clock))) with true.
  change (docCards (document (load _ clock))) with pc.
  cbn [negb]. rewrite !bind_modify.
  rewrite (bool_decide_eq_false_2 (Z.of_nat (length pc) ≤ 1)) by lia.
  erewrite bind_normal by (by apply createCarouselControls_ok).
  destruct (createIndicators_ok
    (with_document (set_stylesInjected true)
      (with_document (set_controlsAttached true)
        (with_elements (set_nextButton (Some false))
          (with_elements (set_prevButton (Some false))
            (with_state (set_totalCards (Z.of_nat (length pc)))
              (with_elements (set_cards (seq 0 (length pc)))
                (with_elements (set_grid true)
                   (with_elements (set_container true)
                      (load (mkPage true true true pc ph) clock)))))))))) as [dots0 E];
    [done|done|].
  rewrite (bind_normal _ _ _ _ _ E). clear E.
  erewrite bind_normal by (by apply createLiveRegion_ok).
  erewrite bind_normal by (by apply attachEventListeners_ok).
  match goal with |- context [(updateCarousel 0 false ≫= _) ?W] =>
    destruct (updateCarousel_ok 0 false W) as (dots & msg & E) end.
  1: vm_compute; reflexivity.
  1-4: vm_compute; eexists; reflexivity.
  1: change (0 ≤ 0 < Z.of_nat (length pc)); lia.
  rewrite (bind_normal _ _ _ _ _ E). clear E.
  rewrite (bind_normal _ _ _ _ _ (startAutoPlay_eq _)).
  exists dots, msg. vm_compute. reflexivity.
Qed.

Lemma boot_carousel p clock :
  carouselPage p →
  ∃ dots msg,
    boot p clock
    = mkWorld (mkState 0 (Z.of_nat (length (pageCards p))) true (Some 2%positive)
                       0 0 0 0 true)
              (mkElements true true (seq 0 (length (pageCards p)))
                          (Some false) (Some false) (Some dots) (Some msg))
              (mkDocument true true true
                 (imap (λ i, markCard (bool_decide (Z.of_nat i = 0))) (pageCards p))
                 true true true true (pageHidden p)
                 allListeners)
              (mkTimers clock 3%positive
                 [mkTimer 1%positive (clock + 0) 0 false EndTransition;
                  mkTimer 2%positive (clock + CONFIG.AUTO_PLAY_INTERVAL)
                          CONFIG.AUTO_PLAY_INTERVAL true AutoAdvance])
              None
              [LogInfo (Z.of_nat (length (pageCards p)))].
Proof.
  intros Hp. destruct (initBody_carousel p clock Hp) as (dots & msg & E).
  exists dots, msg. unfold boot, exec, init, tryCatch. by rewrite E.
Qed.

Lemma Ready_boot p clock : carouselPage p → Ready (boot p clock).
Proof.
  intros Hp. destruct (boot_carousel p clock Hp) as (dots & msg & ->).
  destruct Hp as (_ & _ & _ & Hc).
  split; [|split].
  - split; simpl; rewrite ?length_imap; auto; try lia; by eexists.
  - unfold Marked. simpl. by rewrite imap_markCard_twice.
  - split; simpl; try done.
    + by repeat constructor.
    + by intros a [= <-].
Qed.

Lemma Ready_reachable p clock evs :
  carouselPage p → Ready (run evs (boot p clock)).
Proof. intros Hp. apply Ready_run, Ready_boot, Hp. Qed.

(** ** [state.isAutoPlaying] never goes back to false *)

Lemma Playing_announce : preserves Playing announceCurrentTestimonial.
Proof. unfold announceCurrentTestimonial, Playing. keep. Qed.

Lemma Playing_updateCarousel idx animate : preserves Playing (updateCarousel idx animate).
Proof. pose proof Playing_announce. unfold updateCarousel, Playing in *. keep. Qed.

Lemma Playing_pauseAutoPlay : preserves Playing pauseAutoPlay.
Proof. unfold pauseAutoPlay, Playing. keep. Qed.

Lemma Playing_resumeAutoPlay : preserves Playing resumeAutoPlay.
Proof. unfold resumeAutoPlay, Playing. keep. Qed.

Lemma Playing_navigateTo index : preserves Playing (navigateTo index).
Proof.
  pose proof Playing_updateCarousel. pose proof Playing_pauseAutoPlay.
  pose proof Playing_resumeAutoPlay.
  unfold navigateTo, resetAutoPlay, Playing in *. keep.
Qed.

Lemma Playing_runCallback cb : preserves Playing (runCallback cb).
Proof.
  pose proof Playing_navigateTo. pose proof Playing_updateCarousel.
  destruct cb; unfold runCallback, Playing in *; keep.
Qed.

Lemma Playing_handler ev :
  match ev with
  | PrevClick => preserves Playing handlePrevClick
  | NextClick => preserves Playing handleNextClick
  | IndicatorClick target => preserves Playing (handleIndicatorClick target)
  | KeyDown key => preserves Playing (handleKeyDown key)
  | TouchStart touches => preserves Playing (handleTouchStart touches)
  | TouchMove touches => preserves Playing (handleTouchMove touches)
  | TouchEnd changedTouches => preserves Playing (handleTouchEnd changedTouches)
  | VisibilityChange _ => preserves Playing handleVisibilityChange
  | Resize => preserves Playing handleResize
  | _ => True
  end.
Proof.
  pose proof Playing_navigateTo. pose proof Playing_pauseAutoPlay.
  pose proof Playing_resumeAutoPlay.
  destruct ev; try exact Logic.I;
    unfold handlePrevClick, handleNextClick, handleIndicatorClick, handleKeyDown,
           handleTouchStart, handleTouchMove, handleTouchEnd, handleVisibilityChange,
           handleResize, Playing in *; keep.
Qed.

Lemma Playing_dispatch {A} l (h : JS A) w :
  preserves Playing h → Playing w → Playing (dispatch l h w).
Proof.
  intros Hh Hw. unfold dispatch. case_bool_decide; [|done].
  apply preserves_settle; auto.
Qed.

Lemma Playing_step ev w : Playing w → Playing (step ev w).
Proof.
  intros Hw. pose proof (Playing_handler ev) as Hev.
  destruct ev; simpl; try (by apply Playing_dispatch);
    try (apply Playing_dispatch; auto using Playing_pauseAutoPlay, Playing_resumeAutoPlay).
  - unfold fireTimer. destruct (List.find _ _); [|done].
    apply preserves_settle; auto. apply Playing_runCallback.
  - exact Hw.
Qed.

Lemma Playing_run evs : ∀ w, Playing w → Playing (run evs w).
Proof.
  induction evs as [|ev evs IH]; intros w Hw; [done|]. simpl. apply IH, Playing_step, Hw.
Qed.

Lemma Playing_startAutoPlay w : Playing (exec startAutoPlay w).
Proof.
  unfold exec. rewrite startAutoPlay_eq. unfold Playing. simpl.
  by destruct (isAutoPlaying (state w)) eqn:E.
Qed.

(** ** Manual navigation and the auto-play timer *)

Lemma navigateTo_moved index w :
  Ready w →
  currentIndex (state (exec (navigateTo index) w)) ≠ currentIndex (state w) →
  autoTimers (exec (navigateTo index) w)
  = [mkTimer (Pos.succ (nextTimerId (timers w)))
             (now (timers w) + CONFIG.AUTO_PLAY_INTERVAL)
             CONFIG.AUTO_PLAY_INTERVAL true AutoAdvance]
  ∧ autoPlayTimer (state (exec (navigateTo index) w))
    = Some (Pos.succ (nextTimerId (timers w)))
  ∧ now (timers (exec (navigateTo index) w)) = now (timers w).
Proof.
  intros HR. unfold exec at 1 2 3 4. unfold navigateTo. rewrite bind_get.
  destruct (isTransitioning (state w)); [done|].
  case_bool_decide as Hsame; [done|]. intros _.
  assert (0 ≤ wrapIndex (totalCards (state w)) index < totalCards (state w)) as Hrange.
  { apply wrapIndex_range. destruct HR as [[] _]. lia. }
  pose proof (Ready_updateCarousel _ true w HR Hrange) as HR1.
  destruct HR as (HB & HM & HT). destruct HB as [Ht Hm Hrefs Hd Hp Hn Hl Hi Hpl].
  destruct (updateCarousel_ok (wrapIndex (totalCards (state w)) index) true w)
    as (dots & msg & E); auto.
  { by rewrite <- Ht. }
  rewrite (exec_normal _ _ _ _ E) in HR1.
  rewrite (bind_normal _ _ _ _ _ E). clear E.
  match type of HR1 with Ready ?W => set (w1 := W) in * end.
  unfold resetAutoPlay. rewrite (bind_normal _ _ _ _ _ (pauseAutoPlay_eq w1)).
  replace (isAutoPlaying (state w1)) with true by (symmetry; exact Hpl).
  destruct HR1 as (HB1 & HM1 & HT1).
  destruct (Tracked_pause w1 HT1) as [HT2 _].
  match type of HT2 with Tracked ?W => set (w2 := W) in * end.
  rewrite resumeAutoPlay_eq.
  change (autoPlayTimer (state w2)) with (@None TimerId).
  destruct (Tracked_resume w2 eq_refl HT2) as [_ Hauto].
  cbn [fst]. split; [|split]; [|reflexivity|reflexivity].
  exact Hauto.
Qed.

(** ** Initialization on a page without a carousel *)

Lemma initBody_fallback p clock :
  fallbackPage p →
  ∃ refs total,
    initBody (load p clock)
    = (with_state (set_totalCards total)
         (with_elements (λ _, mkElements (pageTestimonials p)
                                         (pageTestimonials p && pageGrid p)
                                         refs None None None None)
            (load p clock)),
       Normal tt).
Proof.
  destruct p as [pt pg pi pc ph]. intros Hf. unfold fallbackPage in Hf. simpl in Hf.
  unfold initBody. rewrite bind_get, bind_modify.
  change (hasTestimonials (document (load _ clock))) with pt.
  change (hasGrid (document (load _ clock))) with pg.
  change (docCards (document (load _ clock))) with pc.
  destruct pt; [|by exists [], 0].
  cbn [negb]. rewrite bind_modify.
  destruct pg; [|by exists [], 0].
  cbn [negb]. rewrite !bind_modify.
  rewrite (bool_decide_eq_true_2 (Z.of_nat (length pc) ≤ 1)) by (destruct Hf as [?|[?|?]]; [done|done|lia]).
  by exists (seq 0 (length pc)), (Z.of_nat (length pc)).
Qed.

(** ** Touch gestures *)

Lemma handleTouchEnd_untracked changedTouches w :
  touchStartX (state w) = 0 → handleTouchEnd changedTouches w = (w, Normal tt).
Proof.
  intros H. unfold handleTouchEnd. rewrite bind_get, H.
  by rewrite bool_decide_eq_true_2.
Qed.

(** ** The listeners stay attached *)

Ltac listening_step :=
  lazymatch goal with
  | |- preserves _ (mbind _ _) => apply preserves_bind; [|intros ?]
  | |- preserves _ (if ?c then _ else _) => destruct c
  | |- preserves _ (match ?c with _ => _ end) => destruct c
  | |- preserves _ (mret _) => apply preserves_ret
  | |- preserves _ get => apply preserves_get
  | |- preserves _ (throw _) => apply preserves_throw
  | |- preserves _ (deref _ _) => apply preserves_deref
  | |- preserves _ (nonNull _ _) => apply preserves_nonNull
  | |- preserves _ (modify _) => apply preserves_modify; intros ? ?; assumption
  | |- preserves _ (setInterval _ _) => intros ? ?; assumption
  | |- preserves _ (setTimeout _ _) => intros ? ?; assumption
  | |- preserves _ (clearInterval _) => intros ? ?; assumption
  | |- preserves _ (clearTimeout _) => intros ? ?; assumption
  | |- preserves _ _ => assumption
  end.

Lemma Listening_announce : preserves Listening announceCurrentTestimonial.
Proof. unfold announceCurrentTestimonial, Listening. repeat listening_step. Qed.

Lemma Listening_updateCarousel idx animate : preserves Listening (updateCarousel idx animate).
Proof.
  pose proof Listening_announce.
  unfold updateCarousel, Listening in *. repeat listening_step.
Qed.

Lemma Listening_pauseAutoPlay : preserves Listening pauseAutoPlay.
Proof. unfold pauseAutoPlay, Listening. repeat listening_step. Qed.

Lemma Listening_resumeAutoPlay : preserves Listening resumeAutoPlay.
Proof. unfold resumeAutoPlay, Listening. repeat listening_step. Qed.

Lemma Listening_navigateTo index : preserves Listening (navigateTo index).
Proof.
  pose proof Listening_updateCarousel. pose proof Listening_pauseAutoPlay.
  pose proof Listening_resumeAutoPlay.
  unfold navigateTo, resetAutoPlay, Listening in *. repeat listening_step; auto.
Qed.

Lemma Listening_runCallback cb : preserves Listening (runCallback cb).
Proof.
  pose proof Listening_navigateTo. pose proof Listening_updateCarousel.
  destruct cb; unfold runCallback, Listening in *; repeat listening_step; auto.
Qed.

Lemma Listening_handler ev :
  match ev with
  | PrevClick => preserves Listening handlePrevClick
  | NextClick => preserves Listening handleNextClick
  | IndicatorClick target => preserves Listening (handleIndicatorClick target)
  | KeyDown key => preserves Listening (handleKeyDown key)
  | TouchStart touches => preserves Listening (handleTouchStart touches)
  | TouchMove touches => preserves Listening (handleTouchMove touches)
  | TouchEnd changedTouches => preserves Listening (handleTouchEnd changedTouches)
  | VisibilityChange _ => preserves Listening handleVisibilityChange
  | Resize => preserves Listening handleResize
  | _ => True
  end.
Proof.
  pose proof Listening_navigateTo. pose proof Listening_pauseAutoPlay.
  pose proof Listening_resumeAutoPlay.
  destruct ev; try exact Logic.I;
    unfold handlePrevClick, handleNextClick, handleIndicatorClick, handleKeyDown,
           handleTouchStart, handleTouchMove, handleTouchEnd, handleVisibilityChange,
           handleResize, Listening in *; repeat listening_step; auto.
Qed.

Lemma Listening_dispatch {A} l (h : JS A) w :
  preserves Listening h → Listening w → Listening (dispatch l h w).
Proof.
  intros Hh Hw. unfold dispatch. case_bool_decide; [|done].
  apply preserves_settle; auto.
Qed.

Lemma Listening_step ev w : Listening w → Listening (step ev w).
Proof.
  intros Hw. pose proof (Listening_handler ev) as Hev.
  destruct ev; simpl; try (by apply Listening_dispatch);
    try (apply Listening_dispatch; auto using Listening_pauseAutoPlay, Listening_resumeAutoPlay).
  - unfold fireTimer. destruct (List.find _ _); [|done].
    apply preserves_settle; auto. apply Listening_runCallback.
  - exact Hw.
Qed.

Lemma Listening_reachable p clock evs :
  carouselPage p → Listening (run evs (boot p clock)).
Proof.
  intros Hp. assert (Listening (boot p clock)) as H0.
  { destruct (boot_carousel p clock Hp) as (dots & msg & ->). reflexivity. }
  revert H0. generalize (boot p clock).
  induction evs as [|ev evs IH]; intros w Hw; [done|].
  simpl. apply IH, Listening_step, Hw.
Qed.

(** ** Swipes that do not start on pixel column 0 *)

Lemma swipeAccepted_test g :
  isHorizontalSwipe (endX g - startX g) (endY g - startY g)
  && bool_decide (Z.abs (endX g - startX g) > CONFIG.SWIPE_THRESHOLD)
  && bool_decide (Z.of_N (elapsed g) < 500) = true
  ↔ swipeAccepted g.
Proof.
  unfold swipeAccepted. rewrite !andb_true_iff, !bool_decide_eq_true. tauto.
Qed.

Lemma exec_ret_bind {A B} (a : A) (k : A → JS B) w :
  exec (mret a ≫= k) w = exec (k a) w.
Proof. reflexivity. Qed.

Lemma settle_state {A} (h : JS A) w : state (settle h w) = state (exec h w).
Proof. unfold settle, exec. by destruct (h w) as [w1 [a|e]]. Qed.

Lemma wrapIndex_moves total current :
  2 ≤ total → 0 ≤ current < total →
  wrapIndex total (current - 1) ≠ current ∧ wrapIndex total (current + 1) ≠ current.
Proof. intros HN Hc. unfold wrapIndex. repeat case_bool_decide; lia. Qed.

Lemma swipe_away_from_edge p clock evs g :
  carouselPage p →
  let w := run evs (boot p clock) in
  let w' := run (gestureEvents g) w in
  isTransitioning (state w) = false →
  startX g ≠ 0 →
  (swipeAccepted g →
     currentIndex (state w')
     = wrapIndex (totalCards (state w))
         (if bool_decide (endX g - startX g > 0)
          then currentIndex (state w) - 1 else currentIndex (state w) + 1)
     ∧ currentIndex (state w') ≠ currentIndex (state w))
  ∧ (¬ swipeAccepted g → currentIndex (state w') = currentIndex (state w)).
Proof.
  intros Hp w w' Hsettled Hx.
  pose proof (Listening_reachable p clock evs Hp) as HL. fold w in HL.
  destruct (Ready_reachable p clock evs Hp) as ([_ HN _ _ _ _ _ Hi _] & _ & _).
  fold w in HN, Hi.
  set (w2 := with_timers (advanceClock (elapsed g))
               (with_state (set_touchStart (startX g) (startY g) (now (timers w))) w)).
  assert (OnTouchStart ∈ listeners (document w)) as Hs.
  { rewrite HL. apply (bool_decide_unpack (OnTouchStart ∈ allListeners)).
    vm_compute. exact Logic.I. }
  assert (OnTouchEnd ∈ listeners (document w2)) as He.
  { change (listeners (document w2)) with (listeners (document w)).
    rewrite HL. apply (bool_decide_unpack (OnTouchEnd ∈ allListeners)).
    vm_compute. exact Logic.I. }
  assert (w' = settle (handleTouchEnd [(endX g, endY g)]) w2) as ->.
  { unfold w', gestureEvents, run. cbn [foldl].
    assert (step (TouchStart [(startX g, startY g)]) w
            = with_state (set_touchStart (startX g) (startY g) (now (timers w))) w) as ->.
    { cbn [step]. unfold dispatch. by rewrite bool_decide_eq_true_2. }
    change (step (TimePasses (elapsed g)) ?W) with (with_timers (advanceClock (elapsed g)) W).
    fold w2. cbn [step]. unfold dispatch. by rewrite bool_decide_eq_true_2. }
  rewrite settle_state. unfold handleTouchEnd. rewrite exec_get_bind.
  change (touchStartX (state w2)) with (startX g).
  change (touchStartY (state w2)) with (startY g).
  change (currentIndex (state w2)) with (currentIndex (state w)).
  change (now (timers w2) - touchStartTime (state w2))
    with (now (timers w) + Z.of_N (elapsed g) - now (timers w)).
  rewrite bool_decide_eq_false_2 by done.
  cbn [head]. unfold deref. rewrite exec_ret_bind. cbn [fst snd].
  replace (now (timers w) + Z.of_N (elapsed g) - now (timers w))
    with (Z.of_N (elapsed g)) by lia.
  pose proof (swipeAccepted_test g) as Htest.
  destruct (isHorizontalSwipe _ _ && _ && _) eqn:Hcond.
  - assert (currentIndex (state (exec
              ((if bool_decide (endX g - startX g > 0)
                then navigateTo (currentIndex (state w) - 1)
                else navigateTo (currentIndex (state w) + 1))
               ≫= λ _, modify (with_state (set_touchStart 0 0 0))) w2))
            = wrapIndex (totalCards (state w))
                (if bool_decide (endX g - startX g > 0)
                 then currentIndex (state w) - 1 else currentIndex (state w) + 1)) as E.
    { apply (exec_bind_keeps (λ w0, currentIndex (state w0) = _)).
      - destruct (bool_decide (endX g - startX g > 0));
          by rewrite navigateTo_currentIndex.
      - intros _. apply preserves_modify. by intros w0 H0. }
    split; [|intros Hno; exfalso; apply Hno, Htest; reflexivity].
    intros _. split; [exact E|]. rewrite E.
    destruct (wrapIndex_moves (totalCards (state w)) (currentIndex (state w)) HN Hi).
    by destruct (bool_decide (endX g - startX g > 0)).
  - split; [intros Hyes; apply Htest in Hyes; discriminate Hyes|]. reflexivity.
Qed.


(** ** Helper facts for the stated properties *)

Lemma moduloIndex_wrapIndex total index :
  2 ≤ total → -1 ≤ index ≤ total → moduloIndex total index = wrapIndex total index.
Proof.
  intros Ht Hi. unfold moduloIndex, wrapIndex.
  destruct (decide (index = -1)) as [->|Hm1].
  - rewrite bool_decide_eq_true_2 by lia.
    change (-1) with (- (1)). rewrite Z.rem_opp_l by lia.
    rewrite (Z.rem_small 1 total) by lia. rewrite Z.rem_small by lia. lia.
  - rewrite bool_decide_eq_false_2 by lia.
    destruct (decide (index = total)) as [->|Hn].
    + rewrite bool_decide_eq_true_2 by lia.
      rewrite Z.rem_same by lia. rewrite Z.add_0_l. apply Z.rem_same. lia.
    + rewrite bool_decide_eq_false_2 by lia.
      rewrite (Z.rem_small index total) by lia.
      rewrite Z.rem_mod_nonneg by lia.
      replace (index + total) with (index + 1 * total) by lia.
      rewrite Z_mod_plus_full. apply Z.mod_small. lia.
Qed.

Lemma filter_all {A} (P : A → Prop) `{∀ x, Decision (P x)} (l : list A) :
  (∀ x, P x) → filter P l = l.
Proof.
  intros HP. induction l as [|x l IH]; [done|].
  rewrite filter_cons_True by done. by rewrite IH.
Qed.

Lemma pauseAutoPlay_twice w :
  exec pauseAutoPlay (exec pauseAutoPlay w) = exec pauseAutoPlay w.
Proof.
  unfold exec. rewrite (pauseAutoPlay_eq w). cbn [fst].
  destruct (isAutoPlaying (state w)) eqn:E.
  - rewrite pauseAutoPlay_eq. cbn [fst].
    destruct w as [s e d [n i a] r c]. unfold exec, clearTimer, modify. simpl in *.
    rewrite E. world_norm. by rewrite (filter_all (λ x, Some (timerId x) ≠ None)).
  - rewrite pauseAutoPlay_eq. by rewrite E.
Qed.

Lemma resumeAutoPlay_twice w :
  exec resumeAutoPlay (exec resumeAutoPlay w) = exec resumeAutoPlay w.
Proof.
  unfold exec. rewrite (resumeAutoPlay_eq w). cbn [fst].
  destruct (autoPlayTimer (state w)) eqn:E.
  - rewrite resumeAutoPlay_eq. by rewrite E.
  - by rewrite resumeAutoPlay_eq.
Qed.

Lemma carriesActiveMarker_unmarked c : carriesActiveMarker (markCard false c) = false.
Proof. reflexivity. Qed.

Lemma carriesActiveMarker_marked c : carriesActiveMarker (markCard true c) = true.
Proof. reflexivity. Qed.

Lemma partlyActive_unmarked c : partlyActive (markCard false c) = false.
Proof. reflexivity. Qed.

Lemma partlyActive_marked c : partlyActive (markCard true c) = true.
Proof. reflexivity. Qed.

Lemma Marked_current w :
  Built w → Marked w →
  ∃ c, arrayGet (docCards (document w)) (currentIndex (state w)) = Some c
       ∧ carriesActiveMarker c = true.
Proof.
  intros [Ht _ _ _ _ _ _ Hi _] HM. unfold arrayGet.
  rewrite bool_decide_eq_true_2 by lia.
  destruct (lookup_lt_is_Some_2 (docCards (document w))
              (Z.to_nat (currentIndex (state w)))) as [c Hc]; [lia|].
  rewrite HM, list_lookup_imap, Hc. simpl.
  rewrite bool_decide_eq_true_2 by lia.
  eexists. split; [reflexivity|]. apply carriesActiveMarker_marked.
Qed.

(** Without listeners and timers no event reaches the module. *)
Lemma inert_step ev w :
  listeners (document w) = [] → active (timers w) = [] →
  state (step ev w) = state w ∧ elements (step ev w) = elements w
  ∧ docCards (document (step ev w)) = docCards (document w)
  ∧ listeners (document (step ev w)) = [] ∧ active (timers (step ev w)) = [].
Proof.
  intros Hl Ha.
  assert (∀ A l (h : JS A), dispatch l h w = w) as Hd.
  { intros A l h. unfold dispatch. rewrite Hl. by rewrite bool_decide_eq_false_2
      by apply not_elem_of_nil. }
  destruct ev; cbn [step]; rewrite ?Hd; try done.
  - unfold dispatch. cbn [document with_document listeners set_hidden]. rewrite Hl.
    by rewrite bool_decide_eq_false_2 by apply not_elem_of_nil.
  - unfold fireTimer. by rewrite Ha.
Qed.

Lemma inert_run evs : ∀ w,
  listeners (document w) = [] → active (timers w) = [] →
  state (run evs w) = state w ∧ elements (run evs w) = elements w
  ∧ docCards (document (run evs w)) = docCards (document w)
  ∧ listeners (document (run evs w)) = [] ∧ active (timers (run evs w)) = [].
Proof.
  induction evs as [|ev evs IH]; intros w Hl Ha; [done|].
  destruct (inert_step ev w Hl Ha) as (Es & Ee & Ed & Hl' & Ha').
  cbn [run foldl]. destruct (IH (step ev w) Hl' Ha') as (Es2 & Ee2 & Ed2 & Hl2 & Ha2).
  fold (run evs (step ev w)). rewrite Es2, Ee2, Ed2, Es, Ee, Ed. by repeat split.
Qed.

(** * The stated properties *)

(** C1 (as stated, refuted): with three cards, card 2 shown and no
    transition in progress, [navigateTo 5] leaves [currentIndex] at 0, which
    is neither [((5 % 3) + 3) % 3 = 2] nor the 1 of the scenario. *)
Lemma C1_navigate_modulo_counterexample :
  totalCards (state settledAtLast) = 3
  ∧ currentIndex (state settledAtLast) = 2
  ∧ isTransitioning (state settledAtLast) = false
  ∧ currentIndex (state (exec (navigateTo 5) settledAtLast)) = 0
  ∧ currentIndex (state (exec (navigateTo 5) settledAtLast)) ≠ moduloIndex 3 5
  ∧ currentIndex (state (exec (navigateTo 5) settledAtLast)) ≠ 1.
Proof. vm_compute. repeat split; discriminate. Qed.

(** C1 (amended): for N >= 2 cards and a target i with -1 <= i <= N,
    [navigateTo i] outside a transition leaves
    [currentIndex = ((i % N) + N) % N]; and with N = 3, [navigateTo 5]
    outside a transition leaves [currentIndex = 0]. *)
Theorem C1_navigate_modulo_in_caller_range (w : World) (i : Z) :
  2 ≤ totalCards (state w) →
  isTransitioning (state w) = false →
  (-1 ≤ i ≤ totalCards (state w) →
   currentIndex (state (exec (navigateTo i) w)) = moduloIndex (totalCards (state w)) i)
  ∧ (totalCards (state w) = 3 →
     currentIndex (state (exec (navigateTo 5) w)) = 0).
Proof.
  intros HN Hsettled. split.
  - intros Hi. rewrite navigateTo_currentIndex by done.
    symmetry. by apply moduloIndex_wrapIndex.
  - intros H3. rewrite navigateTo_currentIndex by done. by rewrite H3.
Qed.

Lemma C1_navigate_modulo_in_caller_range_witness :
  2 ≤ totalCards (state settledAtLast)
  ∧ isTransitioning (state settledAtLast) = false
  ∧ currentIndex (state (exec (navigateTo 3) settledAtLast)) = moduloIndex 3 3
  ∧ currentIndex (state (exec (navigateTo 5) settledAtLast)) = 0.
Proof.
  assert (2 ≤ totalCards (state settledAtLast)) as HN by (vm_compute; discriminate).
  assert (isTransitioning (state settledAtLast) = false) as Hs by (vm_compute; reflexivity).
  destruct (C1_navigate_modulo_in_caller_range settledAtLast 3 HN Hs) as [Hmod H5].
  split; [exact HN|]. split; [exact Hs|]. split.
  - apply Hmod. vm_compute. split; discriminate.
  - apply H5. vm_compute. reflexivity.
Defined.

(** C2: for N >= 2 cards and any integer i, [navigateTo i] outside a
    transition wraps in a single step: i < 0 goes to N-1, i >= N goes to 0,
    i in [0, N) stays; when the wrapped index is the current one the call
    changes nothing. *)
Theorem C2_navigate_wraps_once (w : World) (i : Z) :
  2 ≤ totalCards (state w) →
  isTransitioning (state w) = false →
  (i < 0 → currentIndex (state (exec (navigateTo i) w)) = totalCards (state w) - 1)
  ∧ (i >= totalCards (state w) → currentIndex (state (exec (navigateTo i) w)) = 0)
  ∧ (0 ≤ i < totalCards (state w) → currentIndex (state (exec (navigateTo i) w)) = i)
  ∧ (wrapIndex (totalCards (state w)) i = currentIndex (state w) →
     navigateTo i w = (w, Normal tt)).
Proof.
  intros HN Hsettled. rewrite navigateTo_currentIndex by done. unfold wrapIndex at 1 2 3.
  repeat split.
  - intros Hi. by rewrite bool_decide_eq_true_2.
  - intros Hi. rewrite bool_decide_eq_false_2 by lia. by rewrite bool_decide_eq_true_2.
  - intros Hi. rewrite bool_decide_eq_false_2 by lia. by rewrite bool_decide_eq_false_2 by lia.
  - apply navigateTo_same.
Qed.

Lemma C2_navigate_wraps_once_witness :
  2 ≤ totalCards (state settledAtFirst)
  ∧ isTransitioning (state settledAtFirst) = false
  ∧ currentIndex (state (exec (navigateTo (-7)) settledAtFirst)) = 3 - 1.
Proof.
  assert (2 ≤ totalCards (state settledAtFirst)) as HN by (vm_compute; discriminate).
  assert (isTransitioning (state settledAtFirst) = false) as Hs by (vm_compute; reflexivity).
  split; [exact HN|]. split; [exact Hs|].
  destruct (C2_navigate_wraps_once settledAtFirst (-7) HN Hs) as [Hneg _].
  apply Hneg. lia.
Defined.

(** C3: while a transition is in progress, [navigateTo i] returns at
    once: the whole world (state object, elements, document, timer table)
    is unchanged, for every integer i. *)
Theorem C3_navigate_during_transition (w : World) (i : Z) :
  isTransitioning (state w) = true →
  navigateTo i w = (w, Normal tt).
Proof. apply navigateTo_transitioning. Qed.

Lemma C3_navigate_during_transition_witness :
  isTransitioning (state (boot threeCards 0)) = true
  ∧ navigateTo 1 (boot threeCards 0) = (boot threeCards 0, Normal tt).
Proof.
  assert (isTransitioning (state (boot threeCards 0)) = true) as H
    by (vm_compute; reflexivity).
  split; [exact H|]. apply (C3_navigate_during_transition _ 1 H).
Defined.

(** C4 (as stated, refuted): two cards or more are not enough. On a
    page with the section, the grid and two cards but without the
    [.testimonials__container] wrapper, [init] returns normally after
    catching the TypeError of [createCarouselControls]; then and after any
    sequence of events [totalCards] is 2, no transition is in progress and
    [currentIndex] is 0, yet no card carries the active marker. *)
Lemma C4_one_active_card_counterexample :
  (2 ≤ length (pageCards twoCardsNoWrapper))%nat
  ∧ outcome init (load twoCardsNoWrapper 0) = Normal tt
  ∧ ∀ evs : list Event,
      totalCards (state (run evs (boot twoCardsNoWrapper 0))) = 2
      ∧ isTransitioning (state (run evs (boot twoCardsNoWrapper 0))) = false
      ∧ currentIndex (state (run evs (boot twoCardsNoWrapper 0))) = 0
      ∧ length (activeCards (run evs (boot twoCardsNoWrapper 0))) = 0%nat
      ∧ length (activeCards (run evs (boot twoCardsNoWrapper 0))) ≠ 1%nat.
Proof.
  split; [vm_compute; lia|]. split; [vm_compute; reflexivity|]. intros evs.
  assert (listeners (document (boot twoCardsNoWrapper 0)) = []) as Hl
    by (vm_compute; reflexivity).
  assert (active (timers (boot twoCardsNoWrapper 0)) = []) as Ha
    by (vm_compute; reflexivity).
  destruct (inert_run evs (boot twoCardsNoWrapper 0) Hl Ha) as (Es & _ & Ed & _).
  unfold activeCards. rewrite Es, Ed. vm_compute. repeat split; discriminate.
Qed.

(** C4 (amended): in every world reached from a page on which [init]
    builds the carousel (the section, the grid, the
    [.testimonials__container] wrapper and N >= 2 cards are present), by
    any sequence of events, [currentIndex] lies in [0, N), exactly one card
    carries the active marker, no other card carries any part of it, and
    that card is the one at [currentIndex]. *)
Theorem C4_one_active_card (p : Page) (clock : Z) (evs : list Event) :
  carouselPage p →
  let w := run evs (boot p clock) in
  totalCards (state w) = Z.of_nat (length (docCards (document w)))
  ∧ 2 ≤ totalCards (state w)
  ∧ 0 ≤ currentIndex (state w) < totalCards (state w)
  ∧ length (activeCards w) = 1%nat
  ∧ length (filter (λ c, partlyActive c = true) (docCards (document w))) = 1%nat
  ∧ ∃ c, arrayGet (docCards (document w)) (currentIndex (state w)) = Some c
         ∧ carriesActiveMarker c = true.
Proof.
  intros Hp w. destruct (Ready_reachable p clock evs Hp) as (HB & HM & _).
  fold w in HB, HM.
  split; [apply HB|]. split; [apply HB|]. split; [apply HB|].
  split; [|split].
  - apply (Marked_count carriesActiveMarker);
      auto using carriesActiveMarker_unmarked, carriesActiveMarker_marked.
  - apply (Marked_count partlyActive);
      auto using partlyActive_unmarked, partlyActive_marked.
  - by apply Marked_current.
Qed.

Lemma C4_one_active_card_witness :
  carouselPage threeCards
  ∧ length (activeCards (run [TimerFires 1; NextClick; KeyDown "End"] (boot threeCards 0)))
    = 1%nat.
Proof.
  assert (carouselPage threeCards) as Hp by (vm_compute; repeat split; lia).
  split; [exact Hp|].
  apply (C4_one_active_card threeCards 0 [TimerFires 1; NextClick; KeyDown "End"] Hp).
Defined.

(** C5: on a running carousel, pausing twice is the same as pausing once
    and leaves no auto-advance timer and no handle; resuming twice is the
    same as resuming once and leaves exactly one auto-advance timer. *)
Theorem C5_pause_resume_idempotent (p : Page) (clock : Z) (evs : list Event) :
  carouselPage p →
  let w := run evs (boot p clock) in
  exec pauseAutoPlay (exec pauseAutoPlay w) = exec pauseAutoPlay w
  ∧ autoPlayTimer (state (exec pauseAutoPlay (exec pauseAutoPlay w))) = None
  ∧ autoTimers (exec pauseAutoPlay (exec pauseAutoPlay w)) = []
  ∧ exec resumeAutoPlay (exec resumeAutoPlay w) = exec resumeAutoPlay w
  ∧ length (autoTimers (exec resumeAutoPlay (exec resumeAutoPlay w))) = 1%nat
  ∧ timerId <$> autoTimers (exec resumeAutoPlay (exec resumeAutoPlay w))
    = option_list (autoPlayTimer (state (exec resumeAutoPlay (exec resumeAutoPlay w)))).
Proof.
  intros Hp w. pose proof (Ready_reachable p clock evs Hp) as HR. fold w in HR.
  rewrite pauseAutoPlay_twice, resumeAutoPlay_twice.
  split; [reflexivity|]. destruct HR as (HB & HM & HT).
  unfold exec. rewrite pauseAutoPlay_eq, resumeAutoPlay_eq. cbn [fst].
  rewrite (built_playing _ HB).
  destruct (Tracked_pause w HT) as [_ Hnone].
  split; [reflexivity|]. split; [exact Hnone|]. split; [reflexivity|].
  destruct (autoPlayTimer (state w)) as [a|] eqn:Ea.
  - pose proof (tracked_ids _ HT) as Hids. rewrite Ea in Hids.
    split; [|by rewrite ?Ea].
    apply (f_equal length) in Hids. by rewrite length_fmap in Hids.
  - destruct (Tracked_resume w Ea HT) as [_ Hone].
    change (autoTimers (with_state ?f ?w')) with (autoTimers w').
    rewrite Hone. split; reflexivity.
Qed.

Lemma C5_pause_resume_idempotent_witness :
  carouselPage threeCards
  ∧ autoTimers (exec pauseAutoPlay (exec pauseAutoPlay (run [MouseEnter] (boot threeCards 0))))
    = [].
Proof.
  assert (carouselPage threeCards) as Hp by (vm_compute; repeat split; lia).
  split; [exact Hp|].
  apply (C5_pause_resume_idempotent threeCards 0 [MouseEnter] Hp).
Defined.

(** C6: on a running carousel, a [navigateTo] that changes
    [currentIndex] leaves exactly one auto-advance timer, a fresh one held
    by [state.autoPlayTimer] and due a full auto-play interval after the
    call; it is not due at any earlier time. *)
Theorem C6_navigation_restarts_interval
    (p : Page) (clock : Z) (evs : list Event) (i : Z) :
  carouselPage p →
  let w := run evs (boot p clock) in
  let w' := exec (navigateTo i) w in
  currentIndex (state w') ≠ currentIndex (state w) →
  autoTimers w'
  = [mkTimer (Pos.succ (nextTimerId (timers w)))
             (now (timers w) + CONFIG.AUTO_PLAY_INTERVAL)
             CONFIG.AUTO_PLAY_INTERVAL true AutoAdvance]
  ∧ autoPlayTimer (state w') = Some (Pos.succ (nextTimerId (timers w)))
  ∧ autoPlayTimer (state w) ≠ Some (Pos.succ (nextTimerId (timers w)))
  ∧ ∀ dt : N,
      Z.of_N dt < CONFIG.AUTO_PLAY_INTERVAL →
      Forall (λ t, isDue (timerId t) (now (timers (step (TimePasses dt) w'))) t = false)
             (autoTimers (step (TimePasses dt) w')).
Proof.
  intros Hp w w' Hmoved.
  pose proof (Ready_reachable p clock evs Hp) as HR. fold w in HR.
  destruct (navigateTo_moved i w HR Hmoved) as (Hauto & Hheld & Hnow).
  fold w' in Hauto, Hheld, Hnow.
  split; [exact Hauto|]. split; [exact Hheld|]. split.
  - intros E. destruct HR as (_ & _ & HT).
    pose proof (tracked_auto _ HT _ E). lia.
  - intros dt Hdt.
    change (autoTimers (step (TimePasses dt) w')) with (autoTimers w').
    rewrite Hauto. constructor; [|constructor].
    unfold isDue. cbn [timerId due]. rewrite bool_decide_eq_true_2 by done.
    simpl. rewrite Hnow. apply bool_decide_eq_false_2. lia.
Qed.

Lemma C6_navigation_restarts_interval_witness :
  carouselPage threeCards
  ∧ currentIndex (state (exec (navigateTo 1) (run [TimePasses 1200; TimerFires 1] (boot threeCards 0))))
    ≠ currentIndex (state (run [TimePasses 1200; TimerFires 1] (boot threeCards 0)))
  ∧ autoTimers (exec (navigateTo 1) (run [TimePasses 1200; TimerFires 1] (boot threeCards 0)))
    = [mkTimer 4%positive (1200 + 5000) 5000 true AutoAdvance].
Proof.
  assert (carouselPage threeCards) as Hp by (vm_compute; repeat split; lia).
  assert (currentIndex (state (exec (navigateTo 1)
            (run [TimePasses 1200; TimerFires 1] (boot threeCards 0))))
          ≠ currentIndex (state (run [TimePasses 1200; TimerFires 1] (boot threeCards 0))))
    as Hmoved by (vm_compute; discriminate).
  split; [exact Hp|]. split; [exact Hmoved|].
  destruct (C6_navigation_restarts_interval threeCards 0 [TimePasses 1200; TimerFires 1] 1
              Hp Hmoved) as [Hauto _].
  rewrite Hauto. vm_compute. reflexivity.
Defined.

(** C7: on a page without the testimonials section, or without the
    grid, or with fewer than two cards, [init] completes without throwing
    and without logging an error, and leaves the document, the timer table
    and the set of listeners as they were; it creates no node. *)
Theorem C7_init_degrades_silently (p : Page) (clock : Z) :
  fallbackPage p →
  outcome init (load p clock) = Normal tt
  ∧ document (exec init (load p clock)) = document (load p clock)
  ∧ timers (exec init (load p clock)) = timers (load p clock)
  ∧ console (exec init (load p clock)) = []
  ∧ nothingCreated (exec init (load p clock)).
Proof.
  intros Hf. destruct (initBody_fallback p clock Hf) as (refs & total & E).
  unfold outcome, exec, init, tryCatch. rewrite E.
  repeat split.
Qed.

Lemma C7_init_degrades_silently_witness :
  fallbackPage (mkPage true true true [sampleCard "Ann"] false)
  ∧ document (exec init (load (mkPage true true true [sampleCard "Ann"] false) 0))
    = document (load (mkPage true true true [sampleCard "Ann"] false) 0).
Proof.
  assert (fallbackPage (mkPage true true true [sampleCard "Ann"] false)) as Hf
    by (right; right; vm_compute; lia).
  split; [exact Hf|].
  apply (C7_init_degrades_silently _ 0 Hf).
Defined.

(** C8 (the code at the failing input): on the settled three-card
    carousel, an 80 px level swipe made in 200 ms that starts on pixel
    column 0 meets the three acceptance conditions and changes nothing,
    while the same swipe one pixel to the right navigates by one (to the
    previous card), an 80 px swipe to the left navigates to the next card
    and a 30 px swipe does not navigate. *)
Theorem C8_edge_swipe_is_dropped :
  isTransitioning (state settledAtFirst) = false
  ∧ currentIndex (state settledAtFirst) = 0
  ∧ swipeAccepted edgeSwipe
  ∧ currentIndex (state (run (gestureEvents edgeSwipe) settledAtFirst)) = 0
  ∧ swipeAccepted nearEdgeSwipe
  ∧ currentIndex (state (run (gestureEvents nearEdgeSwipe) settledAtFirst)) = 2
  ∧ swipeAccepted leftSwipe
  ∧ currentIndex (state (run (gestureEvents leftSwipe) settledAtFirst)) = 1
  ∧ ¬ swipeAccepted shortSwipe
  ∧ currentIndex (state (run (gestureEvents shortSwipe) settledAtFirst)) = 0.
Proof.
  unfold swipeAccepted. vm_compute.
  repeat split; try discriminate.
  intros (_ & H & _). discriminate H.
Qed.

(** C9: once [startAutoPlay] has run, [isAutoPlaying] is true in every
    later world, whatever events follow; there [startAutoPlay] changes
    nothing, and [pauseAutoPlay] drops the handle while the flag stays true;
    on a running carousel no auto-advance timer is left after
    [pauseAutoPlay], with the flag still true. *)
Theorem C9_isAutoPlaying_never_cleared :
  (∀ (w0 : World) (evs : list Event),
     let w := run evs (exec startAutoPlay w0) in
     isAutoPlaying (state w) = true
     ∧ startAutoPlay w = (w, Normal tt)
     ∧ isAutoPlaying (state (exec pauseAutoPlay w)) = true
     ∧ autoPlayTimer (state (exec pauseAutoPlay w)) = None)
  ∧ (∀ (p : Page) (clock : Z) (evs : list Event),
       carouselPage p →
       let w := exec pauseAutoPlay (run evs (boot p clock)) in
       isAutoPlaying (state w) = true ∧ autoTimers w = []).
Proof.
  split.
  - intros w0 evs w.
    assert (Playing w) as Hw by apply Playing_run, Playing_startAutoPlay.
    unfold Playing in Hw. split; [exact Hw|]. split; [|split].
    + rewrite startAutoPlay_eq. by rewrite Hw.
    + by apply Playing_pauseAutoPlay.
    + unfold exec. rewrite pauseAutoPlay_eq. by rewrite Hw.
  - intros p clock evs Hp w.
    destruct (Ready_reachable p clock evs Hp) as (HB & _ & HT).
    split.
    + apply Playing_pauseAutoPlay. apply HB.
    + unfold w, exec. rewrite pauseAutoPlay_eq. rewrite (built_playing _ HB).
      apply (Tracked_pause _ HT).
Qed.

Lemma C9_isAutoPlaying_never_cleared_witness :
  carouselPage threeCards
  ∧ isAutoPlaying (state (exec pauseAutoPlay (run [FocusIn; FocusOut] (boot threeCards 0))))
    = true
  ∧ autoTimers (exec pauseAutoPlay (run [FocusIn; FocusOut] (boot threeCards 0))) = [].
Proof.
  assert (carouselPage threeCards) as Hp by (vm_compute; repeat split; lia).
  split; [exact Hp|].
  destruct C9_isAutoPlaying_never_cleared as [_ Hpaused].
  apply (Hpaused threeCards 0 [FocusIn; FocusOut] Hp).
Defined.

(** C10: a single-touch gesture that starts at clientX = 0 never
    navigates: whatever the displacement, the duration and the angle,
    touch-end returns at its first test and changes nothing, so
    [currentIndex] after the gesture is what it was before. *)
Theorem C10_zero_start_never_navigates (w : World) (g : Gesture) :
  startX g = 0 →
  OnTouchStart ∈ listeners (document w) →
  let started := run [TouchStart [(startX g, startY g)]; TimePasses (elapsed g)] w in
  touchStartX (state started) = 0
  ∧ handleTouchEnd [(endX g, endY g)] started = (started, Normal tt)
  ∧ run (gestureEvents g) w = started
  ∧ currentIndex (state (run (gestureEvents g) w)) = currentIndex (state w).
Proof.
  intros Hx Hl started.
  assert (touchStartX (state started) = 0) as HX.
  { unfold started. simpl. unfold dispatch. by rewrite bool_decide_eq_true_2. }
  assert (currentIndex (state started) = currentIndex (state w)) as HI.
  { unfold started. simpl. unfold dispatch. by rewrite bool_decide_eq_true_2. }
  pose proof (handleTouchEnd_untracked [(endX g, endY g)] started HX) as HE.
  assert (run (gestureEvents g) w = started) as HR.
  { change (run (gestureEvents g) w) with (step (TouchEnd [(endX g, endY g)]) started).
    simpl. unfold dispatch. case_bool_decide; [|done].
    by rewrite (settle_normal _ _ _ _ HE). }
  split; [exact HX|]. split; [exact HE|]. split; [exact HR|].
  by rewrite HR.
Qed.

Lemma C10_zero_start_never_navigates_witness :
  startX edgeSwipe = 0
  ∧ OnTouchStart ∈ listeners (document settledAtFirst)
  ∧ currentIndex (state (run (gestureEvents edgeSwipe) settledAtFirst))
    = currentIndex (state settledAtFirst).
Proof.
  assert (OnTouchStart ∈ listeners (document settledAtFirst)) as Hl.
  { apply (bool_decide_unpack (OnTouchStart ∈ listeners (document settledAtFirst))).
    vm_compute. exact Logic.I. }
  split; [reflexivity|]. split; [exact Hl|].
  apply (C10_zero_start_never_navigates settledAtFirst edgeSwipe eq_refl Hl).
Defined.

(** * Further properties of the carousel *)

(** ** Handles in the timer table *)

Lemma same_handle (l : list Timer) x y :
  NoDup (timerId <$> l) → x ∈ l → y ∈ l → timerId x = timerId y → x = y.
Proof.
  induction l as [|z l IH]; intros Hnd Hx Hy E; [by apply elem_of_nil in Hx|].
  rewrite fmap_cons in Hnd. apply NoDup_cons in Hnd as [Hz Hnd].
  apply elem_of_cons in Hx as [->|Hx]; apply elem_of_cons in Hy as [->|Hy].
  - done.
  - exfalso. apply Hz. rewrite E. by apply list_elem_of_fmap_2.
  - exfalso. apply Hz. rewrite <- E. by apply list_elem_of_fmap_2.
  - by apply IH.
Qed.

Lemma NoDup_handles_filter (P : Timer → Prop) `{∀ x, Decision (P x)} (l : list Timer) :
  NoDup (timerId <$> l) → NoDup (timerId <$> filter P l).
Proof.
  induction l as [|z l IH]; intros Hnd; [done|].
  rewrite fmap_cons in Hnd. apply NoDup_cons in Hnd as [Hz Hnd].
  rewrite filter_cons. destruct (decide (P z)); [|by apply IH].
  rewrite fmap_cons. apply NoDup_cons. split; [|by apply IH].
  intros (x & Ex & Hx)%list_elem_of_fmap. apply list_elem_of_filter in Hx as [_ Hx].
  apply Hz. rewrite Ex. by apply list_elem_of_fmap_2.
Qed.

Lemma elem_of_afterFiring id t x :
  x ∈ active (afterFiring id t) →
  ∃ y, y ∈ active t ∧ timerId x = timerId y ∧ callback x = callback y
       ∧ (repeating y = true → repeating x = true)
       ∧ (timerId y ≠ id → x = y)
       ∧ (timerId y = id → repeating y = true).
Proof.
  unfold afterFiring. cbn [active]. intros (y & Hy & E)%list_elem_of_omap.
  exists y. split; [exact Hy|].
  case_bool_decide as Eid.
  - destruct (repeating y) eqn:Er; [|done]. simplify_eq. by repeat split.
  - simplify_eq. by repeat split.
Qed.

Lemma elem_of_afterFiring_other id t y :
  y ∈ active t → timerId y ≠ id → y ∈ active (afterFiring id t).
Proof.
  intros Hy Hne. unfold afterFiring. cbn [active]. apply list_elem_of_omap.
  exists y. split; [exact Hy|]. by rewrite bool_decide_eq_false_2.
Qed.

Lemma NoDup_handles_afterFiring id t :
  NoDup (timerId <$> active t) → NoDup (timerId <$> active (afterFiring id t)).
Proof.
  unfold afterFiring. cbn [active]. generalize (now t). intros clock.
  induction (active t) as [|z l IH]; intros Hnd; [done|].
  rewrite fmap_cons in Hnd. apply NoDup_cons in Hnd as [Hz Hnd].
  specialize (IH Hnd).
  assert (∀ x, x ∈ omap (λ x, if bool_decide (timerId x = id)
                then if repeating x
                     then Some (mkTimer id (clock + period x) (period x) true (callback x))
                     else None
                else Some x) l → timerId x ∈ timerId <$> l) as Hsub.
  { intros x (y & Hy & E)%list_elem_of_omap.
    case_bool_decide as Eid; [destruct (repeating y); [|done]|]; simplify_eq; simpl;
      rewrite <- ?Eid; by apply list_elem_of_fmap_2. }
  cbn [omap list_omap].
  case_bool_decide as Eid; [destruct (repeating z)|]; try exact IH.
  - rewrite fmap_cons. apply NoDup_cons. split; [|exact IH]. cbn [timerId].
    intros (x & Ex & Hx)%list_elem_of_fmap. apply Hz. rewrite Eid, Ex. by apply Hsub.
  - rewrite fmap_cons. apply NoDup_cons. split; [|exact IH].
    intros (x & Ex & Hx)%list_elem_of_fmap. apply Hz. rewrite Ex. by apply Hsub.
Qed.

Lemma find_due id clock (l : list Timer) t :
  List.find (isDue id clock) l = Some t → t ∈ l ∧ timerId t = id ∧ due t ≤ clock.
Proof.
  intros H. apply List.find_some in H as [Hin Hdue].
  split; [by apply list_elem_of_In|].
  unfold isDue in Hdue. apply andb_true_iff in Hdue as [H1 H2].
  by apply bool_decide_eq_true in H1, H2.
Qed.

Lemma find_due_unique id clock (l : list Timer) t :
  NoDup (timerId <$> l) → t ∈ l → timerId t = id → due t ≤ clock →
  List.find (isDue id clock) l = Some t.
Proof.
  intros Hnd Hin Hid Hdue.
  destruct (List.find (isDue id clock) l) as [t'|] eqn:E.
  - apply find_due in E as (Hin' & Hid' & _). f_equal.
    apply (same_handle l); auto. congruence.
  - exfalso. apply list_elem_of_In in Hin.
    pose proof (List.find_none _ _ E t Hin) as Hn. unfold isDue in Hn.
    rewrite !bool_decide_eq_true_2 in Hn by done. discriminate Hn.
Qed.

(** ** What [updateCarousel] writes *)

Lemma displayName_markCard b c : displayName (markCard b c) = displayName c.
Proof. by destruct b. Qed.

Lemma arrayGet_Some {A} (l : list A) i x :
  arrayGet l i = Some x → 0 ≤ i < Z.of_nat (length l) ∧ l !! Z.to_nat i = Some x.
Proof.
  unfold arrayGet. case_bool_decide as Hpos; [|done]. intros Hx.
  split; [|exact Hx]. apply lookup_lt_Some in Hx. lia.
Qed.

Lemma announce_result w c :
  cards (elements w) = seq 0 (length (docCards (document w))) →
  arrayGet (docCards (document w)) (currentIndex (state w)) = Some c →
  is_Some (liveRegion (elements w)) →
  announceCurrentTestimonial w
  = (with_elements (set_liveRegion
       (Some (announcement (currentIndex (state w)) (totalCards (state w))
                           (displayName c)))) w,
     Normal tt).
Proof.
  intros Hrefs Hc [lr Hl]. apply arrayGet_Some in Hc as [Hi Hc].
  unfold announceCurrentTestimonial.
  unfold mbind, JS_bind, get, deref, modify.
  rewrite Hrefs, arrayGet_seq by lia.
  simpl. rewrite Hc. simpl. rewrite Hl. reflexivity.
Qed.

Lemma shownDots_of_marked idx total (dots : list Indicator) :
  dataIndex <$> dots = seqZ 0 total →
  imap (λ i, markIndicator (bool_decide (Z.of_nat i = idx))) dots
  = shownDot idx <$> seqZ 0 total.
Proof.
  intros Hd. apply list_eq. intros i.
  rewrite list_lookup_imap, list_lookup_fmap.
  pose proof (f_equal (λ l, l !! i) Hd) as Hi. simpl in Hi.
  rewrite list_lookup_fmap in Hi.
  destruct (dots !! i) as [d|] eqn:Ed; simpl in *; rewrite <- Hi; [|done].
  simpl. symmetry in Hi. apply lookup_seqZ in Hi as [Hk _].
  unfold markIndicator, shownDot. rewrite Hk, Z.add_0_l.
  by destruct (bool_decide (Z.of_nat i = idx)).
Qed.

Lemma dataIndex_shownDots current total :
  dataIndex <$> (shownDot current <$> seqZ 0 total) = seqZ 0 total.
Proof. rewrite <- list_fmap_compose. apply list_fmap_id. Qed.

Lemma updateCarousel_result idx animate w dots c :
  cards (elements w) = seq 0 (length (docCards (document w))) →
  indicators (elements w) = Some dots →
  dataIndex <$> dots = seqZ 0 (totalCards (state w)) →
  is_Some (prevButton (elements w)) →
  is_Some (nextButton (elements w)) →
  is_Some (liveRegion (elements w)) →
  arrayGet (docCards (document w)) idx = Some c →
  updateCarousel idx animate w
  = (mkWorld (set_currentIndex idx (set_isTransitioning true (state w)))
             (set_liveRegion
                (Some (announcement idx (totalCards (state w)) (displayName c)))
                (set_nextButton (Some false)
                  (set_prevButton (Some false)
                    (set_indicators
                       (Some (shownDot idx <$> seqZ 0 (totalCards (state w))))
                       (elements w)))))
             (set_docCards
                (imap (λ i, markCard (bool_decide (Z.of_nat i = idx)))
                      (docCards (document w)))
                (document w))
             (timers (exec (setTimeout EndTransition
                              (if animate then CONFIG.TRANSITION_DURATION else 0)) w))
             (resizeTimer w) (console w),
     Normal tt).
Proof.
  intros Hrefs Hd Hshape [pb Hp] [nb Hn] Hl Hc.
  pose proof (arrayGet_Some _ _ _ Hc) as [Hidx Hc'].
  unfold updateCarousel. rewrite !bind_modify, bind_get, bind_modify. fields.
  rewrite Hd, bind_deref, bind_modify, Hp, bind_deref, bind_modify.
  rewrite Hn, bind_deref, bind_modify.
  rewrite Hrefs, forEachCard_seq.
  rewrite (shownDots_of_marked idx _ dots Hshape).
  match goal with |- context [(announceCurrentTestimonial ≫= _) ?W] =>
    pose proof (announce_result W
      (markCard (bool_decide (Z.of_nat (Z.to_nat idx) = idx)) c)) as Hmsg end.
  assert (Hmsg' := Hmsg). clear Hmsg. fields.
  rewrite length_imap in Hmsg'. specialize (Hmsg' Hrefs).
  unfold arrayGet in Hmsg' at 1. rewrite bool_decide_eq_true_2 in Hmsg' by lia.
  rewrite list_lookup_imap, Hc' in Hmsg'. specialize (Hmsg' eq_refl Hl).
  rewrite (bind_normal _ _ _ _ _ Hmsg').
  rewrite displayName_markCard. reflexivity.
Qed.

Lemma Synced_updateCarousel idx animate w dots :
  Built w →
  indicators (elements w) = Some dots →
  dataIndex <$> dots = seqZ 0 (totalCards (state w)) →
  0 ≤ idx < totalCards (state w) →
  Synced (exec (updateCarousel idx animate) w).
Proof.
  intros [Ht Hm Hrefs Hd Hp Hn Hl Hi Hpl] Hdots Hshape Hidx.
  destruct (lookup_lt_is_Some_2 (docCards (document w)) (Z.to_nat idx)) as [c Hc]; [lia|].
  assert (arrayGet (docCards (document w)) idx = Some c) as Hget.
  { unfold arrayGet. by rewrite bool_decide_eq_true_2 by lia. }
  rewrite (exec_normal _ _ _ _
             (updateCarousel_result idx animate w dots c Hrefs Hdots Hshape Hp Hn Hl Hget)).
  split; fields; try reflexivity.
  exists (markCard (bool_decide (Z.of_nat (Z.to_nat idx) = idx)) c). split.
  - unfold arrayGet. rewrite bool_decide_eq_true_2 by lia.
    by rewrite list_lookup_imap, Hc.
  - by rewrite displayName_markCard.
Qed.

Lemma Synced_ext w w' :
  currentIndex (state w') = currentIndex (state w) →
  totalCards (state w') = totalCards (state w) →
  elements w' = elements w →
  docCards (document w') = docCards (document w) →
  Synced w → Synced w'.
Proof.
  intros Ec Et Ee Ed [Hdots Hlive Hp Hn].
  split; rewrite ?Ec, ?Et, ?Ee, ?Ed; auto.
Qed.

(** ** The timer table stays well kept *)

Lemma NoDup_handles_fresh (l : list Timer) id d p r cb :
  NoDup (timerId <$> l) → (∀ t, t ∈ l → (timerId t < id)%positive) →
  NoDup (timerId <$> (l ++ [mkTimer id d p r cb])).
Proof.
  intros Hnd Hfresh. rewrite fmap_app. apply NoDup_app.
  split; [exact Hnd|]. split; [|by apply NoDup_singleton].
  intros x (t & -> & Ht)%list_elem_of_fmap Hx.
  apply list_elem_of_singleton in Hx. cbn in Hx.
  specialize (Hfresh t Ht). lia.
Qed.

Lemma Scheduled_ext w w' :
  timers w' = timers w →
  autoPlayTimer (state w') = autoPlayTimer (state w) →
  resizeTimer w' = resizeTimer w →
  (isTransitioning (state w') = true → isTransitioning (state w) = true) →
  Scheduled w → Scheduled w'.
Proof.
  intros Et Ea Er Ei [H1 H2 H3 H4 H5 H6 H7].
  split; rewrite ?Et, ?Ea, ?Er; auto.
Qed.

(** A one-shot timeout that is neither the auto-advance nor the resync
    callback joins the table; used with [EndTransition], it covers the
    transition that [updateCarousel] starts. *)
Lemma Scheduled_setTimeout_end delay w w' :
  0 ≤ delay ≤ CONFIG.TRANSITION_DURATION →
  timers w' = timers (exec (setTimeout EndTransition delay) w) →
  autoPlayTimer (state w') = autoPlayTimer (state w) →
  resizeTimer w' = resizeTimer w →
  Tracked w → Scheduled w → Scheduled w'.
Proof.
  intros Hdelay Et Ea Er HT [H1 H2 H3 H4 H5 H6 H7].
  split; rewrite ?Et, ?Ea, ?Er; cbn [exec setTimeout schedule fst timers with_timers
                                      active nextTimerId now].
  - by apply NoDup_handles_fresh.
  - intros t [Ht| ->%list_elem_of_singleton]%elem_of_app; [specialize (H2 t Ht)|cbn]; lia.
  - intros t [Ht| ->%list_elem_of_singleton]%elem_of_app E; [by apply H3|].
    cbn in E. pose proof (tracked_auto _ HT _ E). lia.
  - intros t [Ht| ->%list_elem_of_singleton]%elem_of_app E; [by apply H4|].
    cbn in E. pose proof (tracked_resize _ HT _ E). lia.
  - intros t [Ht| ->%list_elem_of_singleton]%elem_of_app E; [by apply H5|done].
  - intros t [Ht| ->%list_elem_of_singleton]%elem_of_app E; [by apply H6|done].
  - intros _. eexists. split; [apply elem_of_app; right; by apply list_elem_of_singleton|].
    split; [reflexivity|]. cbn. lia.
Qed.

Lemma Scheduled_pause w :
  Scheduled w →
  Scheduled (with_state (set_autoPlayTimer None)
                        (exec (clearTimer (autoPlayTimer (state w))) w)).
Proof.
  intros [H1 H2 H3 H4 H5 H6 H7].
  split; cbn [exec clearTimer modify fst timers with_timers with_state state
              active nextTimerId now resizeTimer autoPlayTimer set_autoPlayTimer
              isTransitioning].
  - by apply NoDup_handles_filter.
  - intros t [_ Ht]%list_elem_of_filter. by apply H2.
  - done.
  - intros t [_ Ht]%list_elem_of_filter. by apply H4.
  - intros t [_ Ht]%list_elem_of_filter. by apply H5.
  - intros t [_ Ht]%list_elem_of_filter. by apply H6.
  - intros Htr. destruct (H7 Htr) as (t & Ht & Hcb & Hdue).
    exists t. split; [|by split]. apply list_elem_of_filter. split; [|exact Ht].
    intros E. symmetry in E. specialize (H3 t Ht E). congruence.
Qed.

Lemma Scheduled_resume w :
  Tracked w → Scheduled w →
  Scheduled (with_state (set_autoPlayTimer (Some (nextTimerId (timers w))))
                        (exec (setInterval AutoAdvance CONFIG.AUTO_PLAY_INTERVAL) w)).
Proof.
  intros HT [H1 H2 H3 H4 H5 H6 H7].
  split; cbn [exec setInterval schedule fst timers with_timers with_state state
              active nextTimerId now resizeTimer autoPlayTimer set_autoPlayTimer
              isTransitioning].
  - by apply NoDup_handles_fresh.
  - intros t [Ht| ->%list_elem_of_singleton]%elem_of_app; [specialize (H2 t Ht)|cbn]; lia.
  - intros t [Ht| ->%list_elem_of_singleton]%elem_of_app E; [|done].
    specialize (H2 t Ht). injection E as E. lia.
  - intros t [Ht| ->%list_elem_of_singleton]%elem_of_app E; [by apply H4|].
    cbn in E. pose proof (tracked_resize _ HT _ E). lia.
  - intros t [Ht| ->%list_elem_of_singleton]%elem_of_app E; [by apply H5|done].
  - intros t [Ht| ->%list_elem_of_singleton]%elem_of_app E; [by apply H6|done].
  - intros Htr. destruct (H7 Htr) as (t & Ht & Hcb & Hdue).
    exists t. split; [|by split]. apply elem_of_app. by left.
Qed.

Lemma handleResize_eq w :
  handleResize w
  = (set_resizeTimer (Some (nextTimerId (timers w)))
       (exec (setTimeout ResizeSync 150) (exec (clearTimeout (resizeTimer w)) w)),
     Normal tt).
Proof. reflexivity. Qed.

Lemma Scheduled_handleResize w :
  Tracked w → Scheduled w → Scheduled (exec handleResize w).
Proof.
  intros HT [H1 H2 H3 H4 H5 H6 H7]. unfold exec at 1. rewrite handleResize_eq.
  split; cbn [exec setTimeout clearTimeout clearTimer modify schedule fst timers
              with_timers set_resizeTimer state active nextTimerId now resizeTimer].
  - apply NoDup_handles_fresh; [by apply NoDup_handles_filter|].
    intros t [_ Ht]%list_elem_of_filter. by apply H2.
  - intros t [[_ Ht]%list_elem_of_filter| ->%list_elem_of_singleton]%elem_of_app;
      [specialize (H2 t Ht)|cbn]; lia.
  - intros t [[_ Ht]%list_elem_of_filter| ->%list_elem_of_singleton]%elem_of_app E;
      [by apply H3|].
    cbn in E. pose proof (tracked_auto _ HT _ E). lia.
  - intros t [[_ Ht]%list_elem_of_filter| ->%list_elem_of_singleton]%elem_of_app E;
      [|done].
    specialize (H2 t Ht). injection E as E. lia.
  - intros t [[Hne Ht]%list_elem_of_filter| ->%list_elem_of_singleton]%elem_of_app E;
      [|done].
    exfalso. apply Hne. symmetry. by apply H5.
  - intros t [[_ Ht]%list_elem_of_filter| ->%list_elem_of_singleton]%elem_of_app E;
      [by apply H6|done].
  - intros Htr. destruct (H7 Htr) as (t & Ht & Hcb & Hdue).
    exists t. split; [|by split]. apply elem_of_app. left.
    apply list_elem_of_filter. split; [|exact Ht].
    intros E. symmetry in E. specialize (H4 t Ht E). congruence.
Qed.

Lemma Scheduled_advanceClock dt w :
  Scheduled w → Scheduled (with_timers (advanceClock dt) w).
Proof.
  intros [H1 H2 H3 H4 H5 H6 H7]. split; auto.
  intros Htr. destruct (H7 Htr) as (t & Ht & Hcb & Hdue).
  exists t. split; [exact Ht|]. split; [exact Hcb|]. cbn. lia.
Qed.

(** After a timer fired: the table without it (or with the interval
    moved on) is well kept, except that the transition it may have covered
    is for its callback to end. *)
Lemma Scheduled_afterFiring id t0 w :
  Scheduled w → t0 ∈ active (timers w) → timerId t0 = id →
  Scheduled (with_state (if decide (callback t0 = EndTransition)
                         then set_isTransitioning false else λ s, s)
                        (with_timers (afterFiring id) w)).
Proof.
  intros [H1 H2 H3 H4 H5 H6 H7] Hin Hid.
  split; cbn [timers with_timers with_state state resizeTimer].
  - by apply NoDup_handles_afterFiring.
  - intros x (y & Hy & Ei & _)%elem_of_afterFiring.
    rewrite Ei. change (nextTimerId (afterFiring id (timers w)))
                  with (nextTimerId (timers w)). by apply H2.
  - intros x (y & Hy & Ei & Ec & _)%elem_of_afterFiring E.
    rewrite Ec. apply H3; [exact Hy|]. rewrite <- Ei.
    by destruct (decide (callback t0 = EndTransition)).
  - intros x (y & Hy & Ei & Ec & _)%elem_of_afterFiring E.
    rewrite Ec. apply H4; [exact Hy|]. by rewrite <- Ei.
  - intros x (y & Hy & Ei & Ec & _)%elem_of_afterFiring E.
    rewrite Ei. apply H5; [exact Hy|]. by rewrite <- Ec.
  - intros x (y & Hy & Ei & Ec & _ & Hsame & Hrep)%elem_of_afterFiring E.
    destruct (decide (timerId y = id)) as [Ey|Ey].
    + exfalso. specialize (Hrep Ey). rewrite Ec in E. specialize (H6 y Hy E). congruence.
    + rewrite (Hsame Ey). apply H6; [exact Hy|]. by rewrite <- Ec.
  - destruct (decide (callback t0 = EndTransition)) as [Et|Et]; [done|].
    intros Htr. destruct (H7 Htr) as (t & Ht & Hcb & Hdue).
    exists t. split; [|by split].
    apply elem_of_afterFiring_other; [exact Ht|].
    intros E. apply Et. rewrite <- Hcb. f_equal.
    apply (same_handle (active (timers w))); auto. congruence.
Qed.

(** ** Every operation keeps the carousel steady *)

Lemma Steady_updateCarousel idx animate w :
  Steady w → 0 ≤ idx < totalCards (state w) →
  Steady (exec (updateCarousel idx animate) w).
Proof.
  intros (HR & HS & HC & HL) Hidx.
  split; [by apply Ready_updateCarousel|]. split; [|split].
  - destruct HR as (HB & _ & _).
    apply (Synced_updateCarousel idx animate w _ HB (synced_dots _ HS)); [|exact Hidx].
    apply dataIndex_shownDots.
  - destruct HR as (HB & _ & HT).
    destruct (updateCarousel_ok idx animate w) as (dots & msg & E);
      try apply HB; [rewrite <- (built_total _ HB); exact Hidx|].
    rewrite (exec_normal _ _ _ _ E). clear E.
    apply (Scheduled_setTimeout_end
             (if animate then CONFIG.TRANSITION_DURATION else 0) w); auto.
    destruct animate; unfold CONFIG.TRANSITION_DURATION; lia.
  - by apply Listening_updateCarousel.
Qed.

Lemma Steady_pauseAutoPlay : preserves Steady pauseAutoPlay.
Proof.
  intros w (HR & HS & HC & HL).
  split; [by apply Ready_pauseAutoPlay|]. split; [|split].
  - unfold exec. rewrite pauseAutoPlay_eq. cbn [fst].
    destruct (isAutoPlaying (state w)); [|exact HS]. by apply (Synced_ext w).
  - unfold exec. rewrite pauseAutoPlay_eq. cbn [fst].
    destruct (isAutoPlaying (state w)); [|exact HC]. by apply Scheduled_pause.
  - by apply Listening_pauseAutoPlay.
Qed.

Lemma Steady_resumeAutoPlay : preserves Steady resumeAutoPlay.
Proof.
  intros w (HR & HS & HC & HL).
  split; [by apply Ready_resumeAutoPlay|]. split; [|split].
  - unfold exec. rewrite resumeAutoPlay_eq. cbn [fst].
    destruct (autoPlayTimer (state w)); [exact HS|]. by apply (Synced_ext w).
  - unfold exec. rewrite resumeAutoPlay_eq. cbn [fst].
    destruct (autoPlayTimer (state w)); [exact HC|].
    apply Scheduled_resume; [apply HR|exact HC].
  - by apply Listening_resumeAutoPlay.
Qed.

Lemma Steady_navigateTo index : preserves Steady (navigateTo index).
Proof.
  unfold navigateTo. apply preserves_get_bind. intros w HS.
  destruct (isTransitioning (state w)); [exact HS|].
  case_bool_decide; [exact HS|].
  apply exec_bind_keeps.
  - apply Steady_updateCarousel; [exact HS|].
    apply wrapIndex_range. destruct HS as ([[] _] & _). lia.
  - intros _. unfold resetAutoPlay. apply preserves_bind; [|intros _].
    + apply Steady_pauseAutoPlay.
    + apply Steady_resumeAutoPlay.
Qed.

Lemma Steady_state_other f w :
  (∀ s, totalCards (f s) = totalCards s) →
  (∀ s, currentIndex (f s) = currentIndex s) →
  (∀ s, isAutoPlaying (f s) = isAutoPlaying s) →
  (∀ s, autoPlayTimer (f s) = autoPlayTimer s) →
  (∀ s, isTransitioning (f s) = true → isTransitioning s = true) →
  Steady w → Steady (with_state f w).
Proof.
  intros Ht Hc Hp Ha Hi (HR & HS & HC & HL).
  split; [by apply Ready_state_other|]. split; [|split].
  - apply (Synced_ext w); simpl; auto.
  - apply (Scheduled_ext w); simpl; auto.
  - exact HL.
Qed.

Lemma Steady_log l w : Steady w → Steady (log l w).
Proof.
  intros (HR & HS & HC & HL). split; [by apply Ready_log|]. split; [|split].
  - by apply (Synced_ext w).
  - by apply (Scheduled_ext w).
  - exact HL.
Qed.

#[export] Hint Resolve Steady_navigateTo Steady_pauseAutoPlay Steady_resumeAutoPlay : keep.

Lemma Steady_handler ev :
  match ev with
  | PrevClick => preserves Steady handlePrevClick
  | NextClick => preserves Steady handleNextClick
  | IndicatorClick target => preserves Steady (handleIndicatorClick target)
  | KeyDown key => preserves Steady (handleKeyDown key)
  | TouchStart touches => preserves Steady (handleTouchStart touches)
  | TouchMove touches => preserves Steady (handleTouchMove touches)
  | TouchEnd changedTouches => preserves Steady (handleTouchEnd changedTouches)
  | VisibilityChange _ => preserves Steady handleVisibilityChange
  | _ => True
  end.
Proof.
  destruct ev; try exact Logic.I;
    unfold handlePrevClick, handleNextClick, handleIndicatorClick, handleKeyDown,
           handleTouchStart, handleTouchMove, handleTouchEnd, handleVisibilityChange;
    keep; by apply Steady_state_other.
Qed.

Lemma Steady_handleResize : preserves Steady handleResize.
Proof.
  intros w (HR & HS & HC & HL).
  split; [by apply Ready_handleResize|]. split; [|split].
  - by apply (Synced_ext w).
  - apply Scheduled_handleResize; [apply HR|exact HC].
  - exact HL.
Qed.

Lemma Steady_runCallback cb : cb ≠ EndTransition → preserves Steady (runCallback cb).
Proof.
  intros Hcb. destruct cb; [| done |]; simpl.
  - keep.
  - apply preserves_get_bind. intros w HS.
    apply Steady_updateCarousel; [exact HS|]. destruct HS as ([[] _] & _). lia.
Qed.

Lemma Steady_fireTimer id w : Steady w → Steady (fireTimer id w).
Proof.
  intros HS. unfold fireTimer.
  destruct (List.find _ _) as [t0|] eqn:Efind; [|exact HS].
  apply find_due in Efind as (Hin & Hid & _).
  destruct HS as (HR & HSy & HC & HL).
  pose proof (Scheduled_afterFiring id t0 w HC Hin Hid) as HC1.
  assert (Ready (with_timers (afterFiring id) w)) as HR1.
  { destruct HR as (HB & HM & HT). split; [|split].
    - by apply (Built_ext w).
    - by apply (Marked_ext w).
    - by apply Tracked_afterFiring. }
  destruct (decide (callback t0 = EndTransition)) as [Et|Et].
  - rewrite Et. cbn [runCallback]. unfold settle, modify.
    split; [by apply Ready_state_other|]. split; [|split]; [|exact HC1|exact HL].
    by apply (Synced_ext w).
  - apply preserves_settle; [by apply Steady_runCallback|intros l w'; apply Steady_log|].
    split; [exact HR1|]. split; [|split]; [|exact HC1|exact HL].
    by apply (Synced_ext w).
Qed.

Lemma Steady_step ev w : Steady w → Steady (step ev w).
Proof.
  intros HS. pose proof (Steady_handler ev) as Hev.
  assert (∀ A l (h : JS A), preserves Steady h → Steady (dispatch l h w)) as Hd.
  { intros A l h Hh. unfold dispatch. case_bool_decide; [|exact HS].
    apply preserves_settle; auto. intros l' w'. apply Steady_log. }
  destruct ev; cbn [step]; try (by apply Hd);
    try (apply Hd; auto using Steady_pauseAutoPlay, Steady_resumeAutoPlay, Steady_handleResize).
  - unfold dispatch. case_bool_decide.
    + apply preserves_settle; [exact Hev|intros l' w'; apply Steady_log|].
      destruct HS as (HR & HSy & HC & HL). split; [by apply (Ready_ext w)|].
      split; [|split]; [by apply (Synced_ext w)|by apply (Scheduled_ext w)|exact HL].
    + destruct HS as (HR & HSy & HC & HL). split; [by apply (Ready_ext w)|].
      split; [|split]; [by apply (Synced_ext w)|by apply (Scheduled_ext w)|exact HL].
  - by apply Steady_fireTimer.
  - destruct HS as (HR & HSy & HC & HL). split; [by apply (Ready_ext w)|].
    split; [|split]; [by apply (Synced_ext w)|by apply Scheduled_advanceClock|exact HL].
Qed.

Lemma Steady_run evs : ∀ w, Steady w → Steady (run evs w).
Proof.
  induction evs as [|ev evs IH]; intros w HS; [exact HS|].
  simpl. apply IH, Steady_step, HS.
Qed.

(** ** What [init] builds *)

Lemma createIndicators_result w :
  container (elements w) = true → hasInner (document w) = true →
  createIndicators w
  = (with_document (set_indicatorsAttached true)
      (with_elements (set_indicators (Some (
         (λ i, mkIndicator false (if bool_decide (i = 0) then "true" else "false") i)
           <$> seqZ 0 (totalCards (state w))))) w),
     Normal tt).
Proof.
  intros Hc Hi. unfold createIndicators. rewrite bind_get, bind_modify.
  erewrite bind_normal by (by apply appendToInner_ok).
  reflexivity.
Qed.

Lemma initBody_result p clock :
  carouselPage p →
  ∃ c, head (pageCards p) = Some c
       ∧ initBody (load p clock) = (built p clock c, Normal tt).
Proof.
  destruct p as [pt pg pi pc ph]. intros (Ht & Hg & Hi & Hc). simpl in *. subst.
  destruct pc as [|c pc']; [simpl in Hc; lia|]. exists c. split; [reflexivity|].
  set (pc := c :: pc') in *.
  unfold initBody. rewrite bind_get, bind_modify.
  change (hasTestimonials (document (load _ clock))) with true.
  change (hasGrid (document (load _ clock))) with true.
  change (docCards (document (load _ clock))) with pc.
  cbn [negb]. rewrite !bind_modify.
  rewrite (bool_decide_eq_false_2 (Z.of_nat (length pc) ≤ 1)) by lia.
  erewrite bind_normal by (by apply createCarouselControls_ok).
  erewrite bind_normal by (by apply createIndicators_result).
  erewrite bind_normal by (by apply createLiveRegion_ok).
  erewrite bind_normal by (by apply attachEventListeners_ok).
  match goal with |- context [(updateCarousel 0 false ≫= _) ?W] => set (W0 := W) end.
  assert (totalCards (state W0) = Z.of_nat (length pc)) as Htot
    by (vm_compute; reflexivity).
  unshelve epose proof (updateCarousel_result 0 false W0
      ((λ i, mkIndicator false (if bool_decide (i = 0) then "true" else "false") i)
         <$> seqZ 0 (Z.of_nat (length pc))) c _ _ _ _ _ _ _) as E.
  { vm_compute. reflexivity. }
  { vm_compute. reflexivity. }
  { rewrite Htot. etransitivity; [|apply (dataIndex_shownDots 0)].
    rewrite <- !list_fmap_compose. apply list_fmap_ext. by intros i x _. }
  { vm_compute. by eexists. }
  { vm_compute. by eexists. }
  { vm_compute. by eexists. }
  { vm_compute. reflexivity. }
  rewrite (bind_normal _ _ _ _ _ E). clear E.
  rewrite (bind_normal _ _ _ _ _ (startAutoPlay_eq _)).
  unfold built. cbn [pageCards pageHidden]. vm_compute. reflexivity.
Qed.

Lemma boot_built p clock :
  carouselPage p →
  ∃ c, head (pageCards p) = Some c ∧ boot p clock = built p clock c.
Proof.
  intros Hp. destruct (initBody_result p clock Hp) as (c & Hc & E).
  exists c. split; [exact Hc|]. unfold boot, exec, init, tryCatch. by rewrite E.
Qed.

Lemma Steady_boot p clock : carouselPage p → Steady (boot p clock).
Proof.
  intros Hp. split; [by apply Ready_boot|].
  destruct (boot_built p clock Hp) as (c & Hc & ->).
  destruct Hp as (_ & _ & _ & Hlen).
  split; [|split].
  - split; try reflexivity. cbn.
    exists (markCard true c). split; [|by rewrite displayName_markCard].
    destruct (pageCards p); [done|]. by simplify_eq/=.
  - split; cbn [built timers state active nextTimerId resizeTimer autoPlayTimer
                isTransitioning now].
    + cbn. apply NoDup_cons. split; [|by apply NoDup_singleton].
      by intros ?%list_elem_of_singleton.
    + intros t [->|[->|[]%elem_of_nil]%elem_of_cons]%elem_of_cons; cbn; lia.
    + intros t [->|[->|[]%elem_of_nil]%elem_of_cons]%elem_of_cons; cbn; done.
    + done.
    + intros t [->|[->|[]%elem_of_nil]%elem_of_cons]%elem_of_cons; cbn; done.
    + intros t [->|[->|[]%elem_of_nil]%elem_of_cons]%elem_of_cons; cbn; done.
    + intros _. eexists. split; [apply elem_of_cons; by left|].
      split; [reflexivity|]. cbn. unfold CONFIG.TRANSITION_DURATION. lia.
  - reflexivity.
Qed.

Lemma Steady_reachable p clock evs :
  carouselPage p → Steady (run evs (boot p clock)).
Proof. intros Hp. apply Steady_run, Steady_boot, Hp. Qed.

(** ** Events on a steady carousel *)

Lemma all_listeners l : l ∈ allListeners.
Proof.
  apply (bool_decide_unpack (l ∈ allListeners)). by destruct l; vm_compute.
Qed.

Lemma dispatch_listening {A} l (h : JS A) w :
  Listening w → dispatch l h w = settle h w.
Proof.
  intros HL. unfold dispatch. rewrite bool_decide_eq_true_2; [done|].
  rewrite HL. apply all_listeners.
Qed.

Lemma pauseAutoPlay_ok w : pauseAutoPlay w = (exec pauseAutoPlay w, Normal tt).
Proof. unfold exec. by rewrite pauseAutoPlay_eq. Qed.

Lemma resumeAutoPlay_ok w : resumeAutoPlay w = (exec resumeAutoPlay w, Normal tt).
Proof. unfold exec. by rewrite resumeAutoPlay_eq. Qed.

Lemma resetAutoPlay_ok w : resetAutoPlay w = (exec resetAutoPlay w, Normal tt).
Proof.
  unfold exec, resetAutoPlay. rewrite (bind_normal _ _ _ _ _ (pauseAutoPlay_ok w)).
  by rewrite resumeAutoPlay_ok.
Qed.

Lemma updateCarousel_normal idx animate w :
  Ready w → 0 ≤ idx < totalCards (state w) →
  updateCarousel idx animate w = (exec (updateCarousel idx animate) w, Normal tt).
Proof.
  intros ([Ht Hm Hrefs Hd Hp Hn Hl Hi Hpl] & _ & _) Hidx.
  destruct (updateCarousel_ok idx animate w) as (dots & msg & E); auto; [lia|].
  unfold exec. by rewrite E.
Qed.

(** On a ready carousel [navigateTo] never throws. *)
Lemma navigateTo_ok index w :
  Ready w → navigateTo index w = (exec (navigateTo index) w, Normal tt).
Proof.
  intros HR. unfold exec. unfold navigateTo. rewrite bind_get.
  destruct (isTransitioning (state w)); [done|].
  case_bool_decide; [done|].
  assert (0 ≤ wrapIndex (totalCards (state w)) index < totalCards (state w)) as Hrange.
  { apply wrapIndex_range. destruct HR as [[] _]. lia. }
  rewrite (bind_normal _ _ _ _ _ (updateCarousel_normal _ true w HR Hrange)).
  by rewrite resetAutoPlay_ok.
Qed.

(** The state object after a [navigateTo] that moves. *)
Lemma navigateTo_moved_state index w :
  Ready w →
  isTransitioning (state w) = false →
  wrapIndex (totalCards (state w)) index ≠ currentIndex (state w) →
  state (exec (navigateTo index) w)
  = set_autoPlayTimer (Some (Pos.succ (nextTimerId (timers w))))
      (set_currentIndex (wrapIndex (totalCards (state w)) index)
         (set_isTransitioning true (state w))).
Proof.
  intros HR Hsettled Hmove.
  assert (0 ≤ wrapIndex (totalCards (state w)) index < totalCards (state w)) as Hrange.
  { apply wrapIndex_range. destruct HR as [[] _]. lia. }
  pose proof HR as ([Ht Hm Hrefs Hd Hp Hn Hl Hi Hpl] & _ & _).
  destruct (updateCarousel_ok (wrapIndex (totalCards (state w)) index) true w)
    as (dots & msg & E); auto; [lia|].
  unfold exec, navigateTo. rewrite bind_get, Hsettled.
  rewrite bool_decide_eq_false_2 by done.
  rewrite (bind_normal _ _ _ _ _ E). clear E.
  unfold resetAutoPlay. rewrite (bind_normal _ _ _ _ _ (pauseAutoPlay_eq _)).
  cbn [state isAutoPlaying set_currentIndex set_isTransitioning].
  rewrite Hpl. rewrite resumeAutoPlay_eq. reflexivity.
Qed.

Lemma wrapIndex_next total current :
  1 ≤ total → 0 ≤ current < total →
  wrapIndex total (current + 1) = (current + 1) mod total.
Proof.
  intros Ht Hc. unfold wrapIndex. rewrite bool_decide_eq_false_2 by lia.
  case_bool_decide.
  - replace (current + 1) with total by lia. by rewrite Z_mod_same_full.
  - by rewrite Z.mod_small by lia.
Qed.

Lemma wrapIndex_round_trip total current :
  2 ≤ total → 0 ≤ current < total →
  wrapIndex total (wrapIndex total (current + 1) - 1) = current
  ∧ wrapIndex total (wrapIndex total (current - 1) + 1) = current.
Proof. intros Ht Hc. unfold wrapIndex. repeat case_bool_decide; lia. Qed.

(** * Further properties *)

(** X1: on a page with the section, the grid, the wrapper and two
    cards or more, [init] completes without throwing and leaves exactly the
    world [built]: card 0 marked active, one indicator per card with the
    first selected, both buttons enabled, the live region announcing card 1
    of N, the thirteen listeners attached, the styles injected, auto-play on
    with one interval due a full period later, and the unanimated first
    transition pending on a zero-delay timeout. *)
Theorem X1_init_builds_carousel (p : Page) (clock : Z) :
  carouselPage p →
  ∃ c, head (pageCards p) = Some c
       ∧ init (load p clock) = (built p clock c, Normal tt).
Proof.
  intros Hp. destruct (initBody_result p clock Hp) as (c & Hc & E).
  exists c. split; [exact Hc|]. unfold init, tryCatch. by rewrite E.
Qed.

Lemma X1_init_builds_carousel_witness :
  carouselPage threeCards
  ∧ ∃ c, head (pageCards threeCards) = Some c
         ∧ init (load threeCards 0) = (built threeCards 0 c, Normal tt).
Proof.
  assert (carouselPage threeCards) as Hp by (vm_compute; repeat split; lia).
  split; [exact Hp|]. apply (X1_init_builds_carousel threeCards 0 Hp).
Defined.

(** X2: in every world reached from a built carousel there is one
    indicator per card, the k-th carries [data-index] k, and it carries the
    active class and [aria-selected="true"] exactly when k is
    [currentIndex] (all others carry [aria-selected="false"]); neither
    button is disabled. *)
Theorem X2_indicators_follow_index (p : Page) (clock : Z) (evs : list Event) :
  carouselPage p →
  let w := run evs (boot p clock) in
  ∃ dots,
    indicators (elements w) = Some dots
    ∧ Z.of_nat (length dots) = totalCards (state w)
    ∧ (∀ k d, dots !! k = Some d →
         dataIndex d = Z.of_nat k
         ∧ indicatorActive d = bool_decide (Z.of_nat k = currentIndex (state w))
         ∧ ariaSelected d = (if bool_decide (Z.of_nat k = currentIndex (state w))
                             then "true" else "false")%string)
    ∧ prevButton (elements w) = Some false
    ∧ nextButton (elements w) = Some false.
Proof.
  intros Hp w. destruct (Steady_reachable p clock evs Hp) as (HR & HS & _).
  fold w in HR, HS. destruct HS as [Hdots _ Hprev Hnext].
  eexists. split; [exact Hdots|].
  split; [|split; [|by split]].
  - rewrite length_fmap, length_seqZ. destruct HR as [[] _]. lia.
  - intros k d Hk. rewrite list_lookup_fmap in Hk.
    destruct (seqZ 0 (totalCards (state w)) !! k) as [i|] eqn:Ei; [|done].
    apply lookup_seqZ in Ei as [-> _]. simplify_eq/=. rewrite Z.add_0_l. by repeat split.
Qed.

Lemma X2_indicators_follow_index_witness :
  carouselPage threeCards
  ∧ ∃ dots,
      indicators (elements (run [TimerFires 1; PrevClick; TimePasses 300; TimerFires 3] (boot threeCards 0))) = Some dots
      ∧ Z.of_nat (length dots) = totalCards (state (run [TimerFires 1; PrevClick; TimePasses 300; TimerFires 3] (boot threeCards 0)))
      ∧ (∀ k d, dots !! k = Some d →
           dataIndex d = Z.of_nat k
           ∧ indicatorActive d
             = bool_decide (Z.of_nat k = currentIndex (state (run [TimerFires 1; PrevClick; TimePasses 300; TimerFires 3] (boot threeCards 0))))
           ∧ ariaSelected d
             = (if bool_decide (Z.of_nat k = currentIndex (state (run [TimerFires 1; PrevClick; TimePasses 300; TimerFires 3] (boot threeCards 0))))
                then "true" else "false")%string)
      ∧ prevButton (elements (run [TimerFires 1; PrevClick; TimePasses 300; TimerFires 3] (boot threeCards 0))) = Some false
      ∧ nextButton (elements (run [TimerFires 1; PrevClick; TimePasses 300; TimerFires 3] (boot threeCards 0))) = Some false.
Proof.
  assert (carouselPage threeCards) as Hp by (vm_compute; repeat split; lia).
  split; [exact Hp|].
  apply (X2_indicators_follow_index threeCards 0
           [TimerFires 1; PrevClick; TimePasses 300; TimerFires 3] Hp).
Defined.

(** X3: in every world reached from a built carousel the live region
    reads "Showing testimonial i+1 of N from <name>", where i is
    [currentIndex] and <name> is the name on the card at [currentIndex], or
    "Customer" when that card has no name or an empty one. *)
Theorem X3_live_region_follows_index (p : Page) (clock : Z) (evs : list Event) :
  carouselPage p →
  let w := run evs (boot p clock) in
  ∃ c, arrayGet (docCards (document w)) (currentIndex (state w)) = Some c
       ∧ liveRegion (elements w)
         = Some (announcement (currentIndex (state w)) (totalCards (state w))
                              (displayName c)).
Proof.
  intros Hp w. destruct (Steady_reachable p clock evs Hp) as (_ & HS & _).
  apply HS.
Qed.

Lemma X3_live_region_follows_index_witness :
  carouselPage threeCards
  ∧ ∃ c, arrayGet (docCards (document (run [TimerFires 1; PrevClick; TimePasses 300; TimerFires 3] (boot threeCards 0))))
                  (currentIndex (state (run [TimerFires 1; PrevClick; TimePasses 300; TimerFires 3] (boot threeCards 0)))) = Some c
         ∧ liveRegion (elements (run [TimerFires 1; PrevClick; TimePasses 300; TimerFires 3] (boot threeCards 0)))
           = Some (announcement (currentIndex (state (run [TimerFires 1; PrevClick; TimePasses 300; TimerFires 3] (boot threeCards 0))))
                                (totalCards (state (run [TimerFires 1; PrevClick; TimePasses 300; TimerFires 3] (boot threeCards 0))))
                                (displayName c)).
Proof.
  assert (carouselPage threeCards) as Hp by (vm_compute; repeat split; lia).
  split; [exact Hp|].
  apply (X3_live_region_follows_index threeCards 0
           [TimerFires 1; PrevClick; TimePasses 300; TimerFires 3] Hp).
Defined.

(** X4: on a settled carousel a click on the k-th indicator shows
    card k; a click in the indicator bar that hits no indicator changes
    nothing. *)
Theorem X4_indicator_click_shows_card
    (p : Page) (clock : Z) (evs : list Event) (k : nat) :
  carouselPage p →
  let w := run evs (boot p clock) in
  (isTransitioning (state w) = false → Z.of_nat k < totalCards (state w) →
   currentIndex (state (step (IndicatorClick (Some k)) w)) = Z.of_nat k)
  ∧ (totalCards (state w) ≤ Z.of_nat k → step (IndicatorClick (Some k)) w = w)
  ∧ step (IndicatorClick None) w = w.
Proof.
  intros Hp w. destruct (Steady_reachable p clock evs Hp) as (HR & HS & _ & HL).
  fold w in HR, HS, HL. cbn [step]. rewrite !(dispatch_listening _ _ _ HL).
  unfold handleIndicatorClick, settle. rewrite !bind_get.
  rewrite (synced_dots _ HS). cbn [default mbind option_bind]. unfold id.
  rewrite list_lookup_fmap. split; [|split].
  - intros Hsettled Hk. rewrite lookup_seqZ_lt by lia. cbn [fmap option_fmap option_map].
    rewrite (navigateTo_ok _ w HR). cbn [shownDot dataIndex].
    rewrite navigateTo_currentIndex by done.
    unfold wrapIndex. rewrite !bool_decide_eq_false_2 by lia. lia.
  - intros Hk. by rewrite lookup_seqZ_ge by lia.
  - done.
Qed.

Lemma X4_indicator_click_shows_card_witness :
  carouselPage threeCards
  ∧ currentIndex (state (step (IndicatorClick (Some 1%nat)) (run [TimerFires 1; PrevClick; TimePasses 300; TimerFires 3] (boot threeCards 0)))) = 1.
Proof.
  assert (carouselPage threeCards) as Hp by (vm_compute; repeat split; lia).
  split; [exact Hp|].
  destruct (X4_indicator_click_shows_card threeCards 0
              [TimerFires 1; PrevClick; TimePasses 300; TimerFires 3] 1 Hp)
    as (Hclick & _).
  apply Hclick; vm_compute; reflexivity.
Defined.

Lemma navigationKey_other key :
  navigationKey key = false →
  String.eqb key "ArrowLeft" = false ∧ String.eqb key "ArrowRight" = false
  ∧ String.eqb key "Home" = false ∧ String.eqb key "End" = false.
Proof. unfold navigationKey. rewrite !orb_false_iff. tauto. Qed.

(** No function of the module moves the clock. *)
Lemma navigateTo_clock index clock :
  preserves (λ w, now (timers w) = clock) (navigateTo index).
Proof.
  unfold navigateTo, updateCarousel, announceCurrentTestimonial, resetAutoPlay,
         pauseAutoPlay, resumeAutoPlay.
  repeat listening_step.
Qed.

(** What [handleKeyDown] does outside the repeat window. *)
Lemma handleKeyDown_eq key w :
  Ready w →
  ¬ now (timers w) - lastKeyPressTime (state w) < CONFIG.KEYBOARD_REPEAT_DELAY →
  handleKeyDown key w
  = (if navigationKey key
     then with_state (set_lastKeyPressTime (now (timers w)))
            (exec (navigateTo
                     (if String.eqb key "ArrowLeft" then currentIndex (state w) - 1
                      else if String.eqb key "ArrowRight" then currentIndex (state w) + 1
                      else if String.eqb key "Home" then 0
                      else totalCards (state w) - 1)) w)
     else w,
     Normal tt).
Proof.
  intros HR Hlate. unfold handleKeyDown. rewrite bind_get.
  rewrite bool_decide_eq_false_2 by done. unfold navigationKey.
  destruct (String.eqb key "ArrowLeft");
    [|destruct (String.eqb key "ArrowRight");
      [|destruct (String.eqb key "Home"); [|destruct (String.eqb key "End")]]];
    cbn [orb]; try reflexivity;
    rewrite bind_assoc, (bind_normal _ _ _ _ _ (navigateTo_ok _ w HR)); reflexivity.
Qed.

(** X5: on a settled carousel, outside the key-repeat window,
    ArrowLeft shows the previous card and ArrowRight the next one (wrapping
    at either end), Home the first card and End the last; each of the four
    records the time of the key press; any other key changes nothing. *)
Theorem X5_keyboard_navigation
    (p : Page) (clock : Z) (evs : list Event) (key : string) :
  carouselPage p →
  let w := run evs (boot p clock) in
  let w' := step (KeyDown key) w in
  isTransitioning (state w) = false →
  now (timers w) - lastKeyPressTime (state w) >= CONFIG.KEYBOARD_REPEAT_DELAY →
  (key = "ArrowLeft"%string →
     currentIndex (state w')
     = wrapIndex (totalCards (state w)) (currentIndex (state w) - 1))
  ∧ (key = "ArrowRight"%string →
     currentIndex (state w')
     = wrapIndex (totalCards (state w)) (currentIndex (state w) + 1))
  ∧ (key = "Home"%string → currentIndex (state w') = 0)
  ∧ (key = "End"%string → currentIndex (state w') = totalCards (state w) - 1)
  ∧ (navigationKey key = true → lastKeyPressTime (state w') = now (timers w))
  ∧ (navigationKey key = false → w' = w).
Proof.
  intros Hp w w' Hsettled Hlate.
  destruct (Steady_reachable p clock evs Hp) as (HR & _ & _ & HL). fold w in HR, HL.
  assert (2 ≤ totalCards (state w)) as HN by (destruct HR as [[] _]; done).
  unfold w'. cbn [step]. rewrite (dispatch_listening _ _ _ HL).
  rewrite (settle_normal _ _ _ _ (handleKeyDown_eq key w HR ltac:(lia))).
  repeat split.
  - intros ->. cbn. by rewrite navigateTo_currentIndex.
  - intros ->. cbn. by rewrite navigateTo_currentIndex.
  - intros ->. cbn. rewrite navigateTo_currentIndex by done.
    unfold wrapIndex. rewrite !bool_decide_eq_false_2 by lia. done.
  - intros ->. cbn. rewrite navigateTo_currentIndex by done.
    unfold wrapIndex. rewrite !bool_decide_eq_false_2 by lia. done.
  - intros ->. reflexivity.
  - intros ->. reflexivity.
Qed.

Lemma X5_keyboard_navigation_witness :
  carouselPage threeCards
  ∧ currentIndex (state (step (KeyDown "Home") (run [TimerFires 1; PrevClick; TimePasses 300; TimerFires 3; TimePasses 300] (boot threeCards 0)))) = 0.
Proof.
  assert (carouselPage threeCards) as Hp by (vm_compute; repeat split; lia).
  split; [exact Hp|].
  destruct (X5_keyboard_navigation threeCards 0
              [TimerFires 1; PrevClick; TimePasses 300; TimerFires 3; TimePasses 300]
              "Home" Hp) as (_ & _ & Hhome & _).
  - vm_compute. reflexivity.
  - vm_compute. discriminate.
  - apply Hhome. reflexivity.
Defined.

(** X6: a key press that arrives less than the repeat delay after the
    last handled one is ignored whatever the key; and whenever one of the
    four navigation keys is handled on a built carousel, even while a
    transition drops its navigation, every key press in the following
    repeat delay is ignored. *)
Theorem X6_key_repeat_is_ignored :
  (∀ (w : World) (key : string),
     now (timers w) - lastKeyPressTime (state w) < CONFIG.KEYBOARD_REPEAT_DELAY →
     step (KeyDown key) w = w)
  ∧ (∀ (p : Page) (clock : Z) (evs : list Event) (key key' : string) (dt : N),
       carouselPage p →
       let w := run evs (boot p clock) in
       let w' := step (TimePasses dt) (step (KeyDown key) w) in
       now (timers w) - lastKeyPressTime (state w) >= CONFIG.KEYBOARD_REPEAT_DELAY →
       navigationKey key = true →
       Z.of_N dt < CONFIG.KEYBOARD_REPEAT_DELAY →
       step (KeyDown key') w' = w').
Proof.
  assert (∀ (w : World) (key : string),
     now (timers w) - lastKeyPressTime (state w) < CONFIG.KEYBOARD_REPEAT_DELAY →
     step (KeyDown key) w = w) as Hrepeat.
  { intros w key Hsoon. cbn [step]. unfold dispatch. case_bool_decide; [|done].
    unfold settle, handleKeyDown. rewrite bind_get.
    by rewrite bool_decide_eq_true_2. }
  split; [exact Hrepeat|].
  intros p clock evs key key' dt Hp w w' Hlate Hkey Hdt.
  destruct (Steady_reachable p clock evs Hp) as (HR & _ & _ & HL). fold w in HR, HL.
  apply Hrepeat. unfold w'. cbn [step]. rewrite (dispatch_listening _ _ _ HL).
  rewrite (settle_normal _ _ _ _ (handleKeyDown_eq key w HR ltac:(lia))).
  rewrite Hkey. cbn [with_timers with_state timers state advanceClock now
                     lastKeyPressTime set_lastKeyPressTime].
  assert (now (timers (exec (navigateTo
            (if String.eqb key "ArrowLeft" then currentIndex (state w) - 1
             else if String.eqb key "ArrowRight" then currentIndex (state w) + 1
             else if String.eqb key "Home" then 0
             else totalCards (state w) - 1)) w)) = now (timers w)) as ->.
  { generalize (if String.eqb key "ArrowLeft" then currentIndex (state w) - 1
             else if String.eqb key "ArrowRight" then currentIndex (state w) + 1
             else if String.eqb key "Home" then 0
             else totalCards (state w) - 1). intros i.
    apply (navigateTo_clock i (now (timers w)) w eq_refl). }
  lia.
Qed.

Lemma X6_key_repeat_is_ignored_witness :
  carouselPage threeCards
  ∧ step (KeyDown "ArrowRight")
         (step (TimePasses 299) (step (KeyDown "ArrowRight")
                                      (run [TimerFires 1; PrevClick; TimePasses 300; TimerFires 3; TimePasses 300] (boot threeCards 0))))
    = step (TimePasses 299) (step (KeyDown "ArrowRight")
                                  (run [TimerFires 1; PrevClick; TimePasses 300; TimerFires 3; TimePasses 300] (boot threeCards 0))).
Proof.
  assert (carouselPage threeCards) as Hp by (vm_compute; repeat split; lia).
  split; [exact Hp|].
  destruct X6_key_repeat_is_ignored as [_ Hheld].
  apply (Hheld threeCards 0
           [TimerFires 1; PrevClick; TimePasses 300; TimerFires 3; TimePasses 300]
           "ArrowRight" "ArrowRight" 299%N Hp).
  - vm_compute. discriminate.
  - reflexivity.
  - vm_compute. reflexivity.
Defined.

Lemma bind_thrown {A B} (m : JS A) (k : A → JS B) w w1 e :
  m w = (w1, Thrown e) → (m ≫= k) w = (w1, Thrown e).
Proof. intros H. unfold mbind, JS_bind. by rewrite H. Qed.

(** [handleTouchEnd] on a ready carousel: it returns normally when the
    event carries a touch, and no gesture is left recorded. *)
Lemma handleTouchEnd_resets changedTouches w :
  Ready w → changedTouches ≠ [] →
  handleTouchEnd changedTouches w = (exec (handleTouchEnd changedTouches) w, Normal tt)
  ∧ touchStartX (state (exec (handleTouchEnd changedTouches) w)) = 0.
Proof.
  intros HR Hct. unfold exec. unfold handleTouchEnd. rewrite bind_get.
  case_bool_decide as Hx; [by split|].
  destruct changedTouches as [|touch rest]; [done|]. cbn [head]. rewrite bind_deref.
  set (test := isHorizontalSwipe _ _ && _ && _).
  set (first := if test then _ else _).
  assert (∃ w1, first w = (w1, Normal tt)) as [w1 E].
  { unfold first. destruct test; [|by eexists].
    destruct (bool_decide _); eexists; by apply navigateTo_ok. }
  rewrite (bind_normal _ _ _ _ _ E). by split.
Qed.

(** X7: on a built carousel, once a touch-end has been handled no
    gesture stays recorded: the start coordinate is back at 0, and a further
    touch-end without a new touch-start changes nothing. *)
Theorem X7_touch_end_consumes_gesture
    (p : Page) (clock : Z) (evs : list Event) (changedTouches later : list Touch) :
  carouselPage p →
  changedTouches ≠ [] →
  let w' := step (TouchEnd changedTouches) (run evs (boot p clock)) in
  touchStartX (state w') = 0 ∧ step (TouchEnd later) w' = w'.
Proof.
  intros Hp Hct w'.
  destruct (Steady_reachable p clock evs Hp) as (HR & _ & _ & HL).
  destruct (handleTouchEnd_resets changedTouches _ HR Hct) as [Hok Hx].
  assert (touchStartX (state w') = 0) as Hx'.
  { unfold w'. cbn [step]. rewrite (dispatch_listening _ _ _ HL).
    by rewrite (settle_normal _ _ _ _ Hok). }
  split; [exact Hx'|].
  cbn [step]. unfold dispatch. case_bool_decide; [|done].
  by rewrite (settle_normal _ _ _ _ (handleTouchEnd_untracked later w' Hx')).
Qed.

Lemma X7_touch_end_consumes_gesture_witness :
  carouselPage threeCards
  ∧ [(120, 100)] ≠ ([] : list Touch)
  ∧ touchStartX (state (step (TouchEnd [(120, 100)])
                             (run [TimerFires 1; TouchStart [(200, 100)]; TimePasses 200]
                                  (boot threeCards 0)))) = 0.
Proof.
  assert (carouselPage threeCards) as Hp by (vm_compute; repeat split; lia).
  split; [exact Hp|]. split; [discriminate|].
  apply (X7_touch_end_consumes_gesture threeCards 0
           [TimerFires 1; TouchStart [(200, 100)]; TimePasses 200] [(120, 100)] []
           Hp ltac:(discriminate)).
Defined.

(** ** A page without the wrapper *)

Lemma initBody_wrapperless p clock :
  wrapperlessPage p →
  initBody (load p clock)
  = (with_elements (set_nextButton (Some false))
       (with_elements (set_prevButton (Some false))
          (with_state (set_totalCards (Z.of_nat (length (pageCards p))))
             (with_elements (set_cards (seq 0 (length (pageCards p))))
                (with_elements (set_grid true)
                   (with_elements (set_container true) (load p clock)))))),
     Thrown (TypeError ".testimonials__container")).
Proof.
  destruct p as [pt pg pi pc ph]. intros (Ht & Hg & Hi & Hc). simpl in *. subst.
  unfold initBody. rewrite bind_get, bind_modify.
  change (hasTestimonials (document (load _ clock))) with true.
  change (hasGrid (document (load _ clock))) with true.
  change (docCards (document (load _ clock))) with pc.
  cbn [negb]. rewrite !bind_modify.
  rewrite (bool_decide_eq_false_2 (Z.of_nat (length pc) ≤ 1)) by lia.
  apply bind_thrown. unfold createCarouselControls. rewrite !bind_modify.
  apply bind_thrown. reflexivity.
Qed.

(** X8: on a page that has the section, the grid and two cards or more
    but lacks the [.testimonials__container] wrapper, [init] catches the
    TypeError and logs it: it does not throw, leaves the document and the
    timer table untouched, attaches no listener and starts no timer; from
    then on no event changes the state object, the cards or the timers. *)
Theorem X8_init_without_wrapper (p : Page) (clock : Z) :
  wrapperlessPage p →
  outcome init (load p clock) = Normal tt
  ∧ document (boot p clock) = document (load p clock)
  ∧ timers (boot p clock) = timers (load p clock)
  ∧ console (boot p clock) = [LogError (TypeError ".testimonials__container")]
  ∧ ∀ evs, state (run evs (boot p clock)) = state (boot p clock)
           ∧ docCards (document (run evs (boot p clock))) = pageCards p
           ∧ listeners (document (run evs (boot p clock))) = []
           ∧ active (timers (run evs (boot p clock))) = [].
Proof.
  intros Hp. pose proof (initBody_wrapperless p clock Hp) as E.
  unfold outcome, boot, exec, init, tryCatch. rewrite E. cbn [fst snd modify].
  do 4 (split; [reflexivity|]). intros evs.
  match goal with |- context [run evs ?W] =>
    destruct (inert_run evs W eq_refl eq_refl) as (Es & _ & Ed & Hl & Ha) end.
  destruct Hp as (_ & _ & _ & _). by repeat split.
Qed.

Lemma X8_init_without_wrapper_witness :
  wrapperlessPage (mkPage true true false [sampleCard "Ann"; sampleCard "Ben"] false)
  ∧ console (boot (mkPage true true false [sampleCard "Ann"; sampleCard "Ben"] false) 0)
    = [LogError (TypeError ".testimonials__container")].
Proof.
  assert (wrapperlessPage
            (mkPage true true false [sampleCard "Ann"; sampleCard "Ben"] false)) as Hp
    by (vm_compute; repeat split; lia).
  split; [exact Hp|]. apply (X8_init_without_wrapper _ 0 Hp).
Defined.

(** ** Timers *)

Lemma Ready_afterFiring id w : Ready w → Ready (with_timers (afterFiring id) w).
Proof.
  intros (HB & HM & HT). split; [|split].
  - by apply (Built_ext w).
  - by apply (Marked_ext w).
  - by apply Tracked_afterFiring.
Qed.

(** A due timer of the table is the one the event loop runs. *)
Lemma fireTimer_due t w :
  Scheduled w → t ∈ active (timers w) → due t ≤ now (timers w) →
  fireTimer (timerId t) w
  = settle (runCallback (callback t)) (with_timers (afterFiring (timerId t)) w).
Proof.
  intros HC Hin Hdue. unfold fireTimer.
  by rewrite (find_due_unique _ _ _ t (sched_nodup _ HC) Hin eq_refl Hdue).
Qed.

(** X9: when the auto-play interval comes due on a carousel that is not
    in a transition, its callback shows the next card, wrapping from the
    last to the first: [currentIndex] becomes [(currentIndex + 1) mod N], a
    transition starts, and the interval is replaced by a fresh one due a full
    period later. When it comes due during a transition the callback changes
    nothing in the state object. *)
Theorem X9_interval_shows_next_card
    (p : Page) (clock : Z) (evs : list Event) (t : Timer) :
  carouselPage p →
  let w := run evs (boot p clock) in
  t ∈ active (timers w) → callback t = AutoAdvance → due t ≤ now (timers w) →
  let w' := step (TimerFires (timerId t)) w in
  (isTransitioning (state w) = false →
   currentIndex (state w') = (currentIndex (state w) + 1) mod totalCards (state w)
   ∧ isTransitioning (state w') = true
   ∧ autoTimers w'
     = [mkTimer (Pos.succ (nextTimerId (timers w)))
                (now (timers w) + CONFIG.AUTO_PLAY_INTERVAL)
                CONFIG.AUTO_PLAY_INTERVAL true AutoAdvance])
  ∧ (isTransitioning (state w) = true → state w' = state w).
Proof.
  intros Hp w Hin Hcb Hdue w'.
  destruct (Steady_reachable p clock evs Hp) as (HR & _ & HC & _). fold w in HR, HC.
  pose proof (Ready_afterFiring (timerId t) w HR) as HR1.
  set (w1 := with_timers (afterFiring (timerId t)) w) in *.
  assert (w' = exec (navigateTo (currentIndex (state w) + 1)) w1) as ->.
  { unfold w'. cbn [step]. rewrite (fireTimer_due t w HC Hin Hdue), Hcb.
    cbn [runCallback]. unfold settle. rewrite bind_get. fold w1.
    change (state w1) with (state w). by rewrite (navigateTo_ok _ w1 HR1). }
  destruct HR as (HB & _). split.
  - intros Hsettled.
    assert (currentIndex (state (exec (navigateTo (currentIndex (state w) + 1)) w1))
            = (currentIndex (state w) + 1) mod totalCards (state w)) as Hidx.
    { rewrite navigateTo_currentIndex by exact Hsettled.
      change (state w1) with (state w).
      apply wrapIndex_next; [pose proof (built_many _ HB); lia|apply HB]. }
    split; [exact Hidx|].
    assert (wrapIndex (totalCards (state w1)) (currentIndex (state w) + 1)
            ≠ currentIndex (state w1)) as Hmove.
    { change (state w1) with (state w).
      apply wrapIndex_moves; [apply HB|apply HB]. }
    split.
    + by rewrite (navigateTo_moved_state _ w1 HR1 Hsettled Hmove).
    + apply (navigateTo_moved _ w1 HR1).
      rewrite navigateTo_currentIndex by exact Hsettled. exact Hmove.
  - intros Htr. unfold exec. by rewrite navigateTo_transitioning.
Qed.

Lemma X9_interval_shows_next_card_witness :
  carouselPage threeCards
  ∧ currentIndex (state (step (TimerFires (timerId (mkTimer 2%positive 5000 5000 true AutoAdvance)))
                              (run [TimerFires 1; TimePasses 5000] (boot threeCards 0))))
    = (currentIndex (state (run [TimerFires 1; TimePasses 5000] (boot threeCards 0))) + 1)
      mod totalCards (state (run [TimerFires 1; TimePasses 5000] (boot threeCards 0))).
Proof.
  assert (carouselPage threeCards) as Hp by (vm_compute; repeat split; lia).
  split; [exact Hp|].
  assert (mkTimer 2%positive 5000 5000 true AutoAdvance
          ∈ active (timers (run [TimerFires 1; TimePasses 5000] (boot threeCards 0))))
    as Hin by (vm_compute; apply list_elem_of_here).
  assert (due (mkTimer 2%positive 5000 5000 true AutoAdvance)
          ≤ now (timers (run [TimerFires 1; TimePasses 5000] (boot threeCards 0))))
    as Hdue by (vm_compute; discriminate).
  destruct (X9_interval_shows_next_card threeCards 0 [TimerFires 1; TimePasses 5000]
              (mkTimer 2%positive 5000 5000 true AutoAdvance) Hp Hin eq_refl Hdue) as [Hgo _].
  apply Hgo. vm_compute; reflexivity.
Defined.

(** X10: a transition always ends. Whenever [isTransitioning] is set
    there is a pending one-shot timeout due within the transition duration;
    once that time has passed and the timeout runs, the flag is cleared and
    nothing else of the state object changes. *)
Theorem X10_transition_ends (p : Page) (clock : Z) (evs : list Event) :
  carouselPage p →
  let w := run evs (boot p clock) in
  isTransitioning (state w) = true →
  ∃ t, t ∈ active (timers w) ∧ callback t = EndTransition ∧ repeating t = false
       ∧ due t ≤ now (timers w) + CONFIG.TRANSITION_DURATION
       ∧ state (run [TimePasses 300; TimerFires (timerId t)] w)
         = set_isTransitioning false (state w).
Proof.
  intros Hp w Htr.
  destruct (Steady_reachable p clock evs Hp) as (HR & _ & HC & _). fold w in HR, HC.
  destruct (sched_ending _ HC Htr) as (t & Hin & Hcb & Hdue).
  exists t. split; [exact Hin|]. split; [exact Hcb|].
  split; [apply (sched_oneshot _ HC t Hin); congruence|]. split; [exact Hdue|].
  cbn [run foldl step].
  set (w1 := with_timers (advanceClock 300) w).
  assert (Scheduled w1) as HC1 by (by apply Scheduled_advanceClock).
  rewrite (fireTimer_due t w1 HC1 Hin) by (cbn; unfold CONFIG.TRANSITION_DURATION in Hdue; lia).
  rewrite Hcb. reflexivity.
Qed.

Lemma X10_transition_ends_witness :
  carouselPage threeCards
  ∧ ∃ t, t ∈ active (timers (run [TimerFires 1; NextClick] (boot threeCards 0)))
         ∧ callback t = EndTransition ∧ repeating t = false
         ∧ due t ≤ now (timers (run [TimerFires 1; NextClick] (boot threeCards 0)))
                   + CONFIG.TRANSITION_DURATION
         ∧ state (run [TimePasses 300; TimerFires (timerId t)]
                      (run [TimerFires 1; NextClick] (boot threeCards 0)))
           = set_isTransitioning false
               (state (run [TimerFires 1; NextClick] (boot threeCards 0))).
Proof.
  assert (carouselPage threeCards) as Hp by (vm_compute; repeat split; lia).
  split; [exact Hp|].
  apply (X10_transition_ends threeCards 0 [TimerFires 1; NextClick] Hp).
  vm_compute; reflexivity.
Defined.

(** ** Resize *)

Lemma filter_none {A} (P : A → Prop) `{∀ x, Decision (P x)} (l : list A) :
  (∀ x, x ∈ l → ¬ P x) → filter P l = [].
Proof.
  induction l as [|x l IH]; intros Hl; [done|].
  rewrite filter_cons_False by (apply Hl; left).
  apply IH. intros y Hy. apply Hl. by right.
Qed.

Lemma filter_same {A} (P : A → Prop) `{∀ x, Decision (P x)} (l : list A) :
  (∀ x, x ∈ l → P x) → filter P l = l.
Proof.
  induction l as [|x l IH]; intros Hl; [done|].
  rewrite filter_cons_True by (apply Hl; left).
  f_equal. apply IH. intros y Hy. apply Hl. by right.
Qed.

(** Firing a one-shot timer removes it from the table. *)
Lemma afterFiring_oneshot id T :
  (∀ x, x ∈ active T → timerId x = id → repeating x = false) →
  active (afterFiring id T) = filter (λ x, timerId x ≠ id) (active T).
Proof.
  unfold afterFiring. cbn [active]. induction (active T) as [|x l IH]; intros Hl; [done|].
  cbn [omap list_omap]. case_bool_decide as Hid.
  - rewrite (Hl x) by (done || left). rewrite filter_cons_False by (intros E; by apply E).
    apply IH. intros y Hy. apply Hl. by right.
  - rewrite filter_cons_True by done. f_equal. apply IH. intros y Hy. apply Hl. by right.
Qed.

Lemma handleResize_pending w :
  Scheduled w →
  resizeTimers (exec handleResize w)
  = [mkTimer (nextTimerId (timers w)) (now (timers w) + 150) 150 false ResizeSync]
  ∧ resizeTimer (exec handleResize w) = Some (nextTimerId (timers w))
  ∧ state (exec handleResize w) = state w
  ∧ elements (exec handleResize w) = elements w
  ∧ document (exec handleResize w) = document w
  ∧ autoTimers (exec handleResize w) = autoTimers w
  ∧ endTimers (exec handleResize w) = endTimers w.
Proof.
  intros HC. unfold exec at 1 2 3 4 5 6 7. rewrite handleResize_eq. cbn [fst].
  unfold resizeTimers, autoTimers, endTimers.
  cbn [exec setTimeout clearTimeout clearTimer modify schedule fst timers
       with_timers set_resizeTimer state active nextTimerId now resizeTimer
       elements document].
  rewrite !filter_app.
  rewrite !(filter_swap _ (λ x, Some (timerId x) ≠ resizeTimer w)).
  split; [|split; [done|split; [done|split; [done|split; [done|split]]]]].
  - rewrite (filter_none (λ x, Some (timerId x) ≠ resizeTimer w)); [done|].
    intros x [Hcb Hin]%list_elem_of_filter Hne. apply Hne. symmetry.
    by apply (sched_resize_only _ HC).
  - rewrite (filter_same (λ x, Some (timerId x) ≠ resizeTimer w)); [by rewrite app_nil_r|].
    intros x [Hcb Hin]%list_elem_of_filter E. symmetry in E.
    pose proof (sched_resize _ HC x Hin E). congruence.
  - rewrite (filter_same (λ x, Some (timerId x) ≠ resizeTimer w)); [by rewrite app_nil_r|].
    intros x [Hcb Hin]%list_elem_of_filter E. symmetry in E.
    pose proof (sched_resize _ HC x Hin E). congruence.
Qed.

(** X11: resizing is debounced. After a [resize] event exactly one
    resync timeout is pending, a fresh one due 150 ms later and held by
    [resizeTimer], whatever was pending before; the state object, the
    module's element references, the document and the other timers are as
    they were. *)
Theorem X11_resize_is_debounced (p : Page) (clock : Z) (evs : list Event) :
  carouselPage p →
  let w := run evs (boot p clock) in
  let w' := step Resize w in
  resizeTimers w'
  = [mkTimer (nextTimerId (timers w)) (now (timers w) + 150) 150 false ResizeSync]
  ∧ resizeTimer w' = Some (nextTimerId (timers w))
  ∧ state w' = state w ∧ elements w' = elements w ∧ document w' = document w
  ∧ autoTimers w' = autoTimers w ∧ endTimers w' = endTimers w.
Proof.
  intros Hp w w'.
  destruct (Steady_reachable p clock evs Hp) as (_ & _ & HC & HL). fold w in HC, HL.
  assert (w' = exec handleResize w) as ->.
  { unfold w'. cbn [step]. rewrite (dispatch_listening _ _ _ HL).
    unfold settle, exec. by rewrite handleResize_eq. }
  by apply handleResize_pending.
Qed.

Lemma X11_resize_is_debounced_witness :
  carouselPage threeCards
  ∧ resizeTimers (step Resize (run [TimerFires 1; Resize; TimePasses 100] (boot threeCards 0)))
    = [mkTimer (nextTimerId (timers (run [TimerFires 1; Resize; TimePasses 100]
                                         (boot threeCards 0))))
               (now (timers (run [TimerFires 1; Resize; TimePasses 100] (boot threeCards 0)))
                + 150) 150 false ResizeSync].
Proof.
  assert (carouselPage threeCards) as Hp by (vm_compute; repeat split; lia).
  split; [exact Hp|].
  apply (X11_resize_is_debounced threeCards 0 [TimerFires 1; Resize; TimePasses 100] Hp).
Defined.

(** The resync callback on a carousel whose controls agree with
    [currentIndex]: every write puts back the value that is there, except
    the transition flag and the timeout that clears it. *)
Lemma resync_result w :
  Ready w → Synced w →
  runCallback ResizeSync w
  = (mkWorld (set_isTransitioning true (state w)) (elements w) (document w)
             (timers (exec (setTimeout EndTransition 0) w))
             (resizeTimer w) (console w),
     Normal tt).
Proof.
  intros (HB & HM & _) [Hdots (c & Hc & Hlive) Hprev Hnext].
  cbn [runCallback]. rewrite bind_get.
  rewrite (updateCarousel_result (currentIndex (state w)) false w _ c
             (built_refs _ HB) Hdots (dataIndex_shownDots _ _)
             (built_prev _ HB) (built_next _ HB) (built_live _ HB) Hc).
  f_equal. unfold Marked in HM. rewrite <- HM.
  destruct w as [s e d t r l]. cbn [state elements document resizeTimer console] in *.
  f_equal; [..|by destruct d]; [try by destruct s..|destruct e; cbn in *; by subst].
Qed.

(** X12: the debounced resync re-renders the carousel in place. When the
    resync timeout runs, the module's element references, the document and
    [currentIndex] are exactly as before and the auto-play interval is not
    touched; but [updateCarousel] sets [isTransitioning] and schedules a
    zero-delay timeout that clears it, so in the world the resync leaves a
    navigation request is dropped. *)
Theorem X12_resync_rerenders_in_place
    (p : Page) (clock : Z) (evs : list Event) (t : Timer) :
  carouselPage p →
  let w := run evs (boot p clock) in
  t ∈ active (timers w) → callback t = ResizeSync → due t ≤ now (timers w) →
  let w' := step (TimerFires (timerId t)) w in
  elements w' = elements w ∧ document w' = document w
  ∧ state w' = set_isTransitioning true (state w)
  ∧ autoTimers w' = autoTimers w
  ∧ resizeTimers w' = []
  ∧ mkTimer (nextTimerId (timers w)) (now (timers w) + 0) 0 false EndTransition
    ∈ active (timers w')
  ∧ ∀ index, navigateTo index w' = (w', Normal tt).
Proof.
  intros Hp w Hin Hcb Hdue w'.
  destruct (Steady_reachable p clock evs Hp) as (HR & HS & HC & _). fold w in HR, HS, HC.
  pose proof (Ready_afterFiring (timerId t) w HR) as HR1.
  assert (Synced (with_timers (afterFiring (timerId t)) w)) as HS1
    by (by apply (Synced_ext w)).
  assert (∀ x, x ∈ active (timers w) → timerId x = timerId t → x = t) as Hsame.
  { intros x Hx E. by apply (same_handle _ _ _ (sched_nodup _ HC) Hx Hin). }
  assert (active (afterFiring (timerId t) (timers w))
          = filter (λ x, timerId x ≠ timerId t) (active (timers w))) as Hact.
  { apply afterFiring_oneshot. intros x Hx E. rewrite (Hsame x Hx E).
    apply (sched_oneshot _ HC t Hin). congruence. }
  assert (w' = exec (runCallback ResizeSync) (with_timers (afterFiring (timerId t)) w))
    as ->.
  { unfold w'. cbn [step]. rewrite (fireTimer_due t w HC Hin Hdue), Hcb.
    unfold settle, exec. by rewrite (resync_result _ HR1 HS1). }
  unfold exec. rewrite (resync_result _ HR1 HS1). cbn [fst].
  unfold autoTimers, resizeTimers.
  cbn [elements document state timers with_timers exec fst setTimeout schedule active
       nextTimerId now afterFiring].
  change (omap _ (active (timers w))) with (active (afterFiring (timerId t) (timers w))).
  rewrite Hact, !filter_app.
  split; [done|]. split; [done|]. split; [done|]. split; [|split; [|split]].
  - rewrite (filter_swap _ (λ x, timerId x ≠ timerId t)).
    rewrite (filter_same (λ x, timerId x ≠ timerId t)); [by rewrite app_nil_r|].
    intros x [Hx Hxin]%list_elem_of_filter E. rewrite (Hsame x Hxin E) in Hx. congruence.
  - rewrite (filter_swap _ (λ x, timerId x ≠ timerId t)).
    rewrite (filter_none (λ x, timerId x ≠ timerId t)); [done|].
    intros x [Hx Hxin]%list_elem_of_filter Hne. apply Hne.
    pose proof (sched_resize_only _ HC x Hxin Hx) as E1.
    pose proof (sched_resize_only _ HC t Hin Hcb) as E2. congruence.
  - apply elem_of_app. right. apply list_elem_of_here.
  - intros index. by apply navigateTo_transitioning.
Qed.

Lemma X12_resync_rerenders_in_place_witness :
  carouselPage threeCards
  ∧ state (step (TimerFires (timerId (mkTimer 3%positive 150 150 false ResizeSync)))
                (run [TimerFires 1; Resize; TimePasses 150] (boot threeCards 0)))
    = set_isTransitioning true
        (state (run [TimerFires 1; Resize; TimePasses 150] (boot threeCards 0))).
Proof.
  assert (carouselPage threeCards) as Hp by (vm_compute; repeat split; lia).
  split; [exact Hp|].
  assert (mkTimer 3%positive 150 150 false ResizeSync
          ∈ active (timers (run [TimerFires 1; Resize; TimePasses 150] (boot threeCards 0))))
    as Hin by (vm_compute; apply list_elem_of_further, list_elem_of_here).
  assert (due (mkTimer 3%positive 150 150 false ResizeSync)
          ≤ now (timers (run [TimerFires 1; Resize; TimePasses 150] (boot threeCards 0))))
    as Hdue by (vm_compute; discriminate).
  apply (X12_resync_rerenders_in_place threeCards 0 [TimerFires 1; Resize; TimePasses 150]
           (mkTimer 3%positive 150 150 false ResizeSync) Hp Hin eq_refl Hdue).
Defined.

(** ** Hover, focus and page visibility *)

Lemma arrive_same ev w :
  state (arrive ev w) = state w ∧ elements (arrive ev w) = elements w
  ∧ timers (arrive ev w) = timers w ∧ resizeTimer (arrive ev w) = resizeTimer w
  ∧ docCards (document (arrive ev w)) = docCards (document w)
  ∧ listeners (document (arrive ev w)) = listeners (document w).
Proof. by destruct ev. Qed.

Lemma Ready_arrive ev w : Ready w → Ready (arrive ev w).
Proof.
  destruct (arrive_same ev w) as (Es & Ee & Et & Er & Ed & _).
  apply Ready_ext; by rewrite ?Es, ?Ee, ?Et, ?Er, ?Ed.
Qed.

Lemma step_pausing ev w :
  Listening w → pausingEvent ev = true → step ev w = exec pauseAutoPlay (arrive ev w).
Proof.
  intros HL Hev. destruct ev as [| | | | | | | | | | |[|]| | |]; try discriminate;
    cbn [step arrive]; rewrite dispatch_listening by exact HL; unfold settle, exec.
  - by rewrite pauseAutoPlay_ok.
  - by rewrite pauseAutoPlay_ok.
  - unfold handleVisibilityChange. rewrite bind_get.
    change (hidden (document (with_document (set_hidden true) w))) with true.
    by rewrite pauseAutoPlay_ok.
Qed.

Lemma step_resuming ev w :
  Listening w → resumingEvent ev = true → step ev w = exec resumeAutoPlay (arrive ev w).
Proof.
  intros HL Hev. destruct ev as [| | | | | | | | | | |[|]| | |]; try discriminate;
    cbn [step arrive]; rewrite dispatch_listening by exact HL; unfold settle, exec.
  - by rewrite resumeAutoPlay_ok.
  - by rewrite resumeAutoPlay_ok.
  - unfold handleVisibilityChange. rewrite bind_get.
    change (hidden (document (with_document (set_hidden false) w))) with false.
    by rewrite resumeAutoPlay_ok.
Qed.

(** X13: pointer hover, keyboard focus inside the carousel and a hidden
    page cancel the auto-play interval and clear its handle, touching nothing
    else of the state object. The complementary event leaves a running
    interval alone; after a pause it starts a fresh interval with a full
    period counted from the moment of resuming, so the time waited before the
    pause is not carried over. *)
Theorem X13_pause_and_resume_events
    (p : Page) (clock : Z) (evs : list Event) (ev ev' : Event) :
  carouselPage p →
  pausingEvent ev = true → resumingEvent ev' = true →
  let w := run evs (boot p clock) in
  autoTimers (step ev w) = []
  ∧ state (step ev w) = set_autoPlayTimer None (state w)
  ∧ (is_Some (autoPlayTimer (state w)) → step ev' w = arrive ev' w)
  ∧ ∀ dt : N,
      autoTimers (run [ev; TimePasses dt; ev'] w)
      = [mkTimer (nextTimerId (timers w))
                 (now (timers w) + Z.of_N dt + CONFIG.AUTO_PLAY_INTERVAL)
                 CONFIG.AUTO_PLAY_INTERVAL true AutoAdvance].
Proof.
  intros Hp Hev Hev' w.
  destruct (Steady_reachable p clock evs Hp) as (HR & _ & _ & HL). fold w in HR, HL.
  clearbody w.
  pose proof (Ready_arrive ev w HR) as (HB0 & _ & HT0).
  destruct (arrive_same ev w) as (Es & _ & Et & _).
  assert (step ev w
          = with_state (set_autoPlayTimer None)
              (exec (clearTimer (autoPlayTimer (state (arrive ev w)))) (arrive ev w)))
    as E1.
  { rewrite (step_pausing ev w HL Hev). unfold exec at 1.
    by rewrite pauseAutoPlay_eq, (built_playing _ HB0). }
  destruct (Tracked_pause _ HT0) as [_ Hnone].
  assert (autoTimers (step ev w) = []) as Hpaused by (by rewrite E1).
  split; [exact Hpaused|]. split; [by rewrite E1, <- Es|]. split.
  - intros [a Ea]. rewrite (step_resuming ev' w HL Hev'). unfold exec.
    rewrite resumeAutoPlay_eq. destruct (arrive_same ev' w) as (Es' & _).
    by rewrite Es', Ea.
  - intros dt. cbn [run foldl].
    change (step (TimePasses dt) (step ev w))
      with (with_timers (advanceClock dt) (step ev w)).
    set (w2 := with_timers (advanceClock dt) (step ev w)).
    assert (Listening w2) as HL2.
    { unfold w2. rewrite E1. unfold Listening. cbn. destruct (arrive_same ev w) as
        (_ & _ & _ & _ & _ & El). by rewrite El. }
    rewrite (step_resuming ev' w2 HL2 Hev'). unfold exec. rewrite resumeAutoPlay_eq.
    destruct (arrive_same ev' w2) as (Es2 & _ & Et2 & _).
    assert (autoPlayTimer (state (arrive ev' w2)) = None) as ->
      by (rewrite Es2; unfold w2; by rewrite E1).
    cbn [fst]. change (autoTimers (with_state ?f ?w')) with (autoTimers w').
    unfold setInterval. rewrite autoTimers_schedule.
    assert (autoTimers (arrive ev' w2) = []) as ->.
    { unfold autoTimers. rewrite Et2. exact Hpaused. }
    rewrite Et2. rewrite decide_True by done. cbn [app].
    assert (nextTimerId (timers w2) = nextTimerId (timers w)
            ∧ now (timers w2) = now (timers w) + Z.of_N dt) as [En Ec].
    { unfold w2. rewrite E1.
      cbn [timers with_timers advanceClock with_state exec clearTimer modify fst
           nextTimerId now].
      rewrite Et. split; reflexivity. }
    rewrite En, Ec. reflexivity.
Qed.

Lemma X13_pause_and_resume_events_witness :
  carouselPage threeCards
  ∧ pausingEvent MouseEnter = true ∧ resumingEvent (VisibilityChange false) = true
  ∧ autoTimers (step MouseEnter (run [TimerFires 1; TimePasses 4000] (boot threeCards 0)))
    = [].
Proof.
  assert (carouselPage threeCards) as Hp by (vm_compute; repeat split; lia).
  split; [exact Hp|]. split; [reflexivity|]. split; [reflexivity|].
  destruct (X13_pause_and_resume_events threeCards 0 [TimerFires 1; TimePasses 4000]
              MouseEnter (VisibilityChange false) Hp eq_refl eq_refl) as [Hnone _].
  exact Hnone.
Defined.

(** ** Navigation and time *)

(** The timer table after a navigation that moves: the timeout that ends
    the transition is added, then the auto-play interval is replaced. *)
Lemma navigateTo_timers index w :
  Ready w →
  isTransitioning (state w) = false →
  wrapIndex (totalCards (state w)) index ≠ currentIndex (state w) →
  timers (exec (navigateTo index) w)
  = mkTimers (now (timers w)) (Pos.succ (Pos.succ (nextTimerId (timers w))))
      (filter (λ x, Some (timerId x) ≠ autoPlayTimer (state w))
              (active (timers w)
               ++ [mkTimer (nextTimerId (timers w))
                           (now (timers w) + CONFIG.TRANSITION_DURATION)
                           CONFIG.TRANSITION_DURATION false EndTransition])
       ++ [mkTimer (Pos.succ (nextTimerId (timers w)))
                   (now (timers w) + CONFIG.AUTO_PLAY_INTERVAL)
                   CONFIG.AUTO_PLAY_INTERVAL true AutoAdvance]).
Proof.
  intros HR Hsettled Hmove.
  assert (0 ≤ wrapIndex (totalCards (state w)) index < totalCards (state w)) as Hrange.
  { apply wrapIndex_range. destruct HR as [[] _]. lia. }
  pose proof HR as ([Ht Hm Hrefs Hd Hp Hn Hl Hi Hpl] & _ & _).
  destruct (updateCarousel_ok (wrapIndex (totalCards (state w)) index) true w)
    as (dots & msg & E); auto; [lia|].
  unfold exec, navigateTo. rewrite bind_get, Hsettled.
  rewrite bool_decide_eq_false_2 by done.
  rewrite (bind_normal _ _ _ _ _ E). clear E.
  unfold resetAutoPlay. rewrite (bind_normal _ _ _ _ _ (pauseAutoPlay_eq _)).
  cbn [state isAutoPlaying set_currentIndex set_isTransitioning].
  rewrite Hpl. rewrite resumeAutoPlay_eq. reflexivity.
Qed.

Lemma step_click w :
  Ready w → Listening w →
  step NextClick w = exec (navigateTo (currentIndex (state w) + 1)) w
  ∧ step PrevClick w = exec (navigateTo (currentIndex (state w) - 1)) w.
Proof.
  intros HR HL. cbn [step]. rewrite !(dispatch_listening _ _ _ HL).
  unfold settle, handleNextClick, handlePrevClick. rewrite !bind_get.
  by rewrite !(navigateTo_ok _ w HR).
Qed.

(** Once the transition time has passed and its timeout has run, the
    carousel is settled at the card the navigation chose. *)
Lemma navigateTo_settles index w :
  Steady w →
  isTransitioning (state w) = false →
  wrapIndex (totalCards (state w)) index ≠ currentIndex (state w) →
  state (run [TimePasses 300; TimerFires (nextTimerId (timers w))]
             (exec (navigateTo index) w))
  = set_isTransitioning false (state (exec (navigateTo index) w)).
Proof.
  intros HS Hsettled Hmove. pose proof HS as (HR & _ & _ & _).
  pose proof (Steady_navigateTo index w HS) as (_ & _ & HC1 & _).
  pose proof (navigateTo_timers index w HR Hsettled Hmove) as Et.
  set (w1 := exec (navigateTo index) w) in *.
  set (e := mkTimer (nextTimerId (timers w)) (now (timers w) + CONFIG.TRANSITION_DURATION)
                    CONFIG.TRANSITION_DURATION false EndTransition).
  cbn [run foldl].
  change (step (TimePasses 300) w1) with (with_timers (advanceClock 300) w1).
  assert (e ∈ active (timers w1)) as Hin.
  { rewrite Et. cbn [active]. apply elem_of_app. left. apply list_elem_of_filter. split.
    - intros E. symmetry in E. pose proof (tracked_auto _ (proj2 (proj2 HR)) _ E). cbn in *. lia.
    - apply elem_of_app. right. apply list_elem_of_here. }
  pose proof (fireTimer_due e (with_timers (advanceClock 300) w1)
                (Scheduled_advanceClock 300 w1 HC1) Hin) as Efire.
  cbn [step]. change (timerId e) with (nextTimerId (timers w)) in Efire.
  rewrite Efire.
  - reflexivity.
  - cbn [timers with_timers advanceClock now]. rewrite Et. cbn [now due e].
    unfold e, CONFIG.TRANSITION_DURATION. cbn [due]. lia.
Qed.

(** X14: Next followed by Previous, or Previous followed by Next, is a
    round trip only when the first transition is given time to end: if the
    transition timeout has run between the two clicks the carousel is back at
    the card it started from; if the second click comes during the
    transition it is dropped and the carousel stays one card away. *)
Theorem X14_next_and_previous_round_trip (p : Page) (clock : Z) (evs : list Event) :
  carouselPage p →
  let w := run evs (boot p clock) in
  isTransitioning (state w) = false →
  currentIndex (state (run [NextClick; TimePasses 300;
                            TimerFires (nextTimerId (timers w)); PrevClick] w))
  = currentIndex (state w)
  ∧ currentIndex (state (run [PrevClick; TimePasses 300;
                              TimerFires (nextTimerId (timers w)); NextClick] w))
    = currentIndex (state w)
  ∧ run [NextClick; PrevClick] w = run [NextClick] w
  ∧ run [PrevClick; NextClick] w = run [PrevClick] w
  ∧ currentIndex (state (run [NextClick] w)) ≠ currentIndex (state w)
  ∧ currentIndex (state (run [PrevClick] w)) ≠ currentIndex (state w).
Proof.
  intros Hp w Hsettled.
  pose proof (Steady_reachable p clock evs Hp) as HS. fold w in HS. clearbody w.
  pose proof HS as (HR & _ & _ & HL). pose proof HR as (HB & _).
  destruct (step_click w HR HL) as [En Ep].
  destruct (wrapIndex_moves (totalCards (state w)) (currentIndex (state w))
              (built_many _ HB) (built_index _ HB)) as [Hmp Hmn].
  destruct (wrapIndex_round_trip (totalCards (state w)) (currentIndex (state w))
              (built_many _ HB) (built_index _ HB)) as [Hrn Hrp].
  assert (∀ index,
            wrapIndex (totalCards (state w)) index ≠ currentIndex (state w) →
            Steady (run [TimePasses 300; TimerFires (nextTimerId (timers w))]
                        (exec (navigateTo index) w))) as Hsteady.
  { intros index _. apply Steady_run. by apply Steady_navigateTo. }
  assert (∀ index back,
            wrapIndex (totalCards (state w)) index ≠ currentIndex (state w) →
            let w3 := run [TimePasses 300; TimerFires (nextTimerId (timers w))]
                          (exec (navigateTo index) w) in
            currentIndex (state (exec (navigateTo (currentIndex (state w3) + back)) w3))
            = wrapIndex (totalCards (state w))
                        (wrapIndex (totalCards (state w)) index + back)) as Hback.
  { intros index back Hmove w3.
    pose proof (navigateTo_settles index w HS Hsettled Hmove) as Est. fold w3 in Est.
    rewrite navigateTo_currentIndex by (by rewrite Est).
    rewrite Est, (navigateTo_moved_state index w HR Hsettled Hmove). reflexivity. }
  assert (∀ index,
            wrapIndex (totalCards (state w)) index ≠ currentIndex (state w) →
            isTransitioning (state (exec (navigateTo index) w)) = true
            ∧ currentIndex (state (exec (navigateTo index) w))
              = wrapIndex (totalCards (state w)) index) as Hmid.
  { intros index Hmove.
    by rewrite (navigateTo_moved_state index w HR Hsettled Hmove). }
  split; [|split; [|split; [|split; [|split]]]].
  - change (run [NextClick; TimePasses 300; TimerFires (nextTimerId (timers w)); PrevClick] w)
      with (step PrevClick (run [TimePasses 300; TimerFires (nextTimerId (timers w))]
                                (step NextClick w))).
    rewrite En.
    destruct (Hsteady _ Hmn) as (HR3 & _ & _ & HL3).
    rewrite (proj2 (step_click _ HR3 HL3)).
    etransitivity; [apply (Hback _ (-1) Hmn)|exact Hrn].
  - change (run [PrevClick; TimePasses 300; TimerFires (nextTimerId (timers w)); NextClick] w)
      with (step NextClick (run [TimePasses 300; TimerFires (nextTimerId (timers w))]
                                (step PrevClick w))).
    rewrite Ep.
    destruct (Hsteady _ Hmp) as (HR3 & _ & _ & HL3).
    rewrite (proj1 (step_click _ HR3 HL3)).
    etransitivity; [apply (Hback _ 1 Hmp)|exact Hrp].
  - cbn [run foldl]. rewrite En.
    pose proof (Steady_navigateTo (currentIndex (state w) + 1) w HS) as (HR1 & _ & _ & HL1).
    rewrite (proj2 (step_click _ HR1 HL1)). unfold exec at 1.
    by rewrite navigateTo_transitioning by apply (Hmid _ Hmn).
  - cbn [run foldl]. rewrite Ep.
    pose proof (Steady_navigateTo (currentIndex (state w) - 1) w HS) as (HR1 & _ & _ & HL1).
    rewrite (proj1 (step_click _ HR1 HL1)). unfold exec at 1.
    by rewrite navigateTo_transitioning by apply (Hmid _ Hmp).
  - cbn [run foldl]. rewrite En. by rewrite (proj2 (Hmid _ Hmn)).
  - cbn [run foldl]. rewrite Ep. by rewrite (proj2 (Hmid _ Hmp)).
Qed.

Lemma X14_next_and_previous_round_trip_witness :
  carouselPage threeCards
  ∧ currentIndex (state (run [NextClick; TimePasses 300;
                              TimerFires (nextTimerId (timers (run [TimerFires 1]
                                                                   (boot threeCards 0))));
                              PrevClick]
                             (run [TimerFires 1] (boot threeCards 0))))
    = currentIndex (state (run [TimerFires 1] (boot threeCards 0))).
Proof.
  assert (carouselPage threeCards) as Hp by (vm_compute; repeat split; lia).
  split; [exact Hp|].
  assert (isTransitioning (state (run [TimerFires 1] (boot threeCards 0))) = false)
    as Hsettled by (vm_compute; reflexivity).
  destruct (X14_next_and_previous_round_trip threeCards 0 [TimerFires 1] Hp Hsettled)
    as [Hback _].
  exact Hback.
Defined.

(** ** No handler throws *)

Lemma settle_returns {A} (h : JS A) w : returns h w → settle h w = exec h w.
Proof. intros [a E]. unfold settle. by rewrite E. Qed.

Lemma returns_bind {A B} (m : JS A) (k : A → JS B) w a :
  m w = (exec m w, Normal a) → returns (k a) (exec m w) → returns (m ≫= k) w.
Proof.
  intros E [b Ek]. exists b. unfold exec in *. unfold mbind, JS_bind in *.
  rewrite E in *. cbn [fst] in *. by rewrite Ek.
Qed.

Lemma returns_navigateTo index w : Ready w → returns (navigateTo index) w.
Proof. intros HR. exists tt. by apply navigateTo_ok. Qed.

Lemma quiet_navigateTo index c : preserves (λ w, console w = c) (navigateTo index).
Proof.
  unfold navigateTo, updateCarousel, announceCurrentTestimonial, resetAutoPlay,
         pauseAutoPlay, resumeAutoPlay.
  repeat listening_step.
Qed.

Lemma quiet_handler ev c :
  match ev with
  | PrevClick => preserves (λ w, console w = c) handlePrevClick
  | NextClick => preserves (λ w, console w = c) handleNextClick
  | IndicatorClick target => preserves (λ w, console w = c) (handleIndicatorClick target)
  | KeyDown key => preserves (λ w, console w = c) (handleKeyDown key)
  | TouchStart touches => preserves (λ w, console w = c) (handleTouchStart touches)
  | TouchMove touches => preserves (λ w, console w = c) (handleTouchMove touches)
  | TouchEnd changedTouches => preserves (λ w, console w = c) (handleTouchEnd changedTouches)
  | MouseEnter | FocusIn => preserves (λ w, console w = c) pauseAutoPlay
  | MouseLeave | FocusOut => preserves (λ w, console w = c) resumeAutoPlay
  | VisibilityChange _ => preserves (λ w, console w = c) handleVisibilityChange
  | Resize => preserves (λ w, console w = c) handleResize
  | _ => True
  end.
Proof.
  pose proof (λ index, quiet_navigateTo index c).
  destruct ev; try exact Logic.I;
    unfold handlePrevClick, handleNextClick, handleIndicatorClick, handleKeyDown,
           handleTouchStart, handleTouchMove, handleTouchEnd, handleVisibilityChange,
           handleResize, pauseAutoPlay, resumeAutoPlay in *; repeat listening_step; auto.
Qed.

Lemma quiet_runCallback cb c : preserves (λ w, console w = c) (runCallback cb).
Proof.
  pose proof (λ index, quiet_navigateTo index c).
  destruct cb; unfold runCallback, updateCarousel, announceCurrentTestimonial in *;
    repeat listening_step; auto.
Qed.

Lemma returns_handleKeyDown key w : Ready w → returns (handleKeyDown key) w.
Proof.
  intros HR. exists tt.
  destruct (decide (now (timers w) - lastKeyPressTime (state w)
                    < CONFIG.KEYBOARD_REPEAT_DELAY)) as [Hd|Hd].
  - unfold exec, handleKeyDown. rewrite bind_get. by rewrite bool_decide_eq_true_2.
  - unfold exec. by rewrite (handleKeyDown_eq key w HR Hd).
Qed.

Lemma returns_handleIndicatorClick target w :
  Ready w → returns (handleIndicatorClick target) w.
Proof.
  intros HR. exists tt. unfold exec, handleIndicatorClick. rewrite bind_get.
  destruct (target ≫= _) as [indicator|]; [|done]. by apply navigateTo_ok.
Qed.

Lemma returns_handleTouchEnd changedTouches w :
  Ready w → changedTouches ≠ [] → returns (handleTouchEnd changedTouches) w.
Proof.
  intros HR Hct. exists tt. by apply handleTouchEnd_resets.
Qed.

Lemma returns_runCallback cb w : Ready w → Synced w → returns (runCallback cb) w.
Proof.
  intros HR HS. exists tt. destruct cb.
  - cbn [runCallback]. unfold exec. rewrite bind_get. by apply navigateTo_ok.
  - reflexivity.
  - unfold exec. by rewrite (resync_result w HR HS).
Qed.

(** On a built carousel an event leaves the console alone: its handler
    returns, so nothing is reported as uncaught, and no handler logs. *)
Lemma step_console ev w :
  Steady w → wellFormed ev = true → console (step ev w) = console w.
Proof.
  intros (HR & HS & HC & HL) Hev. pose proof (quiet_handler ev (console w)) as Hq.
  destruct ev as [| |target|key|touches|touches|changedTouches| | | | |nowHidden| |id|dt];
    cbn [step]; rewrite ?(dispatch_listening _ _ _ HL).
  - rewrite settle_returns; [by apply Hq|].
    exists tt. unfold exec, handlePrevClick. rewrite bind_get. by apply navigateTo_ok.
  - rewrite settle_returns; [by apply Hq|].
    exists tt. unfold exec, handleNextClick. rewrite bind_get. by apply navigateTo_ok.
  - rewrite settle_returns; [by apply Hq|]. by apply returns_handleIndicatorClick.
  - rewrite settle_returns; [by apply Hq|]. by apply returns_handleKeyDown.
  - rewrite settle_returns; [by apply Hq|].
    exists tt. by destruct touches as [|[x y] [|]].
  - rewrite settle_returns; [by apply Hq|].
    destruct touches as [|[x y] [|]]; eexists; unfold exec, handleTouchMove;
      rewrite ?bind_get; reflexivity.
  - rewrite settle_returns; [by apply Hq|].
    apply returns_handleTouchEnd; [exact HR|]. by destruct changedTouches.
  - rewrite settle_returns; [by apply Hq|]. exists tt. apply pauseAutoPlay_ok.
  - rewrite settle_returns; [by apply Hq|]. exists tt. apply resumeAutoPlay_ok.
  - rewrite settle_returns; [by apply Hq|]. exists tt. apply pauseAutoPlay_ok.
  - rewrite settle_returns; [by apply Hq|]. exists tt. apply resumeAutoPlay_ok.
  - rewrite dispatch_listening by exact HL.
    rewrite settle_returns; [by apply Hq|].
    exists tt. unfold exec, handleVisibilityChange. rewrite bind_get.
    destruct (hidden _); [apply pauseAutoPlay_ok|apply resumeAutoPlay_ok].
  - rewrite settle_returns; [by apply Hq|]. exists tt. unfold exec.
    by rewrite handleResize_eq.
  - unfold fireTimer. destruct (List.find _ _) as [t|]; [|done].
    rewrite settle_returns; [by apply quiet_runCallback|].
    apply returns_runCallback; [by apply Ready_afterFiring|by apply (Synced_ext w)].
  - done.
Qed.

(** X15: on a built carousel no event handler and no timer callback ever
    throws or logs. Whatever events arrive, as long as every [touchend]
    names the touch that ended, the console holds the one line [init] wrote
    after building the carousel: no error is logged and no exception reaches
    the browser. *)
Theorem X15_no_handler_throws (p : Page) (clock : Z) (evs : list Event) :
  carouselPage p →
  Forall (λ ev, wellFormed ev = true) evs →
  console (run evs (boot p clock)) = [LogInfo (Z.of_nat (length (pageCards p)))].
Proof.
  intros Hp Hevs.
  assert (console (boot p clock) = [LogInfo (Z.of_nat (length (pageCards p)))]) as H0.
  { destruct (boot_built p clock Hp) as (c & _ & ->). reflexivity. }
  pose proof (Steady_boot p clock Hp) as HS. revert H0 HS.
  generalize (boot p clock).
  induction Hevs as [|ev evs Hev _ IH]; intros w H0 HS; [exact H0|].
  cbn [run foldl]. apply IH.
  - by rewrite step_console.
  - by apply Steady_step.
Qed.

Lemma X15_no_handler_throws_witness :
  carouselPage threeCards
  ∧ Forall (λ ev, wellFormed ev = true)
           [TimerFires 1; KeyDown "End"; TouchStart [(200, 100)]; TouchEnd [(120, 100)]]
  ∧ console (run [TimerFires 1; KeyDown "End"; TouchStart [(200, 100)];
                  TouchEnd [(120, 100)]] (boot threeCards 0))
    = [LogInfo (Z.of_nat (length (pageCards threeCards)))].
Proof.
  assert (carouselPage threeCards) as Hp by (vm_compute; repeat split; lia).
  assert (Forall (λ ev, wellFormed ev = true)
            [TimerFires 1; KeyDown "End"; TouchStart [(200, 100)]; TouchEnd [(120, 100)]])
    as Hevs by (repeat constructor).
  split; [exact Hp|]. split; [exact Hevs|].
  exact (X15_no_handler_throws threeCards 0 _ Hp Hevs).
Defined.

(** ** The timer table *)

Lemma same_handle_short (l : list Timer) a :
  NoDup (timerId <$> l) → (∀ x, x ∈ l → timerId x = a) → (length l ≤ 1)%nat.
Proof.
  intros Hnd Hall. destruct l as [|x [|y l]]; cbn; [lia|lia|].
  exfalso. apply NoDup_cons in Hnd as [Hx _]. apply Hx.
  rewrite (Hall x) by left. rewrite <- (Hall y) by (right; left).
  cbn. left.
Qed.

(** X16: the carousel does not leak timers of its own. In every state
    reached from a built carousel the timer handles are distinct, at most one
    auto-play interval exists and it is the one [state.autoPlayTimer] names,
    at most one resync timeout is pending and it is the one [resizeTimer]
    names, and the auto-play interval is the only repeating timer. *)
Theorem X16_timer_table_is_bounded (p : Page) (clock : Z) (evs : list Event) :
  carouselPage p →
  let w := run evs (boot p clock) in
  NoDup (timerId <$> active (timers w))
  ∧ (length (autoTimers w) ≤ 1)%nat
  ∧ timerId <$> autoTimers w = option_list (autoPlayTimer (state w))
  ∧ (length (resizeTimers w) ≤ 1)%nat
  ∧ (∀ t, t ∈ resizeTimers w → resizeTimer w = Some (timerId t))
  ∧ (∀ t, t ∈ active (timers w) → repeating t = true ↔ callback t = AutoAdvance).
Proof.
  intros Hp w.
  destruct (Steady_reachable p clock evs Hp) as ((_ & _ & HT) & _ & HC & _).
  fold w in HT, HC. clearbody w.
  pose proof (tracked_ids _ HT) as Hids.
  split; [apply (sched_nodup _ HC)|]. split; [|split; [exact Hids|split; [|split]]].
  - apply (f_equal length) in Hids. rewrite length_fmap in Hids. rewrite Hids.
    destruct (autoPlayTimer (state w)); cbn; lia.
  - destruct (resizeTimer w) as [r|] eqn:Er.
    + apply (same_handle_short _ r).
      * apply NoDup_handles_filter, (sched_nodup _ HC).
      * intros x [Hx Hin]%list_elem_of_filter.
        pose proof (sched_resize_only _ HC x Hin Hx) as E. congruence.
    + unfold resizeTimers. rewrite filter_none; [cbn; lia|].
      intros x Hin Hx. pose proof (sched_resize_only _ HC x Hin Hx) as E. congruence.
  - intros t [Hx Hin]%list_elem_of_filter. by apply (sched_resize_only _ HC).
  - intros t Hin. split.
    + intros Hrep. destruct (decide (callback t = AutoAdvance)) as [|Hne]; [done|].
      pose proof (sched_oneshot _ HC t Hin Hne). congruence.
    + intros Hcb. pose proof (tracked_repeat _ HT) as Hall.
      rewrite Forall_forall in Hall. apply Hall. by apply list_elem_of_filter.
Qed.

Lemma X16_timer_table_is_bounded_witness :
  carouselPage threeCards
  ∧ NoDup (timerId <$> active (timers (run [Resize; NextClick; Resize; MouseLeave]
                                           (boot threeCards 0)))).
Proof.
  assert (carouselPage threeCards) as Hp by (vm_compute; repeat split; lia).
  split; [exact Hp|].
  destruct (X16_timer_table_is_bounded threeCards 0 [Resize; NextClick; Resize; MouseLeave]
              Hp) as [Hnd _].
  exact Hnd.
Defined.

(** X17: a click on Next or Previous ends a pause. While the pointer
    hovers over the carousel, focus is inside it or the page is hidden, no
    auto-play interval exists; a navigation that moves the carousel then
    starts one again, due a full period later, although none of the resuming
    events has happened. *)
Theorem X17_click_restarts_paused_autoplay
    (p : Page) (clock : Z) (evs : list Event) (ev click : Event) :
  carouselPage p →
  pausingEvent ev = true →
  click = NextClick ∨ click = PrevClick →
  let w := run evs (boot p clock) in
  isTransitioning (state w) = false →
  autoTimers (run [ev] w) = []
  ∧ autoTimers (run [ev; click] w)
    = [mkTimer (Pos.succ (nextTimerId (timers w)))
               (now (timers w) + CONFIG.AUTO_PLAY_INTERVAL)
               CONFIG.AUTO_PLAY_INTERVAL true AutoAdvance].
Proof.
  intros Hp Hev Hclick w Hsettled.
  pose proof (Steady_reachable p clock evs Hp) as HS. fold w in HS. clearbody w.
  pose proof HS as (HR & _ & _ & HL).
  pose proof (Ready_arrive ev w HR) as (HB0 & _ & HT0).
  destruct (arrive_same ev w) as (Es & _ & Et & _).
  assert (step ev w
          = with_state (set_autoPlayTimer None)
              (exec (clearTimer (autoPlayTimer (state (arrive ev w)))) (arrive ev w)))
    as E1.
  { rewrite (step_pausing ev w HL Hev). unfold exec at 1.
    by rewrite pauseAutoPlay_eq, (built_playing _ HB0). }
  destruct (Tracked_pause _ HT0) as [_ Hnone].
  pose proof (Steady_step ev w HS) as (HR1 & _ & _ & HL1).
  assert (state (step ev w) = set_autoPlayTimer None (state w)) as Est
    by (by rewrite E1, <- Es).
  assert (nextTimerId (timers (step ev w)) = nextTimerId (timers w)
          ∧ now (timers (step ev w)) = now (timers w)) as [En Ec].
  { rewrite E1.
    cbn [timers with_timers with_state exec clearTimer modify fst nextTimerId now].
    by rewrite Et. }
  cbn [run foldl]. split; [by rewrite E1|].
  destruct (step_click _ HR1 HL1) as [Enext Eprev].
  destruct HR as (HB & _).
  destruct (wrapIndex_moves (totalCards (state w)) (currentIndex (state w))
              (built_many _ HB) (built_index _ HB)) as [Hmp Hmn].
  rewrite <- En, <- Ec.
  destruct Hclick as [-> | ->]; [rewrite Enext|rewrite Eprev];
    apply (navigateTo_moved _ _ HR1);
    rewrite navigateTo_currentIndex by (by rewrite Est); rewrite Est; assumption.
Qed.

Lemma X17_click_restarts_paused_autoplay_witness :
  carouselPage threeCards
  ∧ pausingEvent MouseEnter = true
  ∧ (NextClick = NextClick ∨ NextClick = PrevClick)
  ∧ autoTimers (run [MouseEnter; NextClick] (run [TimerFires 1] (boot threeCards 0)))
    = [mkTimer (Pos.succ (nextTimerId (timers (run [TimerFires 1] (boot threeCards 0)))))
               (now (timers (run [TimerFires 1] (boot threeCards 0)))
                + CONFIG.AUTO_PLAY_INTERVAL)
               CONFIG.AUTO_PLAY_INTERVAL true AutoAdvance].
Proof.
  assert (carouselPage threeCards) as Hp by (vm_compute; repeat split; lia).
  split; [exact Hp|]. split; [reflexivity|]. split; [by left|].
  assert (isTransitioning (state (run [TimerFires 1] (boot threeCards 0))) = false)
    as Hsettled by (vm_compute; reflexivity).
  destruct (X17_click_restarts_paused_autoplay threeCards 0 [TimerFires 1]
              MouseEnter NextClick Hp eq_refl (or_introl eq_refl) Hsettled) as [_ Hgo].
  exact Hgo.
Defined.
